(** * Verification of [scripts/prepare_gdpr.py]

    The script cleans a plain-text copy of the GDPR ([clean_gdpr_text]),
    computes statistics over the cleaned text, and derives an expected
    structural summary ([generate_expected_json]).  Everything it does is
    a sequence of [re] calls and [str] methods over one in-memory string,
    so the development has three layers:

    - [Py]: Python's [str] as a list of code points, with the handful of
      [str] methods the script calls;
    - [Re]: the fragment of Python's backtracking [re] engine the script's
      patterns fall in (quantified character classes, [^] and [$] under
      [re.MULTILINE], flat capture groups, one lookahead);
    - [Normalizer], [Extractor], [Cli]: the three functions of the script,
      statement by statement. *)

From Stdlib Require Import List NArith ZArith Lia Bool Arith String Ascii.
From Stdlib Require Import Sorting.Sorted Sorting.Permutation DecimalPos.
From stdpp Require Import gmap.
Import ListNotations.

Set Implicit Arguments.
Local Open Scope list_scope.

(* ===================================================================== *)
(** * Python strings *)
(* ===================================================================== *)

(** A Python [str] is a sequence of Unicode code points. *)
Abbreviation char := N (only parsing).
Abbreviation str := (list N) (only parsing).

Module Py.

Definition nl : char := 10%N.
Definition tab : char := 9%N.
Definition space : char := 32%N.

Definition chr_eqb (a b : char) : bool := N.eqb a b.
Global Arguments chr_eqb : simpl never.

(** [str.isspace] on one character, which is also what [\s] matches in
    a [str] pattern and what [str.strip()] removes. *)
Definition isspace (c : char) : bool :=
  ((9 <=? c) && (c <=? 13) || (28 <=? c) && (c <=? 32)
   || (c =? 133) || (c =? 160) || (c =? 5760)
   || (8192 <=? c) && (c <=? 8202)
   || (c =? 8232) || (c =? 8233) || (c =? 8239) || (c =? 8287)
   || (c =? 12288))%N.

(** The code points of the digit zero in every Unicode decimal-digit
    block (general category Nd, Unicode 14); each block is ten
    consecutive code points with values 0 to 9.  [\d] matches exactly
    these characters and [int] reads them. *)
Definition decimal_zeros : list N :=
  [48; 1632; 1776; 1984; 2406; 2534; 2662; 2790; 2918; 3046; 3174; 3302;
   3430; 3558; 3664; 3792; 3872; 4160; 4240; 6112; 6160; 6470; 6608;
   6784; 6800; 6992; 7088; 7232; 7248; 42528; 43216; 43264; 43472;
   43504; 43600; 44016; 65296; 66720; 68912; 69734; 69872; 69942;
   70096; 70384; 70736; 70864; 71248; 71360; 71472; 71904; 72016;
   72784; 73040; 73120; 92768; 92864; 93008; 120782; 120792; 120802;
   120812; 120822; 123200; 123632; 125264; 130032]%N.

Fixpoint digit_in (zeros : list N) (c : char) : option N :=
  match zeros with
  | [] => None
  | z :: zs => if ((z <=? c) && (c <? z + 10))%N then Some (c - z)%N
               else digit_in zs c
  end.

Definition digit_value (c : char) : option N := digit_in decimal_zeros c.

Definition isdecimal (c : char) : bool :=
  match digit_value c with Some _ => true | None => false end.
Global Arguments isspace : simpl never.
Global Arguments digit_value : simpl never.
Global Arguments isdecimal : simpl never.

(** [int(s)] for a string of decimal digits (the only strings the script
    converts are captures of [\d+]).  A character that is no digit
    counts as zero here; Python raises on it. *)
Definition int (s : str) : N :=
  fold_left (fun acc c =>
               (10 * acc + match digit_value c with Some d => d | None => 0 end)%N)
            s 0%N.

(** The interpreter refuses to convert a string of more than
    [sys.int_info.default_max_str_digits] digits (CPython 3.11 and later,
    default setting): [int] then raises [ValueError].  Leading zeros
    count. *)
Definition max_str_digits : nat := 4300.

Definition int_ok (s : str) : bool := (length s <=? max_str_digits)%nat.

(** [str(n)] / [f"{n}"] for a non-negative integer. *)
Fixpoint of_uint (d : Decimal.uint) : str :=
  match d with
  | Decimal.Nil => []
  | Decimal.D0 d => 48%N :: of_uint d
  | Decimal.D1 d => 49%N :: of_uint d
  | Decimal.D2 d => 50%N :: of_uint d
  | Decimal.D3 d => 51%N :: of_uint d
  | Decimal.D4 d => 52%N :: of_uint d
  | Decimal.D5 d => 53%N :: of_uint d
  | Decimal.D6 d => 54%N :: of_uint d
  | Decimal.D7 d => 55%N :: of_uint d
  | Decimal.D8 d => 56%N :: of_uint d
  | Decimal.D9 d => 57%N :: of_uint d
  end.

Definition format_int (n : N) : str := of_uint (N.to_uint n).

(** Literals.  [txt] reads a Rocq string as the Python literal spelled
    the same way: a backslash followed by [n], [t] or [r] is the newline,
    the tab or the carriage return, a doubled backslash is a backslash. *)
Fixpoint txt (s : string) : str :=
  match s with
  | EmptyString => []
  | String "\" (String "n" s') => nl :: txt s'
  | String "\" (String "t" s') => tab :: txt s'
  | String "\" (String "r" s') => 13%N :: txt s'
  | String "\" (String "\" s') => 92%N :: txt s'
  | String a s' => N_of_ascii a :: txt s'
  end.

(** [text.split('\n')]: the newline-delimited segments, one more than
    there are newlines. *)
Fixpoint split_nl (t : str) : list str :=
  match t with
  | [] => [[]]
  | c :: t' =>
      if chr_eqb c nl then [] :: split_nl t'
      else match split_nl t' with
           | [] => [[c]]
           | l :: ls => (c :: l) :: ls
           end
  end.

(** ['\n'.join(lines)]. *)
Fixpoint join_nl (ls : list str) : str :=
  match ls with
  | [] => []
  | [l] => l
  | l :: ls' => l ++ nl :: join_nl ls'
  end.

(** [s.lstrip(chars)], [s.rstrip(chars)] and [s.strip(chars)] for a
    character set given as a predicate. *)
Fixpoint lstrip_by (p : char -> bool) (t : str) : str :=
  match t with
  | [] => []
  | c :: t' => if p c then lstrip_by p t' else t
  end.

Definition rstrip_by (p : char -> bool) (t : str) : str :=
  rev (lstrip_by p (rev t)).

Definition strip_by (p : char -> bool) (t : str) : str :=
  rstrip_by p (lstrip_by p t).

(** [s.strip()]. *)
Definition strip (t : str) : str := strip_by isspace t.

(** [s.startswith(prefix)]. *)
Fixpoint startswith (prefix t : str) : bool :=
  match prefix, t with
  | [], _ => true
  | _ :: _, [] => false
  | a :: p', b :: t' => chr_eqb a b && startswith p' t'
  end.

(** [text.find(needle)]: the lowest index at which [needle] occurs, or
    [-1]. *)
Fixpoint find_from (needle t : str) (i : Z) : Z :=
  if startswith needle t then i
  else match t with
       | [] => (-1)%Z
       | _ :: t' => find_from needle t' (i + 1)%Z
       end.

Definition find (needle t : str) : Z := find_from needle t 0%Z.

(** [text[lo:hi]] with Python's treatment of negative and out-of-range
    bounds. *)
Definition clamp (n : Z) (i : Z) : Z :=
  if (i <? 0)%Z then Z.max (i + n) 0 else Z.min i n.

Definition slice (t : str) (lo hi : Z) : str :=
  let n := Z.of_nat (length t) in
  let a := clamp n lo in
  let b := clamp n hi in
  firstn (Z.to_nat (b - a)) (skipn (Z.to_nat a) t).

End Py.

(* ===================================================================== *)
(** * The [re] fragment *)
(* ===================================================================== *)

(** Every quantifier in the script's patterns applies to a single
    character class, so a pattern is a sequence of items and the
    backtracking search is a choice of how many characters each
    quantified class takes: longest first for a greedy quantifier,
    shortest first for a lazy one. *)
Module Re.

(** The state of one match attempt: the character before the current
    position ([None] at the start of the string), the number of
    characters consumed, the group being captured and the groups
    already closed. *)
Record mstate := MState {
  m_prev : option char;
  m_len : nat;
  m_cur : option str;
  m_groups : list str
}.

Definition eat (c : char) (st : mstate) : mstate :=
  {| m_prev := Some c;
     m_len := S (m_len st);
     m_cur := option_map (fun g => g ++ [c]) (m_cur st);
     m_groups := m_groups st |}.

(** The positions a quantified class can stop at, shortest first. *)
Fixpoint runs (cls : char -> bool) (lo : nat) (hi : option nat)
         (st : mstate) (t : str) {struct t} : list (mstate * str) :=
  (match lo with 0 => [(st, t)] | S _ => [] end) ++
  match hi, t with
  | Some 0, _ => []
  | _, [] => []
  | _, c :: t' =>
      if cls c then runs cls (Nat.pred lo) (option_map Nat.pred hi) (eat c st) t'
      else []
  end.

Fixpoint first_some {A B} (f : A -> option B) (l : list A) : option B :=
  match l with
  | [] => None
  | x :: l' => match f x with Some y => Some y | None => first_some f l' end
  end.

Definition at_bol (st : mstate) : bool :=
  match m_prev st with
  | None => true
  | Some c => Py.chr_eqb c Py.nl
  end.

Definition at_eol (t : str) : bool :=
  match t with
  | [] => true
  | c :: _ => Py.chr_eqb c Py.nl
  end.

Definition is_some {A} (o : option A) : bool :=
  match o with Some _ => true | None => false end.

(** Items are parameterised by what a lookahead holds, so that the body
    of a lookahead is a pattern one level down. *)
Inductive item (L : Type) :=
| Rep (cls : char -> bool) (lo : nat) (hi : option nat) (greedy : bool)
    (** [c{lo,hi}], or [c{lo,hi}?] when not greedy *)
| Bol   (** [^] under [re.MULTILINE] *)
| Eol   (** [$] under [re.MULTILINE] *)
| Open  (** [(] *)
| Close (** [)] *)
| Ahead (body : L) (** [(?=...)] *).

Arguments Rep {L} cls lo hi greedy.
Arguments Bol {L}.
Arguments Eol {L}.
Arguments Open {L}.
Arguments Close {L}.
Arguments Ahead {L} body.

Section Matcher.
Context {L : Type} (look : L -> mstate -> str -> bool).

(** One match attempt at a fixed position. *)
Fixpoint match_items (its : list (item L)) (st : mstate) (t : str) {struct its}
  : option (mstate * str) :=
  match its with
  | [] => Some (st, t)
  | Rep cls lo hi greedy :: its' =>
      let cands := runs cls lo hi st t in
      first_some (fun p => match_items its' (fst p) (snd p))
                 (if greedy then rev cands else cands)
  | Bol :: its' => if at_bol st then match_items its' st t else None
  | Eol :: its' => if at_eol t then match_items its' st t else None
  | Open :: its' =>
      match_items its'
        {| m_prev := m_prev st; m_len := m_len st;
           m_cur := Some []; m_groups := m_groups st |} t
  | Close :: its' =>
      match_items its'
        {| m_prev := m_prev st; m_len := m_len st; m_cur := None;
           m_groups := m_groups st ++
                       [match m_cur st with Some g => g | None => [] end] |} t
  | Ahead body :: its' =>
      if look body st t then match_items its' st t else None
  end.
End Matcher.

(** Patterns without lookahead, the alternatives of a lookahead, and
    the patterns of the script. *)
Definition simple := list (item Empty_set).
Definition match_simple : simple -> mstate -> str -> option (mstate * str) :=
  match_items (fun (e : Empty_set) _ _ => match e with end).

Definition alternatives := list simple.
Definition look_alternatives (alts : alternatives) (st : mstate) (t : str) : bool :=
  existsb (fun alt => is_some (match_simple alt st t)) alts.

Definition pattern := list (item alternatives).
Definition match_pattern : pattern -> mstate -> str -> option (mstate * str) :=
  match_items look_alternatives.

(** Shorthands for the quantifier spellings. *)
Definition one {L} (cls : char -> bool) : item L := Rep cls 1 (Some 1) true.
Definition plus {L} (cls : char -> bool) : item L := Rep cls 1 None true.
Definition star {L} (cls : char -> bool) : item L := Rep cls 0 None true.
Definition plus_lazy {L} (cls : char -> bool) : item L := Rep cls 1 None false.
Definition at_least {L} (n : nat) (cls : char -> bool) : item L := Rep cls n None true.
Definition lit {L} (s : str) : list (item L) := map (fun c => one (Py.chr_eqb c)) s.

(** [[abc]], [[^abc]] and [.] (without [re.DOTALL]). *)
Definition any_of (s : str) (c : char) : bool := existsb (Py.chr_eqb c) s.
Definition none_of (s : str) (c : char) : bool := negb (any_of s c).
Definition dot (c : char) : bool := negb (Py.chr_eqb c Py.nl).

(** A match object: where it starts, [group(0)] and the captures. *)
Record rmatch := RMatch {
  m_start : nat;
  m_text : str;
  m_caps : list str
}.

(** [m.group(i)] for [i >= 1]. *)
Definition group (i : nat) (m : rmatch) : str := nth (Nat.pred i) (m_caps m) [].

Definition match_here (pat : pattern) (prev : option char) (pos : nat) (t : str)
  : option rmatch :=
  match match_pattern pat
          {| m_prev := prev; m_len := 0; m_cur := None; m_groups := [] |} t with
  | Some (st, _) =>
      Some {| m_start := pos; m_text := firstn (m_len st) t; m_caps := m_groups st |}
  | None => None
  end.

(** The left-to-right scan shared by [finditer], [findall] and [sub]:
    the characters outside every match, and the matches, in order.
    After a match the scan resumes at its end, so the characters inside
    it are passed over ([skip] counts those still to pass).  Every
    pattern of the script consumes at least one character; an empty
    match is recorded and the scan moves on by one. *)
Inductive piece :=
| Keep (c : char)
| Hit (m : rmatch).

Fixpoint scan (pat : pattern) (prev : option char) (pos : nat) (t : str)
         (skip : nat) {struct t} : list piece :=
  match t with
  | [] =>
      match skip, match_here pat prev pos [] with
      | 0, Some m => [Hit m]
      | _, _ => []
      end
  | c :: t' =>
      match skip with
      | S k => scan pat (Some c) (S pos) t' k
      | 0 =>
          match match_here pat prev pos t with
          | Some m =>
              Hit m :: match length (m_text m) with
                       | 0 => Keep c :: scan pat (Some c) (S pos) t' 0
                       | S k => scan pat (Some c) (S pos) t' k
                       end
          | None => Keep c :: scan pat (Some c) (S pos) t' 0
          end
      end
  end.

Definition pieces (pat : pattern) (t : str) : list piece := scan pat None 0 t 0.

Fixpoint hits (ps : list piece) : list rmatch :=
  match ps with
  | [] => []
  | Keep _ :: ps' => hits ps'
  | Hit m :: ps' => m :: hits ps'
  end.

(** [re.finditer(pat, t, re.MULTILINE)]. *)
Definition finditer (pat : pattern) (t : str) : list rmatch := hits (pieces pat t).

(** [re.findall(pat, t, re.MULTILINE)] for a pattern with one group. *)
Definition findall (pat : pattern) (t : str) : list str :=
  map (group 1) (finditer pat t).

(** [re.sub(pat, repl, t, flags=re.MULTILINE)], the replacement template
    given as a function of the match. *)
Fixpoint render (repl : rmatch -> str) (ps : list piece) : str :=
  match ps with
  | [] => []
  | Keep c :: ps' => c :: render repl ps'
  | Hit m :: ps' => repl m ++ render repl ps'
  end.

Definition sub (pat : pattern) (repl : rmatch -> str) (t : str) : str :=
  render repl (pieces pat t).

End Re.

(* ===================================================================== *)
(** * More of Python: [sorted], [min], [max], files and [print] *)
(* ===================================================================== *)

Module Builtins.

(** [sorted(l, key=key)]: stable, ascending. *)
Fixpoint insert_by {A} (key : A -> N) (x : A) (l : list A) : list A :=
  match l with
  | [] => [x]
  | y :: l' => if (key x <=? key y)%N then x :: y :: l' else y :: insert_by key x l'
  end.

Fixpoint sorted_by {A} (key : A -> N) (l : list A) : list A :=
  match l with
  | [] => []
  | x :: l' => insert_by key x (sorted_by key l')
  end.

Definition sorted (l : list N) : list N := sorted_by (fun n => n) l.

(** [min(l)] and [max(l)] of a list known to be non-empty. *)
Definition min_of (x : N) (xs : list N) : N := fold_left N.min xs x.
Definition max_of (x : N) (xs : list N) : N := fold_left N.max xs x.

(** [sep.join(l)]. *)
Fixpoint join (sep : str) (l : list str) : str :=
  match l with
  | [] => []
  | [s] => s
  | s :: l' => s ++ sep ++ join sep l'
  end.

End Builtins.

(** The script's view of the outside: files of text by path, the paths it
    may not write, and what it has printed.  A file holds the text as
    [f.write] stored it (UTF-8 and the POSIX line ending are not
    modelled); a path with no file cannot be opened for reading.  A file
    that opens but does not decode as UTF-8 has no place here: the
    properties below speak of files of text only. *)
Module Io.

Record world := World {
  files : gmap str str;
  readonly : gset str;
  stdout : list str
}.

Inductive exn :=
| OSError
| IndexError
| ValueError
| SystemExit (code : Z).

Inductive result (A : Type) :=
| Ok (a : A) (w : world)
| Raise (e : exn) (w : world).
Arguments Ok {A} a w.
Arguments Raise {A} e w.

Definition M (A : Type) := world -> result A.

Definition ret {A} (a : A) : M A := fun w => Ok a w.
Definition bind {A B} (m : M A) (k : A -> M B) : M B :=
  fun w => match m w with
           | Ok a w' => k a w'
           | Raise e w' => Raise e w'
           end.
Definition raise {A} (e : exn) : M A := fun w => Raise e w.

(** [int(s)] where it is run: the value, or [ValueError] for a string
    over the digit limit. *)
Definition int (s : str) : M N :=
  if Py.int_ok s then ret (Py.int s) else raise ValueError.

(** A loop or a comprehension that collects one value per element, in
    order, and stops at the first exception. *)
Fixpoint for_each {A B} (f : A -> M B) (l : list A) : M (list B) :=
  match l with
  | [] => ret []
  | x :: l' => bind (f x) (fun y => bind (for_each f l') (fun ys => ret (y :: ys)))
  end.

(** Reading in text mode translates every line ending to a newline. *)
Fixpoint universal_newlines (t : str) : str :=
  match t with
  | [] => []
  | c :: t' =>
      if Py.chr_eqb c 13%N then
        Py.nl :: match t' with
                 | d :: t'' => if Py.chr_eqb d Py.nl then universal_newlines t''
                               else universal_newlines t'
                 | [] => []
                 end
      else c :: universal_newlines t'
  end.

(** [with open(path, 'r', encoding='utf-8') as f: f.read()] *)
Definition read_text (path : str) : M str :=
  fun w => match files w !! path with
           | Some t => Ok (universal_newlines t) w
           | None => Raise OSError w
           end.

(** [with open(path, 'w', encoding='utf-8') as f: f.write(text)] *)
Definition write_text (path : str) (text : str) : M unit :=
  fun w => if decide (path ∈ readonly w) then Raise OSError w
           else Ok tt {| files := <[path := text]> (files w);
                         readonly := readonly w;
                         stdout := stdout w |}.

(** [print(line)] *)
Definition print (line : str) : M unit :=
  fun w => Ok tt {| files := files w; readonly := readonly w;
                    stdout := stdout w ++ [line] |}.

End Io.

Declare Scope io_scope.
Delimit Scope io_scope with io.
Notation "'let*' x ':=' m 'in' k" := (Io.bind m (fun x => k))
  (at level 10, x name, m at level 100, k at level 200) : io_scope.
Notation "'run' m 'in' k" := (Io.bind m (fun _ => k))
  (at level 10, m at level 100, k at level 200) : io_scope.

(* ===================================================================== *)
(** * [clean_gdpr_text] *)
(* ===================================================================== *)

Module Normalizer.
Import Py Re Builtins.

(** [r'\+[-+]+\+'] *)
Definition box_rule : pattern :=
  lit (txt "+") ++ [plus (any_of (txt "-+"))] ++ lit (txt "+").

(** [r'\|'] *)
Definition bar : pattern := lit (txt "|").

(** [r'[ \t]+'] *)
Definition blanks : pattern := [plus (any_of (txt " \t"))].

(** [r'^\((\d+)\)\s*'] *)
Definition recital_marker : pattern :=
  [Bol] ++ lit (txt "(") ++ [Open; plus isdecimal; Close] ++ lit (txt ")")
    ++ [star isspace].

(** [r'\n{3,}'] *)
Definition newline_run : pattern := [at_least 3 (chr_eqb nl)].

(** The five steps of the body, in order. *)

(** Remove table formatting (ASCII box characters). *)
Definition remove_boxes (text : str) : str :=
  let text := sub box_rule (fun _ => []) text in
  sub bar (fun _ => []) text.

(** Clean up excessive whitespace on each line. *)
Definition clean_line (line : str) : str :=
  strip (sub blanks (fun _ => txt " ") line).

Definition clean_lines (text : str) : str :=
  let lines := split_nl text in
  let lines := map clean_line lines in
  join_nl lines.

(** Fix recital numbering: the template [r'(\1) ']. *)
Definition fix_recitals (text : str) : str :=
  sub recital_marker (fun m => txt "(" ++ group 1 m ++ txt ") ") text.

(** [re.sub(r'\n{3,}', '\n\n', text)] *)
Definition collapse_newlines (text : str) : str :=
  sub newline_run (fun _ => txt "\n\n") text.

(** Remove empty lines at start: [text.lstrip('\n')]. *)
Definition strip_leading (text : str) : str := lstrip_by (chr_eqb nl) text.

(** The text the function writes. *)
Definition clean (text : str) : str :=
  let text := remove_boxes text in
  let text := clean_lines text in
  let text := fix_recitals text in
  let text := collapse_newlines text in
  strip_leading text.

(** Statistics. *)

(** [r'^Article (\d+)$'] *)
Definition article_pattern : pattern :=
  [Bol] ++ lit (txt "Article ") ++ [Open; plus isdecimal; Close; Eol].

(** [r'^CHAPTER ([IVX]+)$'] *)
Definition chapter_pattern : pattern :=
  [Bol] ++ lit (txt "CHAPTER ") ++ [Open; plus (any_of (txt "IVX")); Close; Eol].

(** [r'^\((\d+)\) '] *)
Definition recital_pattern : pattern :=
  [Bol] ++ lit (txt "(") ++ [Open; plus isdecimal; Close] ++ lit (txt ") ").

(** [set(int(a) for a in matches)] *)
Definition int_set (matches : list str) : gset N := list_to_set (map int matches).

(** [sorted(set(int(a) for a in matches))] *)
Definition unique_numbers (matches : list str) : list N :=
  sorted (elements (int_set matches)).

(** [f"{min(u)}-{max(u)}" if u else "none"] *)
Definition range_text (u : list N) : str :=
  match u with
  | [] => txt "none"
  | x :: xs => format_int (min_of x xs) ++ txt "-" ++ format_int (max_of x xs)
  end.

Record stats := Stats {
  total_lines : nat;
  total_chars : nat;
  chapters : nat;
  chapter_list : list str;
  articles : nat;
  article_range : str;
  recitals : nat;
  recital_range : str
}.

(** The statistics of a text as a function of the text: what the
    function returns when every conversion succeeds. *)
Definition statistics (text : str) : stats :=
  let article_matches := findall article_pattern text in
  let unique_articles := unique_numbers article_matches in
  let chapter_matches := findall chapter_pattern text in
  let recital_matches := findall recital_pattern text in
  let unique_recitals := unique_numbers recital_matches in
  {| total_lines := length (split_nl text);
     total_chars := length text;
     chapters := length chapter_matches;
     chapter_list := chapter_matches;
     articles := length unique_articles;
     article_range := range_text unique_articles;
     recitals := length unique_recitals;
     recital_range := range_text unique_recitals |}.

Local Open Scope io_scope.

(** [sorted(set(int(a) for a in matches))] where it is run. *)
Definition unique_of (matches : list str) : Io.M (list N) :=
  let* numbers := Io.for_each Io.int matches in
  Io.ret (sorted (elements (list_to_set numbers : gset N))).

(** The part of the body after the write: calculate statistics. *)
Definition calculate_statistics (text : str) : Io.M stats :=
  let article_matches := findall article_pattern text in
  let* unique_articles := unique_of article_matches in
  let chapter_matches := findall chapter_pattern text in
  let recital_matches := findall recital_pattern text in
  let* unique_recitals := unique_of recital_matches in
  Io.ret {| total_lines := length (split_nl text);
            total_chars := length text;
            chapters := length chapter_matches;
            chapter_list := chapter_matches;
            articles := length unique_articles;
            article_range := range_text unique_articles;
            recitals := length unique_recitals;
            recital_range := range_text unique_recitals |}.

Definition clean_gdpr_text (input_path output_path : str) : Io.M stats :=
  let* text := Io.read_text input_path in
  let text := clean text in
  run Io.write_text output_path text in
  calculate_statistics text.

(** Every number the statistics convert is within the digit limit. *)
Definition countable (text : str) : bool :=
  forallb int_ok (findall article_pattern text)
  && forallb int_ok (findall recital_pattern text).

End Normalizer.

(* ===================================================================== *)
(** * [generate_expected_json] *)
(* ===================================================================== *)

Module Chapter.
Record t := Make { number : str; title : str }.
End Chapter.

Module Article.
Record t := Make { number : N; title : str }.
End Article.

Module Definition_.
Record t := Make { number : N; term : str }.
End Definition_.

Module Extractor.
Import Py Re Builtins.

(** [r'^CHAPTER ([IVX]+)\n\n(.+?)(?=\n\n|$)'] *)
Definition chapter_pattern : pattern :=
  [Bol] ++ lit (txt "CHAPTER ") ++ [Open; plus (any_of (txt "IVX")); Close]
    ++ lit (txt "\n\n")
    ++ [Open; plus_lazy dot; Close; Ahead [lit (txt "\n\n"); [Eol]]].

Definition chapters (text : str) : list Chapter.t :=
  map (fun m => {| Chapter.number := group 1 m;
                   Chapter.title := strip (group 2 m) |})
      (finditer chapter_pattern text).

(** [r'^Article (\d+)\n+([^\n]+)'] *)
Definition article_pattern : pattern :=
  [Bol] ++ lit (txt "Article ")
    ++ [Open; plus isdecimal; Close; plus (chr_eqb nl);
        Open; plus (none_of (txt "\n")); Close].

(** The list [articles] after the first loop: one entry per match. *)
Definition article_matches (text : str) : list Article.t :=
  map (fun m => {| Article.number := int (group 1 m);
                   Article.title := strip (group 2 m) |})
      (finditer article_pattern text).

(** The dict [seen_articles], as its items in insertion order. *)
Definition has_key {A} (k : N) (d : list (N * A)) : bool :=
  existsb (fun kv => (fst kv =? k)%N) d.

Definition remember (seen : list (N * Article.t)) (art : Article.t)
  : list (N * Article.t) :=
  if has_key (Article.number art) seen then seen
  else seen ++ [(Article.number art, art)].

Definition seen_articles (arts : list Article.t) : list (N * Article.t) :=
  fold_left remember arts [].

(** [sorted(seen_articles.values(), key=lambda x: x['number'])] *)
Definition articles (text : str) : list Article.t :=
  sorted_by Article.number (map snd (seen_articles (article_matches text))).

(** The quote characters of the three classes of [def_pattern], as the
    source lists them: apostrophe, U+2018, U+2019, apostrophe, double
    quote, apostrophe. *)
Definition quotes : str := [39; 8216; 8217; 39; 34; 39]%N.

(** [\((\d+)\)\s*[q]([^q]+)[q]] with [q] the quote class. *)
Definition def_pattern : pattern :=
  lit (txt "(") ++ [Open; plus isdecimal; Close] ++ lit (txt ")")
    ++ [star isspace; one (any_of quotes);
        Open; plus (none_of quotes); Close; one (any_of quotes)].

Definition art4_start (text : str) : Z := find (txt "\nArticle 4\n") text.
Definition art5_start (text : str) : Z := find (txt "\nArticle 5\n") text.

Definition definitions (text : str) : list Definition_.t :=
  if negb (art4_start text =? -1)%Z && negb (art5_start text =? -1)%Z then
    let art4_content := slice text (art4_start text) (art5_start text) in
    map (fun m => {| Definition_.number := int (group 1 m);
                     Definition_.term := strip (group 2 m) |})
        (finditer def_pattern art4_content)
  else [].

Record counts := Counts {
  n_chapters : nat;
  n_articles : nat;
  n_definitions : nat
}.

Record expected := Expected {
  regulation : str;
  full_name : str;
  statistics : counts;
  e_chapters : list Chapter.t;
  e_articles : list Article.t;
  e_definitions : list Definition_.t
}.


Local Open Scope io_scope.

(** The bodies of the two loops that convert a number. *)
Definition article_of (m : rmatch) : Io.M Article.t :=
  let* article_num := Io.int (group 1 m) in
  let title := strip (group 2 m) in
  Io.ret {| Article.number := article_num; Article.title := title |}.

Definition definition_of (m : rmatch) : Io.M Definition_.t :=
  let* number := Io.int (group 1 m) in
  Io.ret {| Definition_.number := number; Definition_.term := strip (group 2 m) |}.

(** The part of the body between the read and the write: the dict
    [expected], or the [ValueError] of the first conversion that
    fails. *)
Definition build_expected (text : str) : Io.M expected :=
  let chapters := chapters text in
  let* articles := Io.for_each article_of (finditer article_pattern text) in
  let articles := sorted_by Article.number (map snd (seen_articles articles)) in
  let* definitions :=
    if negb (art4_start text =? -1)%Z && negb (art5_start text =? -1)%Z then
      let art4_content := slice text (art4_start text) (art5_start text) in
      Io.for_each definition_of (finditer def_pattern art4_content)
    else Io.ret [] in
  Io.ret {| regulation := txt "GDPR";
            full_name := txt "Regulation (EU) 2016/679";
            statistics := {| n_chapters := length chapters;
                             n_articles := length articles;
                             n_definitions := length definitions |};
            e_chapters := chapters;
            e_articles := articles;
            e_definitions := definitions |}.


Section Json.
(** [json.dumps(expected, indent=2, ensure_ascii=False)], taken as
    given. *)
Variable json_dumps : expected -> str.

Definition generate_expected_json (text_path json_path : str) : Io.M unit :=
  let* text := Io.read_text text_path in
  let* expected := build_expected text in
  Io.write_text json_path (json_dumps expected).
End Json.

End Extractor.

(* ===================================================================== *)
(** * [main] *)
(* ===================================================================== *)

Module Cli.
Import Py Builtins.

(** [sys.argv[i]] *)
Definition argv_at (argv : list str) (i : nat) : Io.M str :=
  match nth_error argv i with
  | Some a => Io.ret a
  | None => Io.raise Io.IndexError
  end.

Definition fmt_nat (n : nat) : str := format_int (N.of_nat n).

Section Main.
Variable json_dumps : Extractor.expected -> str.

Local Open Scope io_scope.

Definition main (argv : list str) : Io.M unit :=
  if (length argv <? 3)%nat then
    let* prog := argv_at argv 0 in
    run Io.print (txt "Usage: " ++ prog ++
                  txt " <input_file> <output_file> [--generate-expected <json_file>]") in
    Io.raise (Io.SystemExit 1)
  else
    let* input_path := argv_at argv 1 in
    let* output_path := argv_at argv 2 in
    run Io.print (txt "Processing " ++ input_path ++ txt "...") in
    let* stats := Normalizer.clean_gdpr_text input_path output_path in
    run Io.print (txt "\nGDPR Text Statistics:") in
    run Io.print (txt "  Total lines: " ++ fmt_nat (Normalizer.total_lines stats)) in
    run Io.print (txt "  Total characters: " ++ fmt_nat (Normalizer.total_chars stats)) in
    run Io.print (txt "  Chapters: " ++ fmt_nat (Normalizer.chapters stats) ++ txt " ("
                  ++ join (txt ", ") (Normalizer.chapter_list stats) ++ txt ")") in
    run Io.print (txt "  Articles: " ++ fmt_nat (Normalizer.articles stats)
                  ++ txt " (range: " ++ Normalizer.article_range stats ++ txt ")") in
    run Io.print (txt "  Recitals: " ++ fmt_nat (Normalizer.recitals stats)
                  ++ txt " (range: " ++ Normalizer.recital_range stats ++ txt ")") in
    run Io.print (txt "\nOutput written to " ++ output_path) in
    if (5 <=? length argv)%nat then
      let* flag := argv_at argv 3 in
      if decide (flag = txt "--generate-expected") then
        let* json_path := argv_at argv 4 in
        run Io.print (txt "\nGenerating expected output JSON...") in
        run Extractor.generate_expected_json json_dumps output_path json_path in
        Io.print (txt "Expected output written to " ++ json_path)
      else Io.ret tt
    else Io.ret tt.

(** The status the interpreter exits with: [0] when [main] returns,
    the argument of [sys.exit], and [1] for an uncaught exception. *)
Definition exit_status (r : Io.result unit) : Z :=
  match r with
  | Io.Ok _ _ => 0
  | Io.Raise (Io.SystemExit code) _ => code
  | Io.Raise _ _ => 1
  end.

Definition world_of (r : Io.result unit) : Io.world :=
  match r with
  | Io.Ok _ w => w
  | Io.Raise _ w => w
  end.
End Main.

End Cli.
(* ===================================================================== *)
(** * The vocabulary of the properties *)
(* ===================================================================== *)

(** What the statements below speak of: runs of characters, what a
    pattern matches at a place written out as a plain function, the
    shapes of lines.  Nothing here is part of the program; each notion
    is related to the program by the lemmas of the later modules. *)

Module Notions.
Import Py Re Builtins Normalizer Extractor.

(** ** Matching *)

(** The longest prefix of [t] inside a class; [lstrip_by] is the rest. *)
Fixpoint take_while (p : char -> bool) (t : str) : str :=
  match t with
  | [] => []
  | c :: t' => if p c then c :: take_while p t' else []
  end.

(** The state after consuming [m]. *)
Definition eats (m : str) (st : mstate) : mstate :=
  fold_left (fun s c => eat c s) m st.

Definition last_or (prev : option char) (m : str) : option char :=
  fold_left (fun _ c => Some c) m prev.

Section Generic.
Context {L : Type}.

(** What makes the rest of a pattern refuse a next character. *)
Variable lrej : char -> L -> bool.

Fixpoint rejects (c : char) (its : list (item L)) : bool :=
  match its with
  | [] => false
  | Rep cls lo _ _ :: its' =>
      negb (cls c) && match lo with 0 => rejects c its' | S _ => true end
  | Bol :: its' => rejects c its'
  | Eol :: its' => negb (chr_eqb c nl) || rejects c its'
  | Open :: its' => rejects c its'
  | Close :: its' => rejects c its'
  | Ahead b :: its' => lrej c b || rejects c its'
  end.

(** Patterns that need at least one more character. *)
Fixpoint rejects_end (its : list (item L)) : bool :=
  match its with
  | [] => false
  | Rep _ lo _ _ :: its' => match lo with 0 => rejects_end its' | S _ => true end
  | Bol :: its' => rejects_end its'
  | Eol :: its' => rejects_end its'
  | Open :: its' => rejects_end its'
  | Close :: its' => rejects_end its'
  | Ahead _ :: its' => rejects_end its'
  end.

End Generic.

(** The same for the two levels of patterns. *)
Definition rejects0 (c : char) (p : simple) : bool :=
  rejects (fun _ (e : Empty_set) => match e with end) c p.

Definition rejects1 (c : char) (p : pattern) : bool :=
  rejects (fun c alts => forallb (rejects0 c) alts) c p.

(** [sub] from the middle of a string: what is rendered does not depend
    on where the scan thinks it is when the template does not. *)
Definition sub_at (pat : pattern) (repl : rmatch -> str) (prev : option char)
           (t : str) : str :=
  render repl (scan pat prev 0 t 0).

Definition placeless (repl : rmatch -> str) : Prop :=
  forall p q txt caps,
    repl {| m_start := p; m_text := txt; m_caps := caps |} =
    repl {| m_start := q; m_text := txt; m_caps := caps |}.

(** ** Newline runs *)

Definition is_nl : char -> bool := chr_eqb nl.

Definition two_newlines (_ : rmatch) : str := txt "\n\n".

Definition starts_nl (t : str) : bool :=
  match t with c :: _ => is_nl c | [] => false end.

(** The replacement of one maximal run. *)
Definition collapsed (k : nat) : str :=
  if (3 <=? k)%nat then txt "\n\n" else repeat nl k.

(** Induction over a text cut into maximal runs of a class and the
    characters between them. *)
Definition starts (p : char -> bool) (t : str) : bool :=
  match t with c :: _ => p c | [] => false end.

Fixpoint ends_nl (t : str) : bool :=
  match t with
  | [] => false
  | [c] => is_nl c
  | _ :: t' => ends_nl t'
  end.


(** ** Recital markers *)

(** The template [r'(\1) ']. *)
Definition respaced (m : rmatch) : str := txt "(" ++ group 1 m ++ txt ") ".

Definition bol_after (prev : option char) : bool :=
  match prev with
  | None => true
  | Some c => chr_eqb c nl
  end.

(** What the pattern reads at a position: the digits, the whitespace
    after the closing parenthesis, and what is left. *)
Definition recital_split (t : str) : option (str * str * str) :=
  match t with
  | c :: t1 =>
      if chr_eqb 40%N c then
        if (1 <=? length (take_while isdecimal t1))%nat then
          match lstrip_by isdecimal t1 with
          | d :: t3 =>
              if chr_eqb 41%N d
              then Some (take_while isdecimal t1, take_while isspace t3,
                         lstrip_by isspace t3)
              else None
          | [] => None
          end
        else None
      else None
  | [] => None
  end.

Definition recital_match (pos : nat) (r : str * str * str) : rmatch :=
  {| m_start := pos;
     m_text := 40%N :: fst (fst r) ++ 41%N :: snd (fst r);
     m_caps := [fst (fst r)] |}.

Definition fix_at (prev : option char) (t : str) : str :=
  sub_at recital_marker respaced prev t.

(** ** Lines *)

Definition no_nl (l : str) : bool := forallb (fun c => negb (is_nl c)) l.

Definition blank : char -> bool := any_of (txt " \t").

Definition one_space (_ : rmatch) : str := txt " ".

Definition squeeze (line : str) : str := sub blanks one_space line.

(** No tab and no blank next to a blank. *)
Fixpoint tidy (t : str) : bool :=
  match t with
  | [] => true
  | c :: t' =>
      (if blank c then chr_eqb c space && negb (starts blank t') else true)
      && tidy t'
  end.



(** ** Articles *)

Definition first_with (n : N) (arts : list Article.t) : option Article.t :=
  List.find (fun a => (Article.number a =? n)%N) arts.

(** ** Chapter headings *)

Definition roman : char -> bool := any_of (txt "IVX").

(** What the pattern reads at a position: the numeral and the title. *)
Definition chapter_split (t : str) : option (str * str) :=
  if startswith (txt "CHAPTER ") t then
    let t1 := skipn (length (txt "CHAPTER ")) t in
    if (1 <=? length (take_while roman t1))%nat then
      let t2 := lstrip_by roman t1 in
      if startswith (txt "\n\n") t2 then
        let t3 := skipn (length (txt "\n\n")) t2 in
        if (1 <=? length (take_while dot t3))%nat
        then Some (take_while roman t1, take_while dot t3)
        else None
      else None
    else None
  else None.

Definition chapter_match (pos : nat) (t : str) (r : str * str) : rmatch :=
  {| m_start := pos;
     m_text := firstn (length (txt "CHAPTER ") + length (fst r)
                       + length (txt "\n\n") + length (snd r)) t;
     m_caps := [fst r; snd r] |}.

(** ** Definition occurrences *)

Definition quote : char -> bool := any_of quotes.

Definition unquote : char -> bool := none_of quotes.

Record occurrence := Occurrence {
  o_digits : str;
  o_space : str;
  o_open : char;
  o_term : str;
  o_close : char
}.

(** The text of an occurrence: the parenthesized number, whitespace, and
    the quoted term. *)
Definition occurrence_text (o : occurrence) : str :=
  txt "(" ++ o_digits o ++ txt ")" ++ o_space o ++ o_open o :: o_term o ++ [o_close o].

(** What the pattern reads at a position. *)
Definition def_split (t : str) : option occurrence :=
  if startswith (txt "(") t then
    let t1 := skipn 1 t in
    if (1 <=? length (take_while isdecimal t1))%nat then
      if startswith (txt ")") (lstrip_by isdecimal t1) then
        let t3 := skipn 1 (lstrip_by isdecimal t1) in
        match lstrip_by isspace t3 with
        | q1 :: t5 =>
            if quote q1 then
              if (1 <=? length (take_while unquote t5))%nat then
                match lstrip_by unquote t5 with
                | q2 :: _ =>
                    if quote q2
                    then Some {| o_digits := take_while isdecimal t1;
                                 o_space := take_while isspace t3;
                                 o_open := q1;
                                 o_term := take_while unquote t5;
                                 o_close := q2 |}
                    else None
                | [] => None
                end
              else None
            else None
        | [] => None
        end
      else None
    else None
  else None.

Definition def_match (pos : nat) (t : str) (o : occurrence) : rmatch :=
  {| m_start := pos;
     m_text := firstn (length (occurrence_text o)) t;
     m_caps := [o_digits o; o_term o] |}.

Definition well_formed (o : occurrence) : Prop :=
  o_digits o <> [] /\ forallb isdecimal (o_digits o) = true
  /\ forallb isspace (o_space o) = true
  /\ quote (o_open o) = true
  /\ o_term o <> [] /\ forallb unquote (o_term o) = true
  /\ quote (o_close o) = true.

(** The two boundaries, as [find] gives them. *)
Definition first_occurrence (needle text : str) (a : Z) : Prop :=
  (a = (-1)%Z /\
   forall k, k <= length text -> startswith needle (skipn k text) = false)
  \/ exists k,
       a = Z.of_nat k /\ k <= length text
       /\ startswith needle (skipn k text) = true
       /\ forall j, j < k -> startswith needle (skipn j text) = false.

Definition entry_of (o : occurrence) : Definition_.t :=
  {| Definition_.number := int (o_digits o);
     Definition_.term := strip (o_term o) |}.

(** ** Line-anchored patterns *)

(** What a pattern captures on a line taken alone, from its start. *)
Definition on_line (pat : pattern) (line : str) : option (list str) :=
  option_map m_caps (match_here pat None 0 line).

Definition captures (o : option (list str)) : list (list str) :=
  match o with Some c => [c] | None => [] end.

(** A pattern that only matches from the start of a line and that cannot
    tell what follows the end of the line. *)
Record line_anchored (pat : pattern) : Prop := {
  la_end : rejects_end pat = true;
  la_bol : forall prev pos t, bol_after prev = false -> match_here pat prev pos t = None;
  la_local : forall prev pos line rest,
      bol_after prev = true -> no_nl line = true ->
      rest = [] \/ starts_nl rest = true ->
      option_map m_caps (match_here pat prev pos (line ++ rest)) = on_line pat line
      /\ forall m, match_here pat prev pos (line ++ rest) = Some m ->
                   m_text m <> [] /\ length (m_text m) <= length line
}.

Definition article_split (t : str) : option str :=
  if startswith (txt "Article ") t then
    let t1 := skipn (length (txt "Article ")) t in
    if (1 <=? length (take_while isdecimal t1))%nat then
      if at_eol (lstrip_by isdecimal t1) then Some (take_while isdecimal t1) else None
    else None
  else None.

(** A line that is exactly [Article], a space and one or more digits. *)
Definition article_line (line : str) : option str :=
  let ds := skipn (length (txt "Article ")) line in
  if startswith (txt "Article ") line && (1 <=? length ds)%nat && forallb isdecimal ds
  then Some ds else None.

Definition opt_list {A} (o : option A) : list A :=
  match o with Some x => [x] | None => [] end.

(** A line that begins with a parenthesized run of digits and a space:
    the digits. *)
Definition recital_line (t : str) : option str :=
  if startswith (txt "(") t then
    let t1 := skipn (length (txt "(")) t in
    if (1 <=? length (take_while isdecimal t1))%nat then
      if startswith (txt ") ") (lstrip_by isdecimal t1)
      then Some (take_while isdecimal t1) else None
    else None
  else None.

End Notions.

(* ===================================================================== *)
(** * Sample texts and expected outputs *)
(* ===================================================================== *)

(** The blank lines of a text: its empty newline-delimited segments. *)
Definition blank_lines (t : str) : nat :=
  length (List.filter (fun l => match l with [] => true | _ :: _ => false end)
                      (Py.split_nl t)).

Definition sample_world : Io.world :=
  {| Io.files := {[ Py.txt "in.txt" := Py.txt "Article 1\r\n\r\n\r\n\r\nSubject  matter" ]};
     Io.readonly := ∅;
     Io.stdout := [] |}.

Definition sample_cleaned : str :=
  Normalizer.clean (Py.txt "Article 1\n\n\n\nSubject  matter").

Definition sample_after : Io.world :=
  {| Io.files := <[ Py.txt "out.txt" := sample_cleaned ]> (Io.files sample_world);
     Io.readonly := ∅;
     Io.stdout := [] |}.

Definition two_headings : str :=
  Py.txt "Article 1\nFirst title\n\nArticle 2\n\nOther\n\nArticle 1\nSecond title\n".

(** The title as the claim describes it: the text after the blank line,
    up to the next blank line or the end of the text. *)
Fixpoint until_blank_line (t : str) : str :=
  match t with
  | [] => []
  | c :: t' => if Py.startswith (Py.txt "\n\n") t then [] else c :: until_blank_line t'
  end.

(** The first line-start occurrence of a heading, in the words of the
    claim: the least offset that starts a line (the start of the text, or
    just after a newline) and at which the line is the heading. *)
Definition heading_here (heading : str) (bol : bool) (t : str) : bool :=
  bol && Py.startswith heading t && Re.at_eol (skipn (length heading) t).

Fixpoint first_heading_from (heading : str) (bol : bool) (t : str) (i : nat)
  : option nat :=
  if heading_here heading bol t then Some i
  else match t with
       | [] => None
       | c :: t' => first_heading_from heading (Py.chr_eqb c Py.nl) t' (S i)
       end.

Definition first_heading (heading text : str) : option nat :=
  first_heading_from heading true text 0.


Definition heading_on_first_line : str :=
  Py.txt "Article 5\nArticle 4\n(1) 'x'\nArticle 5\n".

(** The heading of Article 5 on the first line, before that of
    Article 4, and again after it. *)
Definition first_line_reversed : str :=
  Py.txt "Article 5\n(1) 'x'\nArticle 4\n(2) 'y'\nArticle 5\n".


(** What a run with two positional arguments prints. *)
Definition report (input_path output_path : str) (stats : Normalizer.stats)
  : list str :=
  [ Py.txt "Processing " ++ input_path ++ Py.txt "...";
    Py.txt "\nGDPR Text Statistics:";
    Py.txt "  Total lines: " ++ Cli.fmt_nat (Normalizer.total_lines stats);
    Py.txt "  Total characters: " ++ Cli.fmt_nat (Normalizer.total_chars stats);
    Py.txt "  Chapters: " ++ Cli.fmt_nat (Normalizer.chapters stats) ++ Py.txt " ("
      ++ Builtins.join (Py.txt ", ") (Normalizer.chapter_list stats) ++ Py.txt ")";
    Py.txt "  Articles: " ++ Cli.fmt_nat (Normalizer.articles stats)
      ++ Py.txt " (range: " ++ Normalizer.article_range stats ++ Py.txt ")";
    Py.txt "  Recitals: " ++ Cli.fmt_nat (Normalizer.recitals stats)
      ++ Py.txt " (range: " ++ Normalizer.recital_range stats ++ Py.txt ")";
    Py.txt "\nOutput written to " ++ output_path ].

Definition usage (prog : str) : str :=
  Py.txt "Usage: " ++ prog
  ++ Py.txt " <input_file> <output_file> [--generate-expected <json_file>]".

Definition usage_world : Io.world :=
  {| Io.files := {[ Py.txt "in.txt" := Py.txt "CHAPTER I\n\nGeneral provisions" ]};
     Io.readonly := ∅;
     Io.stdout := [] |}.

(** The path of the JSON file when the arguments after the two
    positional ones ask for it. *)
Definition json_requested (rest : list str) : option str :=
  match rest with
  | flag :: json_path :: _ =>
      if decide (flag = Py.txt "--generate-expected") then Some json_path else None
  | _ => None
  end.


(** A run that asks for the JSON file. *)
Definition cli_argv : list str :=
  [ Py.txt "prepare_gdpr.py"; Py.txt "in.txt"; Py.txt "out.txt";
    Py.txt "--generate-expected"; Py.txt "out.json" ].

Definition cli_run : Io.result unit :=
  Cli.main (fun _ => Py.txt "{}") cli_argv usage_world.


(** An article heading whose number has more digits than [int]
    converts, and a world with it as the input file. *)
Definition long_number : str := Py.txt "Article " ++ repeat 49%N 4301.

Definition long_number_world : Io.world :=
  {| Io.files := {[ Py.txt "in.txt" := long_number ]};
     Io.readonly := ∅;
     Io.stdout := [] |}.

(** The distinct article numbers: those of the lines that are exactly
    [Article], a space and digits. *)
Definition article_numbers (text : str) : gset N :=
  list_to_set
    (map Py.int
         (flat_map (fun line => Notions.opt_list (Notions.article_line line))
                   (Py.split_nl text))).

(** The distinct recital numbers: those of the lines that begin with a
    parenthesized run of digits and a space. *)
Definition recital_numbers (text : str) : gset N :=
  list_to_set
    (map Py.int
         (flat_map (fun line => Notions.opt_list (Notions.recital_line line))
                   (Py.split_nl text))).


(* ===================================================================== *)
(** * More vocabulary: outcomes, heading lines, borders, markers *)
(* ===================================================================== *)

(** What the properties of the later sections speak of, beyond the
    notions above: the worlds a run of [main] ends in, the shape of a
    heading line, patterns that stay within a line, and lines that step
    3 leaves. *)

Module Shapes.
Import Py Re Builtins Notions.

(** The progress line [main] prints before it reads anything. *)
Definition processing (input_path : str) : str :=
  txt "Processing " ++ input_path ++ txt "...".

(** The line [main] prints before it writes the JSON file. *)
Definition generating : str := txt "\nGenerating expected output JSON...".

(** A world that differs from [w] in what has been printed only. *)
Definition printed (w : Io.world) (lines : list str) : Io.world :=
  {| Io.files := Io.files w;
     Io.readonly := Io.readonly w;
     Io.stdout := Io.stdout w ++ lines |}.

(** A world that differs from [w] in its files and in what has been
    printed. *)
Definition written (w : Io.world) (files : gmap str str) (lines : list str)
  : Io.world :=
  {| Io.files := files;
     Io.readonly := Io.readonly w;
     Io.stdout := Io.stdout w ++ lines |}.


(** The shape of the two heading patterns of the statistics,
    [^word(cls+)$]: at a position, and on a whole line. *)
Definition heading_pattern (word : str) (cls : char -> bool) : pattern :=
  [Bol] ++ lit word ++ [Open; plus cls; Close; Eol].

Definition heading_split (word : str) (cls : char -> bool) (t : str) : option str :=
  if startswith word t then
    let t1 := skipn (length word) t in
    if (1 <=? length (take_while cls t1))%nat then
      if at_eol (lstrip_by cls t1) then Some (take_while cls t1) else None
    else None
  else None.

(** A line that is [word] followed by one or more characters of [cls]
    and nothing else gives those characters. *)
Definition heading_line (word : str) (cls : char -> bool) (line : str) : option str :=
  let ds := skipn (length word) line in
  if startswith word line && (1 <=? length ds)%nat && forallb cls ds
  then Some ds else None.

(** The numeral of a line that is a chapter heading and nothing else. *)
Definition chapter_line : str -> option str :=
  heading_line (txt "CHAPTER ") (any_of (txt "IVX")).

(** What the article pattern of the extractor reads at a position: the
    digits, the newlines after them and the title line. *)
Definition titled_split (t : str) : option (str * str * str) :=
  if startswith (txt "Article ") t then
    let t1 := skipn (length (txt "Article ")) t in
    if (1 <=? length (take_while isdecimal t1))%nat then
      let t2 := lstrip_by isdecimal t1 in
      if (1 <=? length (take_while is_nl t2))%nat then
        let t3 := lstrip_by is_nl t2 in
        if (1 <=? length (take_while (none_of (txt "\n")) t3))%nat
        then Some (take_while isdecimal t1, take_while is_nl t2,
                   take_while (none_of (txt "\n")) t3)
        else None
      else None
    else None
  else None.

Definition titled_match (pos : nat) (t : str) (r : str * str * str) : rmatch :=
  {| m_start := pos;
     m_text := firstn (length (txt "Article ") + length (fst (fst r))
                       + length (snd (fst r)) + length (snd r)) t;
     m_caps := [fst (fst r); snd r] |}.

(** The heading that stands at a place, with its title line: the number
    and the title as an entry of the articles list has them. *)
Definition heading_at (t : str) : option Article.t :=
  match titled_split t with
  | Some (num, _, title) =>
      Some {| Article.number := int num; Article.title := strip title |}
  | None => None
  end.

(** Every article heading of a text, in text order: one for each line
    start at which a heading stands, whatever stands before it. *)
Fixpoint headings_from (prev : option char) (t : str) : list Article.t :=
  match t with
  | [] => []
  | c :: t' =>
      (if bol_after prev then opt_list (heading_at t) else [])
        ++ headings_from (Some c) t'
  end.

Definition headings (text : str) : list Article.t := headings_from None text.




(** Two headings of Article 4, the first of them on the title line of
    the heading of Article 3. *)
Definition swallowed_heading : str :=
  txt "Article 3\n\nArticle 4\n\nOld title\n\nArticle 4\n\nDefinitions".






(** A pattern none of whose items can take a newline or look at what
    follows it. *)
Definition line_bound {L} (its : list (item L)) : bool :=
  forallb (fun it => match it with
                     | Rep cls _ _ _ => negb (cls nl)
                     | Bol | Open | Close => true
                     | Eol | Ahead _ => false
                     end) its.

(** A match attempt that stopped before a newline, with the newline and
    what follows put back. *)
Definition extend (rest : str) (p : mstate * str) : mstate * str :=
  (fst p, snd p ++ nl :: rest).

(** The characters a table border is drawn with after its first. *)
Definition dashplus : char -> bool := any_of (txt "-+").

(** Every character but the vertical bar. *)
Definition not_bar (c : char) : bool := negb (chr_eqb 124%N c).

(** The lines of a text that start at a line start, for a scan that
    comes to the text with [prev] before it: all of them, or all but the
    first. *)
Definition fresh_lines (prev : option char) (t : str) : list str :=
  if bol_after prev then split_nl t else tl (split_nl t).

(** A line that, if it begins with a parenthesized number, goes on with
    one space and then with no whitespace. *)
Definition marker_spaced (line : str) : Prop :=
  forall ds tail,
    ds <> [] -> forallb isdecimal ds = true ->
    line = 40%N :: ds ++ 41%N :: tail ->
    exists tail', tail = space :: tail' /\ starts isspace tail' = false.

End Shapes.

(* ===================================================================== *)
(** * Facts about the [re] fragment *)
(* ===================================================================== *)

Module ReFacts.
Import Py Re Notions.


Lemma take_drop p t : take_while p t ++ lstrip_by p t = t.
Proof.
  induction t as [|c t IH]; simpl; [reflexivity|].
  destruct (p c); simpl; [now rewrite IH | reflexivity].
Qed.

Lemma take_while_all p t : forallb p (take_while p t) = true.
Proof.
  induction t as [|c t IH]; simpl; [reflexivity|].
  destruct (p c) eqn:E; simpl; [now rewrite E | reflexivity].
Qed.

Lemma lstrip_by_head p t c t' : lstrip_by p t = c :: t' -> p c = false.
Proof.
  induction t as [|d t IH]; simpl; [discriminate|].
  destruct (p d) eqn:E; [exact IH|].
  intros H; injection H as -> _; exact E.
Qed.

Lemma take_while_app_stop p m t :
  forallb p m = true -> (match t with [] => True | c :: _ => p c = false end) ->
  take_while p (m ++ t) = m /\ lstrip_by p (m ++ t) = t.
Proof.
  intros Hm Ht. induction m as [|c m IH]; simpl in *.
  - destruct t as [|c t]; simpl; [auto|]. now rewrite Ht.
  - apply andb_prop in Hm as [Hc Hm]. rewrite Hc.
    destruct (IH Hm) as [-> ->]. auto.
Qed.

Lemma eats_app m1 m2 st : eats (m1 ++ m2) st = eats m2 (eats m1 st).
Proof. unfold eats. apply fold_left_app. Qed.

Lemma eats_len m st : m_len (eats m st) = m_len st + length m.
Proof.
  revert st. induction m as [|c m IH]; intros st; simpl; [lia|].
  change (m_len (eats m (eat c st)) = m_len st + S (length m)).
  rewrite IH. simpl. lia.
Qed.

Lemma eats_groups m st : m_groups (eats m st) = m_groups st.
Proof.
  revert st. induction m as [|c m IH]; intros st; simpl; [reflexivity|].
  change (m_groups (eats m (eat c st)) = m_groups st). now rewrite IH.
Qed.

Lemma eats_cur m st :
  m_cur (eats m st) = option_map (fun g => g ++ m) (m_cur st).
Proof.
  revert st. induction m as [|c m IH]; intros st; simpl.
  - destruct (m_cur st); simpl; [now rewrite app_nil_r | reflexivity].
  - change (m_cur (eats m (eat c st)) = option_map (fun g => g ++ c :: m) (m_cur st)).
    rewrite IH. simpl. destruct (m_cur st); simpl; [|reflexivity].
    now rewrite <- app_assoc.
Qed.

Lemma eats_prev m st : m_prev (eats m st) = last_or (m_prev st) m.
Proof.
  revert st. induction m as [|c m IH]; intros st; simpl; [reflexivity|].
  change (m_prev (eats m (eat c st)) = last_or (Some c) m). now rewrite IH.
Qed.

Lemma first_some_app {A B} (f : A -> option B) l1 l2 :
  first_some f (l1 ++ l2) =
  match first_some f l1 with Some y => Some y | None => first_some f l2 end.
Proof.
  induction l1 as [|x l1 IH]; simpl; [reflexivity|].
  destruct (f x); [reflexivity | exact IH].
Qed.

(** A quantified class followed by something that refuses every
    character of the class stops at the end of the run, whichever way
    the quantifier leans. *)
Lemma runs_det {B} (k : mstate * str -> option B) (cls : char -> bool)
      (greedy : bool) :
  (forall st c t, cls c = true -> k (st, c :: t) = None) ->
  forall t lo st,
    first_some k (if greedy then rev (runs cls lo None st t)
                  else runs cls lo None st t) =
    if (lo <=? length (take_while cls t))%nat
    then k (eats (take_while cls t) st, lstrip_by cls t) else None.
Proof.
  intros Hk. induction t as [|c t IH]; intros lo st.
  - simpl. destruct lo; simpl; destruct greedy; simpl;
      try reflexivity;
      match goal with |- context [k ?x] => destruct (k x) end; reflexivity.
  - simpl. destruct (cls c) eqn:Ec.
    + specialize (IH (Nat.pred lo) (eat c st)).
      change (eats (c :: take_while cls t) st)
        with (eats (take_while cls t) (eat c st)).
      assert (Hlo : (lo <=? length (c :: take_while cls t))%nat =
                    (Nat.pred lo <=? length (take_while cls t))%nat).
      { simpl. destruct lo; simpl; [|reflexivity].
        destruct (length (take_while cls t)); reflexivity. }
      rewrite Hlo. destruct greedy.
      * rewrite rev_app_distr, first_some_app, IH.
        destruct (Nat.pred lo <=? length (take_while cls t))%nat eqn:El.
        -- destruct (k (eats (take_while cls t) (eat c st), lstrip_by cls t)) eqn:Ek;
             [reflexivity|].
           destruct lo; simpl; [|reflexivity]. now rewrite Hk.
        -- destruct lo; simpl in *; [discriminate | reflexivity].
      * rewrite first_some_app.
        destruct lo; simpl.
        -- rewrite Hk by exact Ec. exact IH.
        -- exact IH.
    + destruct lo; simpl; destruct greedy; simpl; try reflexivity;
        match goal with |- context [k ?x] => destruct (k x) end; reflexivity.
Qed.

(** A single character. *)
Lemma runs_one cls st t :
  runs cls 1 (Some 1) st t =
  match t with
  | c :: t' => if cls c then [(eat c st, t')] else []
  | [] => []
  end.
Proof.
  destruct t as [|c t]; simpl; [reflexivity|].
  destruct (cls c); [|reflexivity]. destruct t; reflexivity.
Qed.

Section Generic.
Context {L : Type} (look : L -> mstate -> str -> bool).

Lemma match_one cls (its : list (item L)) st t :
  match_items look (one cls :: its) st t =
  match t with
  | c :: t' => if cls c then match_items look its (eat c st) t' else None
  | [] => None
  end.
Proof.
  unfold one. simpl match_items. rewrite runs_one.
  destruct t as [|c t]; simpl; [reflexivity|].
  destruct (cls c); simpl; [|reflexivity].
  destruct (match_items look its (eat c st) t); reflexivity.
Qed.

(** [match_items] on a literal. *)
Lemma match_lit s (its : list (item L)) st t :
  match_items look (lit s ++ its) st t =
  if startswith s t then match_items look its (eats s st) (skipn (length s) t)
  else None.
Proof.
  revert st t. induction s as [|a s IH]; intros st t.
  - simpl. destruct t; reflexivity.
  - change (lit (a :: s) ++ its) with (one (chr_eqb a) :: (lit s ++ its)).
    rewrite match_one. destruct t as [|c t]; simpl; [reflexivity|].
    unfold chr_eqb. destruct (N.eqb_spec a c) as [->|]; simpl; [|reflexivity].
    rewrite IH. reflexivity.
Qed.

(** The other items, one step each. *)
Lemma match_bol (its : list (item L)) st t :
  match_items look (Bol :: its) st t =
  if at_bol st then match_items look its st t else None.
Proof. reflexivity. Qed.

Lemma match_eol (its : list (item L)) st t :
  match_items look (Eol :: its) st t =
  if at_eol t then match_items look its st t else None.
Proof. reflexivity. Qed.

Lemma match_open (its : list (item L)) st t :
  match_items look (Open :: its) st t =
  match_items look its
    {| m_prev := m_prev st; m_len := m_len st;
       m_cur := Some []; m_groups := m_groups st |} t.
Proof. reflexivity. Qed.

Lemma match_close (its : list (item L)) st t :
  match_items look (Close :: its) st t =
  match_items look its
    {| m_prev := m_prev st; m_len := m_len st; m_cur := None;
       m_groups := m_groups st ++
                   [match m_cur st with Some g => g | None => [] end] |} t.
Proof. reflexivity. Qed.

Lemma match_ahead b (its : list (item L)) st t :
  match_items look (Ahead b :: its) st t =
  if look b st t then match_items look its st t else None.
Proof. reflexivity. Qed.

Lemma match_nil st t : match_items look [] st t = Some (st, t).
Proof. reflexivity. Qed.

(** [lrej] is sound when the lookahead it speaks for refuses the character. *)
Variable lrej : char -> L -> bool.
Hypothesis lrej_sound :
  forall c b st t, lrej c b = true -> look b st (c :: t) = false.


Lemma rejects_sound c its :
  rejects lrej c its = true ->
  forall st t, match_items look its st (c :: t) = None.
Proof.
  induction its as [|it its IH]; simpl; [discriminate|].
  destruct it as [cls lo hi g| | | | |b]; intros H st t.
  - apply andb_prop in H as [Hc Hr]. apply negb_true_iff in Hc.
    simpl. rewrite Hc. destruct lo.
    + simpl. destruct hi as [[|h]|]; simpl; destruct g; simpl;
        rewrite (IH Hr); reflexivity.
    + simpl. destruct hi as [[|h]|]; simpl; destruct g; reflexivity.
  - simpl. destruct (at_bol st); [now apply IH | reflexivity].
  - simpl. apply orb_prop in H as [H|H].
    + apply negb_true_iff in H. rewrite H. reflexivity.
    + destruct (chr_eqb c nl); [now apply IH | reflexivity].
  - simpl. now apply IH.
  - simpl. now apply IH.
  - simpl. apply orb_prop in H as [H|H].
    + now rewrite (lrej_sound _ _ H).
    + destruct (look b st (c :: t)); [now apply IH | reflexivity].
Qed.

(** A quantified class whose continuation refuses the class. *)
Lemma match_rep_det cls lo (greedy : bool) (its : list (item L)) st t :
  (forall c, cls c = true -> rejects lrej c its = true) ->
  match_items look (Rep cls lo None greedy :: its) st t =
  if (lo <=? length (take_while cls t))%nat
  then match_items look its (eats (take_while cls t) st) (lstrip_by cls t)
  else None.
Proof.
  intros H. simpl match_items.
  rewrite (runs_det (fun p => match_items look its (fst p) (snd p)) cls greedy).
  - reflexivity.
  - intros st' c t' Hc. simpl. apply rejects_sound. now apply H.
Qed.

(** A quantified class at the very end of a pattern. *)
Lemma match_rep_last cls lo st t :
  match_items look [Rep cls lo None true] st t =
  if (lo <=? length (take_while cls t))%nat
  then Some (eats (take_while cls t) st, lstrip_by cls t)
  else None.
Proof.
  revert lo st. induction t as [|c t IH]; intros lo st.
  - simpl. destruct lo; reflexivity.
  - simpl match_items in *. simpl runs. destruct (cls c) eqn:Ec.
    + rewrite rev_app_distr, first_some_app.
      specialize (IH (Nat.pred lo) (eat c st)).
      simpl take_while. rewrite Ec.
      change (eats (c :: take_while cls t) st)
        with (eats (take_while cls t) (eat c st)).
      simpl lstrip_by. rewrite Ec.
      rewrite IH. destruct lo; simpl.
      * reflexivity.
      * destruct (lo <=? length (take_while cls t))%nat; reflexivity.
    + simpl take_while. rewrite Ec. simpl lstrip_by. rewrite Ec.
      destruct lo; reflexivity.
Qed.

Lemma rejects_end_sound its :
  rejects_end its = true -> forall st, match_items look its st [] = None.
Proof.
  induction its as [|it its IH]; simpl; [discriminate|].
  destruct it as [cls lo hi g| | | | |b]; intros H st; simpl.
  - destruct lo.
    + destruct hi as [[|h]|]; simpl; destruct g; simpl; rewrite (IH H); reflexivity.
    + destruct hi as [[|h]|]; simpl; destruct g; reflexivity.
  - destruct (at_bol st); [now apply IH | reflexivity].
  - now apply IH.
  - now apply IH.
  - now apply IH.
  - destruct (look b st []); [now apply IH | reflexivity].
Qed.
End Generic.


Lemma rejects0_sound c p :
  rejects0 c p = true -> forall st t, match_simple p st (c :: t) = None.
Proof.
  unfold rejects0, match_simple. apply rejects_sound. intros ? [].
Qed.

Lemma look_rejects c alts st t :
  forallb (rejects0 c) alts = true -> look_alternatives alts st (c :: t) = false.
Proof.
  unfold look_alternatives. induction alts as [|a alts IH]; simpl; [reflexivity|].
  intros H. apply andb_prop in H as [Ha Hr].
  rewrite (rejects0_sound _ _ Ha), (IH Hr). reflexivity.
Qed.

Lemma rejects1_sound c p :
  rejects1 c p = true -> forall st t, match_pattern p st (c :: t) = None.
Proof.
  unfold rejects1, match_pattern. apply rejects_sound.
  intros c' b st t H. now apply look_rejects.
Qed.

Lemma match_pattern_rep_det cls lo (greedy : bool) (its : pattern) st t :
  (forall c, cls c = true -> rejects1 c its = true) ->
  match_pattern (Rep cls lo None greedy :: its) st t =
  if (lo <=? length (take_while cls t))%nat
  then match_pattern its (eats (take_while cls t) st) (lstrip_by cls t)
  else None.
Proof.
  intros H. unfold match_pattern.
  apply (match_rep_det look_alternatives (fun c alts => forallb (rejects0 c) alts)).
  - intros c b st' t' Hb. now apply look_rejects.
  - exact H.
Qed.

Lemma match_here_end p :
  rejects_end p = true -> forall prev pos, match_here p prev pos [] = None.
Proof.
  intros H prev pos. unfold match_here, match_pattern.
  now rewrite (rejects_end_sound look_alternatives _ H).
Qed.

Lemma match_here_rejects c p :
  rejects1 c p = true -> forall prev pos t, match_here p prev pos (c :: t) = None.
Proof.
  intros H prev pos t. unfold match_here. now rewrite (rejects1_sound _ _ H).
Qed.

Lemma match_here_not_bol (its : pattern) prev pos t :
  at_bol {| m_prev := prev; m_len := 0; m_cur := None; m_groups := [] |} = false ->
  match_here (Bol :: its) prev pos t = None.
Proof. intros H. unfold match_here, match_pattern. simpl. now rewrite H. Qed.

(** ** The scan *)

Lemma scan_skip pat m : forall prev pos t,
  scan pat prev pos (m ++ t) (length m) =
  scan pat (last_or prev m) (pos + length m) t 0.
Proof.
  induction m as [|c m IH]; intros prev pos t; simpl.
  - now rewrite Nat.add_0_r.
  - rewrite IH. f_equal. lia.
Qed.

Lemma match_here_text pat prev pos t m :
  match_here pat prev pos t = Some m ->
  m_text m = firstn (length (m_text m)) t /\ m_start m = pos.
Proof.
  unfold match_here. destruct (match_pattern _ _ _) as [[st r]|]; [|discriminate].
  intros H. injection H as <-. simpl. split; [|reflexivity].
  rewrite length_firstn.
  destruct (Nat.le_ge_cases (m_len st) (length t)) as [Hle|Hge].
  - now rewrite Nat.min_l.
  - rewrite Nat.min_r by exact Hge. rewrite !firstn_all2; auto.
Qed.

Lemma scan_miss pat prev pos c t :
  match_here pat prev pos (c :: t) = None ->
  scan pat prev pos (c :: t) 0 = Keep c :: scan pat (Some c) (S pos) t 0.
Proof. intros H. simpl. now rewrite H. Qed.

Lemma scan_hit pat prev pos t m :
  match_here pat prev pos t = Some m -> m_text m <> [] ->
  scan pat prev pos t 0 =
  Hit m :: scan pat (last_or prev (m_text m)) (pos + length (m_text m))
                (skipn (length (m_text m)) t) 0.
Proof.
  intros H Hne. destruct (match_here_text _ _ _ _ H) as [Ht _].
  destruct t as [|c t].
  - rewrite firstn_nil in Ht. contradiction.
  - simpl scan. rewrite H. f_equal.
    destruct (m_text m) as [|d w] eqn:Ew; [contradiction|].
    simpl length. simpl in Ht. injection Ht as -> Hw.
    simpl skipn.
    rewrite <- (firstn_skipn (length w) t) at 1. rewrite <- Hw.
    rewrite scan_skip. simpl. f_equal. lia.
Qed.

(** A pattern that refuses every character of [t] leaves it alone. *)
Lemma scan_nowhere pat t :
  rejects_end pat = true ->
  (forall c, In c t -> rejects1 c pat = true) ->
  forall prev pos, scan pat prev pos t 0 = map Keep t.
Proof.
  intros He. induction t as [|c t IH]; intros H prev pos.
  - simpl. now rewrite match_here_end.
  - rewrite scan_miss.
    + simpl. f_equal. apply IH. intros d Hd. apply H. now right.
    + apply match_here_rejects. apply H. now left.
Qed.

Lemma render_keep repl t : render repl (map Keep t) = t.
Proof. induction t as [|c t IH]; simpl; [reflexivity | now rewrite IH]. Qed.

Lemma sub_nowhere pat repl t :
  rejects_end pat = true ->
  (forall c, In c t -> rejects1 c pat = true) ->
  sub pat repl t = t.
Proof.
  intros He H. unfold sub, pieces. rewrite scan_nowhere by assumption.
  apply render_keep.
Qed.


Lemma match_here_pos pat prev pos pos' t :
  match_here pat prev pos' t =
  match match_here pat prev pos t with
  | Some m => Some {| m_start := pos'; m_text := m_text m; m_caps := m_caps m |}
  | None => None
  end.
Proof.
  unfold match_here. destruct (match_pattern _ _ _) as [[st r]|]; reflexivity.
Qed.

Lemma render_scan_pos pat repl :
  placeless repl ->
  forall t prev pos pos' skip,
    render repl (scan pat prev pos t skip) = render repl (scan pat prev pos' t skip).
Proof.
  intros Hr. induction t as [|c t IH]; intros prev pos pos' skip.
  - simpl. destruct skip; [|reflexivity].
    rewrite (match_here_pos pat prev pos pos').
    destruct (match_here pat prev pos []) as [[p w g]|]; simpl; [|reflexivity].
    now rewrite (Hr pos' p).
  - simpl. destruct skip as [|k]; [|apply IH].
    rewrite (match_here_pos pat prev pos pos').
    destruct (match_here pat prev pos (c :: t)) as [[p w g]|]; simpl.
    + rewrite (Hr pos' p). f_equal.
      destruct (length w); simpl; [f_equal|]; apply IH.
    + f_equal. apply IH.
Qed.

Lemma sub_is_sub_at pat repl t : sub pat repl t = sub_at pat repl None t.
Proof. reflexivity. Qed.

Lemma sub_at_nil pat repl prev :
  rejects_end pat = true -> sub_at pat repl prev [] = [].
Proof. intros H. unfold sub_at. simpl. now rewrite match_here_end. Qed.

Lemma sub_at_miss pat repl prev c t :
  placeless repl ->
  match_here pat prev 0 (c :: t) = None ->
  sub_at pat repl prev (c :: t) = c :: sub_at pat repl (Some c) t.
Proof.
  intros Hr H. unfold sub_at. rewrite scan_miss by exact H. simpl.
  f_equal. now apply render_scan_pos.
Qed.

Lemma sub_at_hit pat repl prev t m :
  placeless repl ->
  match_here pat prev 0 t = Some m -> m_text m <> [] ->
  sub_at pat repl prev t =
  repl m ++ sub_at pat repl (last_or prev (m_text m)) (skipn (length (m_text m)) t).
Proof.
  intros Hr H Hne. unfold sub_at. rewrite (scan_hit _ _ _ _ H Hne). simpl.
  f_equal. now apply render_scan_pos.
Qed.

(** A pattern that does not look behind scans the same after any
    character. *)
Lemma scan_prev pat :
  (forall p p' pos t, match_here pat p pos t = match_here pat p' pos t) ->
  forall t prev prev' pos skip,
    scan pat prev pos t skip = scan pat prev' pos t skip.
Proof.
  intros Hp. induction t as [|c t IH]; intros prev prev' pos skip; simpl.
  - now rewrite (Hp prev prev').
  - destruct skip; [|reflexivity]. now rewrite (Hp prev prev').
Qed.

(** Every match the scan reports was found at its position. *)
Lemma scan_hits_inv pat m : forall t prev pos skip,
  In m (hits (scan pat prev pos t skip)) ->
  exists pre t', t = pre ++ t' /\ m_start m = pos + length pre /\
                 match_here pat (last_or prev pre) (pos + length pre) t' = Some m.
Proof.
  induction t as [|c t IH]; intros prev pos skip H.
  - simpl in H. destruct skip; [|contradiction].
    destruct (match_here pat prev pos []) as [m'|] eqn:E; [|contradiction].
    destruct H as [<-|[]]. exists [], []. simpl. rewrite Nat.add_0_r.
    destruct (match_here_text _ _ _ _ E) as [_ ->]. auto.
  - assert (Hrec : forall k, In m (hits (scan pat (Some c) (S pos) t k)) ->
              exists pre t', c :: t = pre ++ t' /\ m_start m = pos + length pre /\
                match_here pat (last_or prev pre) (pos + length pre) t' = Some m).
    { intros k Hk. destruct (IH _ _ _ Hk) as (pre & t' & -> & Hs & Hm).
      exists (c :: pre), t'. simpl.
      replace (pos + S (length pre)) with (S pos + length pre) by lia. auto. }
    simpl in H. destruct skip as [|k]; [|now apply (Hrec k)].
    destruct (match_here pat prev pos (c :: t)) as [m'|] eqn:E.
    + simpl in H. destruct H as [<-|H].
      * exists [], (c :: t). simpl. rewrite Nat.add_0_r.
        destruct (match_here_text _ _ _ _ E) as [_ ->]. auto.
      * destruct (length (m_text m')); [simpl in H|]; now apply (Hrec _ H).
    + simpl in H. now apply (Hrec 0).
Qed.

(** Scanning [pre ++ rest] when no match attempt inside [pre] can tell
    that [rest] is there. *)
Lemma scan_app pat rest :
  rejects_end pat = true ->
  forall pre,
    (forall s1 s2 prev pos, pre = s1 ++ s2 -> s2 <> [] ->
       match_here pat prev pos (s2 ++ rest) = match_here pat prev pos s2) ->
    forall prev pos skip, skip <= length pre ->
      scan pat prev pos (pre ++ rest) skip =
      scan pat prev pos pre skip ++
      scan pat (last_or prev pre) (pos + length pre) rest 0.
Proof.
  intros He. induction pre as [|c pre IH]; intros Hloc prev pos skip Hs.
  - simpl in Hs. assert (skip = 0) as -> by lia.
    simpl. rewrite match_here_end by exact He. now rewrite Nat.add_0_r.
  - assert (Hloc' : forall s1 s2 prev pos, pre = s1 ++ s2 -> s2 <> [] ->
              match_here pat prev pos (s2 ++ rest) = match_here pat prev pos s2).
    { intros s1 s2 p q -> Hne. now apply (Hloc (c :: s1)). }
    assert (Hrec : forall k, k <= length pre ->
              scan pat (Some c) (S pos) (pre ++ rest) k =
              scan pat (Some c) (S pos) pre k ++
              scan pat (last_or prev (c :: pre)) (pos + length (c :: pre)) rest 0).
    { intros k Hk. rewrite (IH Hloc' (Some c) (S pos) k Hk). simpl.
      do 2 f_equal. lia. }
    assert (H0 := Hloc [] (c :: pre) prev pos eq_refl ltac:(discriminate)).
    simpl app in *. simpl scan at 1 2. destruct skip as [|k].
    + rewrite H0.
      destruct (match_here pat prev pos (c :: pre)) as [m|] eqn:E.
      * destruct (match_here_text _ _ _ _ E) as [Ht _].
        simpl. f_equal.
        destruct (length (m_text m)) as [|k] eqn:El.
        -- simpl. f_equal. apply Hrec. lia.
        -- apply Hrec.
           assert (length (m_text m) <= length (c :: pre)).
           { rewrite Ht. rewrite length_firstn. lia. }
           simpl in *. lia.
      * simpl. f_equal. apply Hrec. lia.
    + apply Hrec. simpl in Hs. lia.
Qed.

Lemma render_app repl ps qs :
  render repl (ps ++ qs) = render repl ps ++ render repl qs.
Proof.
  induction ps as [|[c|m] ps IH]; simpl; [reflexivity| |]; rewrite IH;
    [reflexivity | now rewrite app_assoc].
Qed.

Lemma sub_at_app pat repl rest pre prev :
  placeless repl -> rejects_end pat = true ->
  (forall s1 s2 prev pos, pre = s1 ++ s2 -> s2 <> [] ->
     match_here pat prev pos (s2 ++ rest) = match_here pat prev pos s2) ->
  sub_at pat repl prev (pre ++ rest) =
  sub_at pat repl prev pre ++ sub_at pat repl (last_or prev pre) rest.
Proof.
  intros Hr He Hloc. unfold sub_at.
  rewrite (@scan_app pat rest He pre Hloc prev 0 0) by lia.
  rewrite render_app. f_equal. now apply render_scan_pos.
Qed.

End ReFacts.

(* ===================================================================== *)
(** * Facts about the steps of [clean_gdpr_text] *)
(* ===================================================================== *)

Module NormalizerFacts.
Import Py Re ReFacts Normalizer Notions.


Lemma is_nl_true c : is_nl c = true <-> c = nl.
Proof.
  unfold is_nl, chr_eqb. split.
  - intros H. apply N.eqb_eq in H. now subst.
  - intros ->. reflexivity.
Qed.

Lemma firstn_take_while p t : firstn (length (take_while p t)) t = take_while p t.
Proof.
  rewrite <- (take_drop p t) at 2.
  rewrite firstn_app, Nat.sub_diag, firstn_all. simpl. apply app_nil_r.
Qed.

Lemma skipn_take_while p t : skipn (length (take_while p t)) t = lstrip_by p t.
Proof.
  rewrite <- (take_drop p t) at 2.
  rewrite skipn_app, Nat.sub_diag, skipn_all. reflexivity.
Qed.

Lemma take_while_repeat p c k t :
  p c = true -> (match t with [] => True | d :: _ => p d = false end) ->
  take_while p (repeat c k ++ t) = repeat c k /\ lstrip_by p (repeat c k ++ t) = t.
Proof.
  intros Hc Ht. apply take_while_app_stop; [|exact Ht].
  induction k; simpl; [reflexivity | now rewrite Hc].
Qed.

(** ** Step 4: [re.sub(r'\n{3,}', '\n\n', text)] *)


Lemma newline_run_here prev pos t :
  match_here newline_run prev pos t =
  if (3 <=? length (take_while is_nl t))%nat
  then Some {| m_start := pos; m_text := take_while is_nl t; m_caps := [] |}
  else None.
Proof.
  unfold match_here, newline_run, at_least, match_pattern.
  rewrite match_rep_last. fold is_nl.
  destruct (3 <=? length (take_while is_nl t))%nat; [|reflexivity].
  rewrite eats_len, eats_groups. simpl. now rewrite firstn_take_while.
Qed.

Lemma collapse_at prev t :
  sub_at newline_run two_newlines prev t = collapse_newlines t.
Proof.
  unfold collapse_newlines, sub, pieces, sub_at. f_equal.
  apply scan_prev. intros p p' pos u. now rewrite !newline_run_here.
Qed.

Lemma collapse_nil : collapse_newlines [] = [].
Proof. reflexivity. Qed.

Lemma collapse_cons c t :
  is_nl c = false -> collapse_newlines (c :: t) = c :: collapse_newlines t.
Proof.
  intros Hc. rewrite <- !(collapse_at None).
  rewrite sub_at_miss; [now rewrite !collapse_at | intros ? ? ? ?; reflexivity |].
  rewrite newline_run_here. simpl. now rewrite Hc.
Qed.


Lemma starts_nl_stop t :
  starts_nl t = false -> match t with [] => True | d :: _ => is_nl d = false end.
Proof. destruct t; simpl; auto. Qed.


Lemma collapse_run k t :
  starts_nl t = false ->
  collapse_newlines (repeat nl k ++ t) = collapsed k ++ collapse_newlines t.
Proof.
  intros Ht. unfold collapsed.
  destruct (take_while_repeat is_nl nl k t eq_refl (starts_nl_stop _ Ht)) as [Hrun Hrest].
  destruct (3 <=? k)%nat eqn:Ek.
  - rewrite <- !(collapse_at None).
    rewrite (@sub_at_hit newline_run two_newlines None _
               {| m_start := 0; m_text := repeat nl k; m_caps := [] |}).
    + simpl m_text. rewrite repeat_length, skipn_app, repeat_length, Nat.sub_diag.
      rewrite skipn_all2 by (rewrite repeat_length; lia).
      simpl. now rewrite !collapse_at.
    + intros ? ? ? ?; reflexivity.
    + rewrite newline_run_here, Hrun, repeat_length, Ek. reflexivity.
    + simpl. apply Nat.leb_le in Ek. destruct k; [lia | discriminate].
  - apply Nat.leb_gt in Ek.
    assert (H1 : collapse_newlines (nl :: t) = nl :: collapse_newlines t).
    { rewrite <- !(collapse_at None).
      rewrite sub_at_miss; [now rewrite !collapse_at | intros ? ? ? ?; reflexivity |].
      rewrite newline_run_here.
      destruct (take_while_repeat is_nl nl 1 t eq_refl (starts_nl_stop _ Ht)) as [E _].
      simpl repeat in E. simpl app in E. rewrite E. reflexivity. }
    destruct k as [|[|[|k]]]; try lia; simpl repeat; simpl app.
    + reflexivity.
    + exact H1.
    + rewrite <- H1. rewrite <- !(collapse_at None).
      rewrite sub_at_miss; [now rewrite !collapse_at | intros ? ? ? ?; reflexivity |].
      rewrite newline_run_here.
      destruct (take_while_repeat is_nl nl 2 t eq_refl (starts_nl_stop _ Ht)) as [E _].
      simpl repeat in E. simpl app in E. rewrite E. reflexivity.
Qed.


Lemma run_ind (p : char -> bool) (P : str -> Prop) :
  P [] ->
  (forall c t, p c = false -> P t -> P (c :: t)) ->
  (forall m t, m <> [] -> forallb p m = true -> starts p t = false ->
               P t -> P (m ++ t)) ->
  forall t, P t.
Proof.
  intros Hnil Hcons Hrun t.
  induction t as [t IH] using (induction_ltof1 _ (@length char)).
  unfold ltof in IH. destruct t as [|c t]; [exact Hnil|].
  destruct (p c) eqn:Ec.
  - rewrite <- (take_drop p (c :: t)). apply Hrun.
    + simpl. now rewrite Ec.
    + apply take_while_all.
    + destruct (lstrip_by p (c :: t)) as [|d u] eqn:Eu; [reflexivity|].
      simpl. now apply (lstrip_by_head p (c :: t) Eu).
    + apply IH. rewrite <- (take_drop p (c :: t)) at 2.
      rewrite length_app. simpl take_while. rewrite Ec. simpl. lia.
  - apply Hcons; [exact Ec|]. apply IH. simpl. lia.
Qed.

Lemma all_nl_repeat m : forallb is_nl m = true -> m = repeat nl (length m).
Proof.
  induction m as [|c m IH]; simpl; [reflexivity|].
  intros H. apply andb_prop in H as [Hc Hm]. apply is_nl_true in Hc. subst c.
  now rewrite <- IH.
Qed.


Lemma ends_nl_app m t : t <> [] -> ends_nl (m ++ t) = ends_nl t.
Proof.
  intros Ht. induction m as [|c m IH]; [reflexivity|].
  simpl app. simpl ends_nl. rewrite IH.
  destruct (m ++ t) eqn:E; [|reflexivity].
  apply app_eq_nil in E as [_ ->]. contradiction.
Qed.

Lemma ends_nl_cons c t : ends_nl (c :: t) = false -> ends_nl t = false.
Proof. destruct t; simpl; auto. Qed.

Lemma ends_nl_all m : m <> [] -> forallb is_nl m = true -> ends_nl m = true.
Proof.
  induction m as [|c m IH]; [contradiction|]. intros _ H. simpl in H.
  apply andb_prop in H as [Hc Hm]. destruct m as [|d m]; [exact Hc|].
  apply IH; [discriminate | exact Hm].
Qed.


(** A run of newlines never straddles a cut placed after a character
    that is not a newline. *)
Lemma collapse_app pre : forall rest,
  ends_nl pre = false ->
  collapse_newlines (pre ++ rest) = collapse_newlines pre ++ collapse_newlines rest.
Proof.
  induction pre as [|c t Hc IH|m t Hm Hall Ht IH] using (run_ind is_nl);
    intros rest He.
  - reflexivity.
  - simpl app. rewrite !collapse_cons by exact Hc.
    rewrite IH by (now apply ends_nl_cons in He). reflexivity.
  - destruct t as [|d t].
    + rewrite app_nil_r in He. rewrite ends_nl_all in He by assumption. discriminate.
    + rewrite ends_nl_app in He by discriminate.
      rewrite (all_nl_repeat _ Hall). rewrite <- app_assoc.
      rewrite !collapse_run by (exact Ht).
      rewrite IH by exact He. now rewrite app_assoc.
Qed.







Lemma collapsed_short k : exists j, j <= 2 /\ collapsed k = repeat nl j.
Proof.
  unfold collapsed. destruct (3 <=? k)%nat eqn:E.
  - exists 2. split; [lia | reflexivity].
  - apply Nat.leb_gt in E. exists k. split; [lia | reflexivity].
Qed.





End NormalizerFacts.

(* ===================================================================== *)
(** * Blank lines (claim C7) *)
(* ===================================================================== *)



(* ===================================================================== *)
(** * Step 3: the recital prefix *)
(* ===================================================================== *)

Module RecitalFacts.
Import Py Re ReFacts Normalizer NormalizerFacts Notions.


Lemma respaced_placeless : placeless respaced.
Proof. intros p q w caps. reflexivity. Qed.


Lemma chr_eqb_eq a b : chr_eqb a b = true -> a = b.
Proof. unfold chr_eqb. intros H. now apply N.eqb_eq in H. Qed.

Lemma chr_eqb_refl a : chr_eqb a a = true.
Proof. unfold chr_eqb. apply N.eqb_refl. Qed.

Lemma decimal_not_close c : isdecimal c = true -> chr_eqb 41%N c = false.
Proof.
  intros H. destruct (chr_eqb 41%N c) eqn:E; [|reflexivity].
  apply chr_eqb_eq in E. subst c. vm_compute in H. discriminate.
Qed.

Lemma firstn_exact {A} (a b : list A) n : n = length a -> firstn n (a ++ b) = a.
Proof.
  intros ->. rewrite firstn_app, Nat.sub_diag, firstn_all. simpl. apply app_nil_r.
Qed.

Lemma recital_marker_items :
  recital_marker =
  [Bol; one (chr_eqb 40%N); Open; plus isdecimal; Close; one (chr_eqb 41%N);
   star isspace].
Proof. reflexivity. Qed.

Lemma recital_here prev pos t :
  match_here recital_marker prev pos t =
  if bol_after prev then option_map (recital_match pos) (recital_split t) else None.
Proof.
  unfold match_here, match_pattern. rewrite recital_marker_items.
  rewrite match_bol. unfold at_bol. simpl m_prev. fold (bol_after prev).
  destruct (bol_after prev); [|reflexivity].
  rewrite match_one. destruct t as [|c t1]; [reflexivity|].
  unfold recital_split. destruct (chr_eqb 40%N c) eqn:Ec; [|reflexivity].
  apply chr_eqb_eq in Ec. subst c.
  rewrite match_open. unfold plus.
  rewrite (match_rep_det look_alternatives (fun c alts => forallb (rejects0 c) alts)).
  2:{ intros c b st t Hb. now apply look_rejects. }
  2:{ intros c Hc. simpl. now rewrite decimal_not_close. }
  destruct (1 <=? length (take_while isdecimal t1))%nat; [|reflexivity].
  rewrite match_close, match_one.
  destruct (lstrip_by isdecimal t1) as [|d t3] eqn:E3; [reflexivity|].
  destruct (chr_eqb 41%N d) eqn:Ed; [|reflexivity].
  apply chr_eqb_eq in Ed. subst d.
  unfold star. rewrite match_rep_last. simpl Nat.leb.
  unfold option_map, recital_match. simpl fst. simpl snd. f_equal.
  rewrite eats_len, eats_groups. simpl m_len. simpl m_groups.
  rewrite eats_len, eats_cur. simpl option_map. simpl m_len.
  assert (Ht : t1 = take_while isdecimal t1
                    ++ 41%N :: take_while isspace t3 ++ lstrip_by isspace t3).
  { rewrite take_drop.
    transitivity (take_while isdecimal t1 ++ lstrip_by isdecimal t1);
      [symmetry; apply take_drop | now rewrite E3]. }
  remember (take_while isdecimal t1) as ds eqn:Eds.
  remember (take_while isspace t3) as ws eqn:Ews.
  f_equal. rewrite Ht.
  replace (0 + 1 + length ds + 1 + length ws) with (S (length (ds ++ 41%N :: ws))).
  - simpl firstn. f_equal.
    change (41%N :: ws ++ lstrip_by isspace t3)
      with ((41%N :: ws) ++ lstrip_by isspace t3).
    rewrite app_assoc. apply firstn_exact. rewrite length_app. simpl. lia.
  - rewrite length_app. simpl. lia.
  - now rewrite eats_groups.
Qed.

Lemma take_while_app_inner p s rest :
  existsb (fun x => negb (p x)) s = true ->
  take_while p (s ++ rest) = take_while p s /\
  lstrip_by p (s ++ rest) = lstrip_by p s ++ rest.
Proof.
  induction s as [|c s IH]; simpl; [discriminate|].
  destruct (p c); simpl; intros H; [|auto].
  destruct (IH H) as [-> ->]. auto.
Qed.

Lemma take_while_app_starts p s rest :
  starts p rest = false -> take_while p (s ++ rest) = take_while p s.
Proof.
  intros H. induction s as [|c s IH]; simpl.
  - destruct rest as [|d rest]; [reflexivity|]. simpl in *. now rewrite H.
  - destruct (p c); [now rewrite IH | reflexivity].
Qed.

Lemma lstrip_by_app p a b :
  starts p b = false -> lstrip_by p (a ++ b) = lstrip_by p a ++ b.
Proof.
  intros H. induction a as [|x a IH]; simpl.
  - destruct b as [|d b]; [reflexivity|]. simpl in *. now rewrite H.
  - destruct (p x); [exact IH | reflexivity].
Qed.

Lemma not_all_snoc (p : char -> bool) s c :
  p c = false -> existsb (fun x => negb (p x)) (s ++ [c]) = true.
Proof.
  intros H. rewrite existsb_app. simpl. rewrite H. simpl. apply orb_true_r.
Qed.

Lemma suffix_ends_with (p s1 s2 : str) (c : char) :
  p ++ [c] = s1 ++ s2 -> s2 <> [] -> exists s2', s2 = s2' ++ [c].
Proof.
  intros E Hne. destruct (exists_last Hne) as (s2' & x & ->).
  rewrite app_assoc in E. apply app_inj_tail in E as [_ ->]. now exists s2'.
Qed.

Lemma last_or_snoc prev s c : last_or prev (s ++ [c]) = Some c.
Proof. unfold last_or. now rewrite fold_left_app. Qed.

Lemma last_or_cons prev c s : last_or prev (c :: s) = last_or (Some c) s.
Proof. reflexivity. Qed.

Lemma last_or_app prev a b : last_or prev (a ++ b) = last_or (last_or prev a) b.
Proof. unfold last_or. apply fold_left_app. Qed.

(** The pattern at a well-formed marker. *)
Lemma recital_split_marker ds ws rest :
  ds <> [] -> forallb isdecimal ds = true -> forallb isspace ws = true ->
  starts isspace rest = false ->
  recital_split (40%N :: ds ++ 41%N :: ws ++ rest) = Some (ds, ws, rest).
Proof.
  intros Hne Hds Hws Hrest. unfold recital_split. rewrite chr_eqb_refl.
  destruct (take_while_app_stop isdecimal ds (41%N :: ws ++ rest) Hds) as [E1 E2];
    [reflexivity|].
  rewrite E1, E2. rewrite chr_eqb_refl.
  assert (Hr : match rest with [] => True | d :: _ => isspace d = false end).
  { destruct rest; simpl in *; auto. }
  destruct (take_while_app_stop isspace ws rest Hws Hr) as [E3 E4].
  rewrite E3, E4.
  destruct ds; [contradiction | reflexivity].
Qed.


Lemma fix_recitals_at t : fix_recitals t = fix_at None t.
Proof. reflexivity. Qed.

Lemma fix_at_marker prev ds ws rest :
  bol_after prev = true ->
  ds <> [] -> forallb isdecimal ds = true -> forallb isspace ws = true ->
  starts isspace rest = false ->
  fix_at prev (40%N :: ds ++ 41%N :: ws ++ rest) =
  txt "(" ++ ds ++ txt ") " ++ fix_at (last_or (Some 41%N) ws) rest.
Proof.
  intros Hb Hne Hds Hws Hrest. unfold fix_at.
  rewrite (@sub_at_hit recital_marker respaced prev _ (recital_match 0 (ds, ws, rest))).
  - assert (E1 : respaced (recital_match 0 (ds, ws, rest)) = txt "(" ++ ds ++ txt ") ")
      by reflexivity.
    assert (E2 : last_or prev (m_text (recital_match 0 (ds, ws, rest))) =
                 last_or (Some 41%N) ws).
    { simpl m_text. rewrite last_or_cons, last_or_app, last_or_cons. reflexivity. }
    assert (E3 : skipn (length (m_text (recital_match 0 (ds, ws, rest))))
                       (40%N :: ds ++ 41%N :: ws ++ rest) = rest).
    { simpl m_text. simpl length. simpl skipn.
      change (41%N :: ws ++ rest) with ((41%N :: ws) ++ rest).
      rewrite app_assoc, skipn_app, Nat.sub_diag, skipn_all. reflexivity. }
    rewrite E1, E2, E3. now rewrite <- !app_assoc.
  - exact respaced_placeless.
  - rewrite recital_here, Hb, recital_split_marker by assumption. reflexivity.
  - discriminate.
Qed.

(** Whatever follows, the substitution starts with the character it
    is at. *)
Lemma fix_at_head prev c rest : exists tail, fix_at prev (c :: rest) = c :: tail.
Proof.
  unfold fix_at.
  destruct (match_here recital_marker prev 0 (c :: rest)) as [m|] eqn:E.
  - rewrite (@sub_at_hit _ _ _ _ _ respaced_placeless E).
    + rewrite recital_here in E. destruct (bol_after prev); [|discriminate].
      unfold recital_split in E. destruct (chr_eqb 40%N c) eqn:Ec; [|discriminate].
      apply chr_eqb_eq in Ec. subst c. unfold respaced. simpl. eauto.
    + rewrite recital_here in E. destruct (bol_after prev); [|discriminate].
      destruct (recital_split (c :: rest)) as [r|]; [|discriminate].
      injection E as <-. discriminate.
  - rewrite (@sub_at_miss _ _ _ _ _ respaced_placeless E). eauto.
Qed.

(** No match attempt on a text that ends a line can tell what follows
    the line break, as long as that is not whitespace. *)
Lemma recital_local s rest prev pos :
  (exists s', s = s' ++ [nl]) -> starts isspace rest = false ->
  match_here recital_marker prev pos (s ++ rest) =
  match_here recital_marker prev pos s.
Proof.
  intros (s' & ->) Hrest. rewrite !recital_here.
  destruct (bol_after prev); [|reflexivity].
  destruct s' as [|c t1]; [reflexivity|].
  simpl app. unfold recital_split.
  destruct (chr_eqb 40%N c); [|reflexivity].
  destruct (take_while_app_inner isdecimal (t1 ++ [nl]) rest) as [E1 E2].
  { now apply not_all_snoc. }
  rewrite E1, E2.
  destruct (1 <=? length (take_while isdecimal (t1 ++ [nl])))%nat; [|reflexivity].
  destruct (lstrip_by isdecimal (t1 ++ [nl])) as [|d t3] eqn:E3.
  - exfalso. pose proof (take_drop isdecimal (t1 ++ [nl])) as H.
    rewrite E3, app_nil_r in H.
    pose proof (take_while_all isdecimal (t1 ++ [nl])) as Hall.
    rewrite H in Hall. rewrite forallb_app in Hall. simpl in Hall.
    apply andb_prop in Hall as [_ Hall]. vm_compute in Hall. discriminate.
  - simpl app. cbv beta iota. destruct (chr_eqb 41%N d); [|reflexivity].
    unfold option_map, recital_match. simpl fst. simpl snd.
    now rewrite (@take_while_app_starts isspace t3 rest Hrest).
Qed.

Lemma fix_at_app pre rest prev :
  (pre = [] \/ exists p, pre = p ++ [nl]) -> starts isspace rest = false ->
  fix_at prev (pre ++ rest) = fix_at prev pre ++ fix_at (last_or prev pre) rest.
Proof.
  intros Hpre Hrest. unfold fix_at. apply sub_at_app.
  - exact respaced_placeless.
  - reflexivity.
  - intros s1 s2 q pos E Hne. apply recital_local; [|exact Hrest].
    destruct Hpre as [->|(p & ->)].
    + symmetry in E. apply app_eq_nil in E as [_ ->]. contradiction.
    + exact (suffix_ends_with _ _ _ E Hne).
Qed.

Lemma bol_after_pre prev pre :
  (pre = [] \/ exists p, pre = p ++ [nl]) -> bol_after prev = true ->
  bol_after (last_or prev pre) = true.
Proof.
  intros [->|(p & ->)] H; [exact H|]. now rewrite last_or_snoc.
Qed.

(** Steps 4 and 5 leave a newline-free tail of the text in place. *)
Lemma collapse_app_r pre : forall rest,
  starts_nl rest = false ->
  collapse_newlines (pre ++ rest) = collapse_newlines pre ++ collapse_newlines rest.
Proof.
  induction pre as [|c t Hc IH|m t Hm Hall Ht IH] using (run_ind is_nl);
    intros rest Hr.
  - reflexivity.
  - simpl app. rewrite !collapse_cons by exact Hc. now rewrite IH.
  - rewrite (all_nl_repeat _ Hall). rewrite <- app_assoc.
    rewrite !collapse_run.
    + rewrite IH by exact Hr. now rewrite app_assoc.
    + exact Ht.
    + destruct t; [exact Hr | exact Ht].
Qed.

Lemma collapse_no_nl t :
  forallb (fun c => negb (is_nl c)) t = true -> collapse_newlines t = t.
Proof.
  induction t as [|c t IH]; simpl; [reflexivity|].
  intros H. apply andb_prop in H as [Hc Ht]. apply negb_true_iff in Hc.
  rewrite collapse_cons by exact Hc. now rewrite IH.
Qed.

Lemma decimal_not_nl c : isdecimal c = true -> is_nl c = false.
Proof.
  intros H. destruct (is_nl c) eqn:E; [|reflexivity].
  apply is_nl_true in E. subst c. vm_compute in H. discriminate.
Qed.

Lemma marker_no_nl ds :
  forallb isdecimal ds = true ->
  forallb (fun c => negb (is_nl c)) (txt "(" ++ ds ++ txt ") ") = true.
Proof.
  intros H. rewrite !forallb_app. simpl forallb at 1. simpl forallb at 2.
  rewrite andb_true_r. simpl andb.
  induction ds as [|c ds IH]; [reflexivity|].
  simpl in *. apply andb_prop in H as [Hc Hds].
  rewrite (decimal_not_nl _ Hc). simpl. now apply IH.
Qed.

(** After step 3 has joined a marker and the character after it, the
    last two steps leave them together. *)
Lemma joined_after_steps (F ds tail : str) (c : char) :
  forallb isdecimal ds = true ->
  isspace c = false ->
  exists out tail',
    strip_leading
      (collapse_newlines (F ++ txt "(" ++ ds ++ txt ") " ++ c :: tail)) =
    out ++ txt "(" ++ ds ++ txt ") " ++ c :: tail'.
Proof.
  intros Hds Hc.
  assert (Hcn : is_nl c = false).
  { destruct (is_nl c) eqn:E; [|reflexivity].
    apply is_nl_true in E. subst c. discriminate Hc. }
  rewrite collapse_app_r by reflexivity.
  replace (txt "(" ++ ds ++ txt ") " ++ c :: tail)
    with (((txt "(" ++ ds ++ txt ") ") ++ [c]) ++ tail)
    by (rewrite <- !app_assoc; reflexivity).
  rewrite collapse_app.
  2:{ rewrite ends_nl_app by discriminate. exact Hcn. }
  rewrite (@collapse_no_nl ((txt "(" ++ ds ++ txt ") ") ++ [c])).
  2:{ rewrite forallb_app, (marker_no_nl _ Hds). simpl. now rewrite Hcn. }
  unfold strip_leading.
  rewrite lstrip_by_app by reflexivity.
  exists (lstrip_by (chr_eqb nl) (collapse_newlines F)),
    (collapse_newlines tail).
  rewrite <- !app_assoc. reflexivity.
Qed.

End RecitalFacts.

(* ===================================================================== *)
(** * The recital prefix (claim C9) *)
(* ===================================================================== *)

(** C9: the substitution of step 3 takes every whitespace character,
    newlines included, after a parenthesized integer that starts a line.
    With the marker at a line start ([pre] is empty or ends with a
    newline), digits [ds], whitespace [ws] and then a character [c] that
    is no whitespace, the step yields the marker, one space and [c] on
    the same line, and so does the cleaned text when steps 1 and 2 hand
    such a text to step 3; with nothing after [ws] the output of the step
    ends with the marker and a trailing space, and so does the cleaned
    text.  The last part is an instance in which the step lowers the
    number of lines where the collapse of newline runs would not. *)
Theorem recital_prefix_joins (pre ds ws rest : str) (c : char) :
  (pre = [] \/ exists p, pre = p ++ [Py.nl]) ->
  ds <> [] ->
  forallb Py.isdecimal ds = true ->
  forallb Py.isspace ws = true ->
  Py.isspace c = false ->
  (exists tail,
      Normalizer.fix_recitals
        (pre ++ Py.txt "(" ++ ds ++ Py.txt ")" ++ ws ++ c :: rest) =
      Normalizer.fix_recitals pre ++ Py.txt "(" ++ ds ++ Py.txt ") " ++ c :: tail)
  /\ Normalizer.fix_recitals (pre ++ Py.txt "(" ++ ds ++ Py.txt ")" ++ ws) =
     Normalizer.fix_recitals pre ++ Py.txt "(" ++ ds ++ Py.txt ") "
  /\ (forall raw,
        Normalizer.clean_lines (Normalizer.remove_boxes raw) =
          pre ++ Py.txt "(" ++ ds ++ Py.txt ")" ++ ws ++ c :: rest ->
        exists out tail,
          Normalizer.clean raw = out ++ Py.txt "(" ++ ds ++ Py.txt ") " ++ c :: tail)
  /\ (forall raw,
        Normalizer.clean_lines (Normalizer.remove_boxes raw) =
          pre ++ Py.txt "(" ++ ds ++ Py.txt ")" ++ ws ->
        exists out, Normalizer.clean raw = out ++ Py.txt "(" ++ ds ++ Py.txt ") ")
  /\ length (Py.split_nl (Normalizer.fix_recitals (Py.txt "(1)\nfoo"))) = 1
  /\ length (Py.split_nl (Normalizer.collapse_newlines (Py.txt "(1)\nfoo"))) = 2.
Proof.
  intros Hpre Hne Hds Hws Hc.
  assert (Hend : Normalizer.fix_recitals (pre ++ Py.txt "(" ++ ds ++ Py.txt ")" ++ ws) =
                 Normalizer.fix_recitals pre ++ Py.txt "(" ++ ds ++ Py.txt ") ").
  { rewrite !RecitalFacts.fix_recitals_at.
    change (pre ++ Py.txt "(" ++ ds ++ Py.txt ")" ++ ws)
      with (pre ++ (40%N :: ds ++ 41%N :: ws)).
    rewrite RecitalFacts.fix_at_app; [|exact Hpre|reflexivity].
    f_equal. rewrite <- (app_nil_r ws).
    rewrite RecitalFacts.fix_at_marker; try assumption; try reflexivity.
    - unfold Notions.fix_at. rewrite ReFacts.sub_at_nil by reflexivity.
      now rewrite !app_nil_r.
    - now apply RecitalFacts.bol_after_pre. }
  assert (Hjoin : exists tail,
             Normalizer.fix_recitals
               (pre ++ Py.txt "(" ++ ds ++ Py.txt ")" ++ ws ++ c :: rest) =
             Normalizer.fix_recitals pre ++ Py.txt "(" ++ ds ++ Py.txt ") " ++ c :: tail).
  { rewrite !RecitalFacts.fix_recitals_at.
    change (pre ++ Py.txt "(" ++ ds ++ Py.txt ")" ++ ws ++ c :: rest)
      with (pre ++ (40%N :: ds ++ 41%N :: ws ++ c :: rest)).
    rewrite RecitalFacts.fix_at_app; [|exact Hpre|reflexivity].
    rewrite RecitalFacts.fix_at_marker; try assumption.
    + destruct (RecitalFacts.fix_at_head (Notions.last_or (Some 41%N) ws) c rest)
        as (tail & ->).
      exists tail. now rewrite <- ?app_assoc.
    + now apply RecitalFacts.bol_after_pre. }
  split; [exact Hjoin|]. split; [exact Hend|].
  split; [|split; [|split; vm_compute; reflexivity]].
  - intros raw Hraw. destruct Hjoin as (tail & E).
    unfold Normalizer.clean. rewrite Hraw, E.
    now apply RecitalFacts.joined_after_steps.
  - intros raw Hraw. unfold Normalizer.clean. rewrite Hraw, Hend.
    rewrite RecitalFacts.collapse_app_r by reflexivity.
    rewrite (RecitalFacts.collapse_no_nl _ (RecitalFacts.marker_no_nl _ Hds)).
    unfold Normalizer.strip_leading.
    rewrite RecitalFacts.lstrip_by_app by reflexivity.
    eexists. reflexivity.
Qed.

Lemma recital_prefix_joins_witness :
  exists tail,
    Normalizer.fix_recitals
      (Py.txt "a\n" ++ Py.txt "(" ++ Py.txt "12" ++ Py.txt ")" ++ Py.txt " \n\n"
       ++ 102%N :: Py.txt "oo") =
    Normalizer.fix_recitals (Py.txt "a\n") ++ Py.txt "(" ++ Py.txt "12" ++ Py.txt ") "
    ++ 102%N :: tail.
Proof.
  refine (proj1 (@recital_prefix_joins (Py.txt "a\n") (Py.txt "12") (Py.txt " \n\n")
                   (Py.txt "oo") 102%N _ _ eq_refl eq_refl eq_refl)).
  - right. exists (Py.txt "a"). reflexivity.
  - discriminate.
Defined.

(* ===================================================================== *)
(** * Facts about lines and trimming *)
(* ===================================================================== *)

Module LineFacts.
Import Py Re ReFacts Normalizer NormalizerFacts RecitalFacts Notions.

Lemma split_nl_nonempty t : split_nl t <> [].
Proof.
  destruct t as [|c t]; simpl; [discriminate|].
  destruct (chr_eqb c nl); [discriminate|].
  destruct (split_nl t); discriminate.
Qed.

Lemma split_nl_newline t : split_nl (nl :: t) = [] :: split_nl t.
Proof. reflexivity. Qed.

Lemma split_nl_other c t :
  is_nl c = false -> split_nl (c :: t) = (c :: hd [] (split_nl t)) :: tl (split_nl t).
Proof.
  intros H. simpl. assert (E : chr_eqb c nl = false).
  { unfold is_nl, chr_eqb in *. now rewrite N.eqb_sym. }
  rewrite E. destruct (split_nl t) eqn:El; [|reflexivity].
  now destruct (split_nl_nonempty t).
Qed.

Lemma is_nl_sym c : chr_eqb c nl = is_nl c.
Proof. unfold is_nl, chr_eqb. apply N.eqb_sym. Qed.

(** A newline ends the last line of what stands before it. *)
Lemma split_nl_app a b : split_nl (a ++ nl :: b) = split_nl a ++ split_nl b.
Proof.
  induction a as [|c a IH]; [reflexivity|].
  change ((c :: a) ++ nl :: b) with (c :: (a ++ nl :: b)).
  destruct (is_nl c) eqn:Ec.
  - apply is_nl_true in Ec. subst c. rewrite !split_nl_newline, IH. reflexivity.
  - rewrite (@split_nl_other c (a ++ nl :: b) Ec), (@split_nl_other c a Ec), IH.
    pose proof (split_nl_nonempty a) as Hne.
    destruct (split_nl a); [contradiction | reflexivity].
Qed.


Lemma split_nl_line l : no_nl l = true -> split_nl l = [l].
Proof.
  induction l as [|c l IH]; [reflexivity|].
  intros H. simpl in H. apply andb_prop in H as [Hc Hl]. apply negb_true_iff in Hc.
  rewrite split_nl_other by exact Hc. now rewrite (IH Hl).
Qed.

Lemma split_nl_lines t : Forall (fun l => no_nl l = true) (split_nl t).
Proof.
  induction t as [|c t IH]; [repeat constructor|].
  destruct (is_nl c) eqn:Ec.
  - apply is_nl_true in Ec. subst c. rewrite split_nl_newline.
    constructor; [reflexivity | exact IH].
  - rewrite split_nl_other by exact Ec.
    pose proof (split_nl_nonempty t) as Hne.
    destruct (split_nl t) as [|l ls]; [contradiction|].
    inversion IH as [|? ? Hl Hls]; subst. simpl. constructor; [|exact Hls].
    simpl. now rewrite Ec.
Qed.

Lemma join_nl_cons l ls : ls <> [] -> join_nl (l :: ls) = l ++ nl :: join_nl ls.
Proof. destruct ls; [contradiction | reflexivity]. Qed.

Lemma join_split t : join_nl (split_nl t) = t.
Proof.
  induction t as [|c t IH]; [reflexivity|].
  pose proof (split_nl_nonempty t) as Hne.
  destruct (is_nl c) eqn:Ec.
  - apply is_nl_true in Ec. subst c. rewrite split_nl_newline.
    rewrite join_nl_cons by exact Hne. now rewrite IH.
  - rewrite split_nl_other by exact Ec.
    destruct (split_nl t) as [|l ls]; [contradiction|].
    simpl hd. simpl tl. rewrite <- IH. destruct ls; reflexivity.
Qed.

Lemma split_join ls :
  ls <> [] -> Forall (fun l => no_nl l = true) ls -> split_nl (join_nl ls) = ls.
Proof.
  induction ls as [|l ls IH]; [contradiction|].
  intros _ H. inversion H as [|? ? Hl Hls]; subst.
  destruct ls as [|l' ls].
  - simpl. now apply split_nl_line.
  - change (join_nl (l :: l' :: ls)) with (l ++ nl :: join_nl (l' :: ls)).
    rewrite split_nl_app, (split_nl_line _ Hl), IH; [reflexivity|discriminate|exact Hls].
Qed.

(** ** [lstrip], [rstrip], [strip] *)

Lemma lstrip_by_id p t : starts p t = false -> lstrip_by p t = t.
Proof. destruct t as [|c t]; simpl; [reflexivity|]. now intros ->. Qed.

Lemma lstrip_by_starts p t : starts p (lstrip_by p t) = false.
Proof.
  destruct (lstrip_by p t) as [|c u] eqn:E; [reflexivity|].
  simpl. exact (lstrip_by_head _ _ E).
Qed.

Lemma lstrip_by_idem p t : lstrip_by p (lstrip_by p t) = lstrip_by p t.
Proof. apply lstrip_by_id, lstrip_by_starts. Qed.

Lemma lstrip_by_suffix p t : exists ws, t = ws ++ lstrip_by p t /\ forallb p ws = true.
Proof.
  exists (take_while p t). split; [symmetry; apply take_drop | apply take_while_all].
Qed.

Lemma rstrip_by_prefix p t : exists ws, t = rstrip_by p t ++ ws /\ forallb p ws = true.
Proof.
  unfold rstrip_by. destruct (lstrip_by_suffix p (rev t)) as (ws & E & H).
  exists (rev ws). split.
  - rewrite <- rev_app_distr, <- E. symmetry. apply rev_involutive.
  - rewrite forallb_forall in *. intros x Hx. apply H. now apply in_rev.
Qed.

Lemma rstrip_by_idem p t : rstrip_by p (rstrip_by p t) = rstrip_by p t.
Proof. unfold rstrip_by. now rewrite rev_involutive, lstrip_by_idem. Qed.

Lemma rstrip_by_starts p t : starts p t = false -> starts p (rstrip_by p t) = false.
Proof.
  intros H. destruct (rstrip_by_prefix p t) as (ws & E & _).
  destruct (rstrip_by p t) as [|c u]; [reflexivity|].
  rewrite E in H. exact H.
Qed.

Lemma strip_by_idem p t : strip_by p (strip_by p t) = strip_by p t.
Proof.
  unfold strip_by.
  rewrite (lstrip_by_id p (rstrip_by p (lstrip_by p t))).
  - apply rstrip_by_idem.
  - apply rstrip_by_starts, lstrip_by_starts.
Qed.

Lemma strip_by_starts p t : starts p (strip_by p t) = false.
Proof. unfold strip_by. apply rstrip_by_starts, lstrip_by_starts. Qed.

Lemma strip_by_parts p t :
  exists a b, t = a ++ strip_by p t ++ b /\ forallb p a = true /\ forallb p b = true.
Proof.
  unfold strip_by. destruct (lstrip_by_suffix p t) as (a & Ea & Ha).
  destruct (rstrip_by_prefix p (lstrip_by p t)) as (b & Eb & Hb).
  exists a, b. split; [|auto]. now rewrite <- Eb.
Qed.

(** ** Step 2 on one line *)


Lemma clean_line_squeeze line : clean_line line = strip (squeeze line).
Proof. reflexivity. Qed.

Lemma rep_here cls lo prev pos t :
  match_here [Rep cls lo None true] prev pos t =
  if (lo <=? length (take_while cls t))%nat
  then Some {| m_start := pos; m_text := take_while cls t; m_caps := [] |}
  else None.
Proof.
  unfold match_here, match_pattern. rewrite match_rep_last.
  destruct (lo <=? length (take_while cls t))%nat; [|reflexivity].
  rewrite eats_len, eats_groups. simpl. now rewrite firstn_take_while.
Qed.

Lemma blanks_items : blanks = [Rep blank 1 None true].
Proof. reflexivity. Qed.

Lemma take_while_stop p c t : p c = false -> take_while p (c :: t) = [].
Proof. intros H. simpl. now rewrite H. Qed.

Lemma squeeze_at prev t : sub_at blanks one_space prev t = squeeze t.
Proof.
  unfold squeeze, sub, pieces, sub_at. f_equal.
  apply scan_prev. intros p p' pos u. rewrite blanks_items. now rewrite !rep_here.
Qed.

Lemma squeeze_cons c t : blank c = false -> squeeze (c :: t) = c :: squeeze t.
Proof.
  intros Hc. rewrite <- !(squeeze_at None).
  rewrite sub_at_miss; [now rewrite !squeeze_at | intros ? ? ? ?; reflexivity |].
  rewrite blanks_items, rep_here, take_while_stop by exact Hc. reflexivity.
Qed.

Lemma squeeze_run m t :
  m <> [] -> forallb blank m = true -> starts blank t = false ->
  squeeze (m ++ t) = space :: squeeze t.
Proof.
  intros Hne Hm Ht. rewrite <- !(squeeze_at None).
  assert (Hstop : match t with [] => True | d :: _ => blank d = false end).
  { destruct t; simpl in *; auto. }
  destruct (take_while_app_stop blank m t Hm Hstop) as [E1 E2].
  rewrite (@sub_at_hit blanks one_space None _
             {| m_start := 0; m_text := m; m_caps := [] |}).
  - simpl m_text. rewrite skipn_app, Nat.sub_diag, skipn_all. simpl.
    now rewrite !squeeze_at.
  - intros ? ? ? ?; reflexivity.
  - rewrite blanks_items, rep_here, E1.
    destruct m; [contradiction | reflexivity].
  - exact Hne.
Qed.


Lemma tidy_app a b : tidy (a ++ b) = true -> tidy a = true /\ tidy b = true.
Proof.
  induction a as [|c a IH]; simpl; [auto|].
  intros H. apply andb_prop in H as [Hc H]. destruct (IH H) as [Ha Hb].
  split; [|exact Hb]. rewrite Ha, andb_true_r.
  destruct (blank c); [|reflexivity].
  apply andb_prop in Hc as [-> Hs]. simpl.
  destruct a as [|d a]; [reflexivity | exact Hs].
Qed.

Lemma squeeze_starts t : starts blank t = false -> starts blank (squeeze t) = false.
Proof.
  destruct t as [|c t]; [reflexivity|]. simpl. intros Hc.
  now rewrite squeeze_cons.
Qed.

Lemma squeeze_tidy t : tidy (squeeze t) = true.
Proof.
  induction t as [|c t Hc IH|m t Hm Hall Ht IH] using (run_ind blank).
  - reflexivity.
  - rewrite squeeze_cons by exact Hc. simpl. now rewrite Hc, IH.
  - rewrite squeeze_run by assumption. simpl tidy.
    rewrite squeeze_starts by exact Ht. now rewrite IH.
Qed.



(** What a cleaned line is made of, and how it starts. *)
Lemma squeeze_chars t c : In c (squeeze t) -> In c t \/ c = space.
Proof.
  revert c. induction t as [|d t Hd IH|m t Hm Hall Ht IH] using (run_ind blank);
    intros c H.
  - contradiction.
  - rewrite squeeze_cons in H by exact Hd. destruct H as [->|H]; [left; now left|].
    destruct (IH _ H); [left; now right | now right].
  - rewrite squeeze_run in H by assumption. destruct H as [<-|H]; [now right|].
    destruct (IH _ H); [left; apply in_or_app; now right | now right].
Qed.

Lemma strip_by_chars p t c : In c (strip_by p t) -> In c t.
Proof.
  intros H. destruct (strip_by_parts p t) as (a & b & E & _). rewrite E.
  apply in_or_app. right. apply in_or_app. now left.
Qed.

Lemma clean_line_chars line c : In c (clean_line line) -> In c line \/ c = space.
Proof.
  rewrite clean_line_squeeze. intros H. apply strip_by_chars in H.
  now apply squeeze_chars.
Qed.



Lemma lstrip_all p m t : forallb p m = true -> lstrip_by p (m ++ t) = lstrip_by p t.
Proof.
  induction m as [|c m IH]; simpl; [reflexivity|]. intros H.
  apply andb_prop in H as [-> Hm]. now apply IH.
Qed.




(** ** What the later steps keep *)

Lemma collapsed_chars k c : In c (collapsed k) -> c = nl /\ 1 <= k.
Proof.
  unfold collapsed. destruct (3 <=? k)%nat eqn:E.
  - apply Nat.leb_le in E. simpl. intros [<-|[<-|[]]]; split; auto; lia.
  - intros H. apply repeat_spec in H as Hc. split; [exact Hc|].
    destruct k; [contradiction | lia].
Qed.

Lemma collapse_chars t c : In c (collapse_newlines t) -> In c t.
Proof.
  revert c. induction t as [|d t Hd IH|m t Hm Hall Ht IH] using (run_ind is_nl);
    intros c H.
  - contradiction.
  - rewrite collapse_cons in H by exact Hd. destruct H as [->|H]; [now left|].
    right. now apply IH.
  - rewrite (all_nl_repeat _ Hall) in H. rewrite collapse_run in H by exact Ht.
    apply in_app_or in H as [H|H]; apply in_or_app.
    + apply collapsed_chars in H as [-> _]. left.
      destruct m as [|x m]; [contradiction|]. simpl in Hall.
      apply andb_prop in Hall as [Hx _]. apply is_nl_true in Hx. subst x. now left.
    + right. now apply IH.
Qed.

Lemma strip_leading_chars t c : In c (strip_leading t) -> In c t.
Proof.
  unfold strip_leading. intros H.
  destruct (lstrip_by_suffix (chr_eqb nl) t) as (ws & E & _). rewrite E.
  apply in_or_app. now right.
Qed.

Lemma join_nl_chars ls c :
  In c (join_nl ls) -> c = nl \/ exists l, In l ls /\ In c l.
Proof.
  induction ls as [|l ls IH]; [contradiction|].
  destruct ls as [|l' ls].
  - simpl. intros H. right. exists l. auto.
  - change (join_nl (l :: l' :: ls)) with (l ++ nl :: join_nl (l' :: ls)).
    intros H. apply in_app_or in H as [H|[<-|H]].
    + right. exists l. split; [now left | exact H].
    + now left.
    + destruct (IH H) as [-> | (x & Hx & Hc)]; [now left|].
      right. exists x. split; [now right | exact Hc].
Qed.

Lemma split_nl_repeat k t : split_nl (repeat nl k ++ t) = repeat [] k ++ split_nl t.
Proof.
  induction k as [|k IH]; [reflexivity|].
  simpl repeat. simpl app. change (10%N) with nl. now rewrite split_nl_newline, IH.
Qed.

Lemma split_nl_hd_in t : In (hd [] (split_nl t)) (split_nl t).
Proof.
  pose proof (split_nl_nonempty t). destruct (split_nl t); [contradiction | now left].
Qed.

Lemma collapsed_repeat k : exists j, collapsed k = repeat nl j /\ j <= k /\ (1 <= k -> 1 <= j).
Proof.
  unfold collapsed. destruct (3 <=? k)%nat eqn:E.
  - apply Nat.leb_le in E. exists 2. repeat split; [lia | lia].
  - exists k. repeat split; lia.
Qed.

(** Step 4 only removes empty lines: the first line stays, and every
    later line of the result is a later line of the text. *)
Lemma collapse_lines t :
  hd [] (split_nl (collapse_newlines t)) = hd [] (split_nl t) /\
  incl (tl (split_nl (collapse_newlines t))) (tl (split_nl t)).
Proof.
  induction t as [|d t Hd [IH1 IH2]|m t Hm Hall Ht [IH1 IH2]] using (run_ind is_nl).
  - split; [reflexivity | intros x []].
  - rewrite collapse_cons by exact Hd. rewrite !split_nl_other by exact Hd.
    simpl. rewrite IH1. auto.
  - rewrite (all_nl_repeat _ Hall). rewrite collapse_run by exact Ht.
    destruct (collapsed_repeat (length m)) as (j & -> & Hj & Hj1).
    rewrite !split_nl_repeat.
    assert (Hk : 1 <= length m) by (destruct m; [contradiction | simpl; lia]).
    specialize (Hj1 Hk).
    destruct j as [|j]; [lia|]. destruct (length m) as [|k]; [lia|].
    simpl. split; [reflexivity|].
    intros x Hx. apply in_app_or in Hx as [Hx|Hx]; apply in_or_app.
    + pose proof (repeat_spec _ _ _ Hx) as Ex. subst x.
      destruct j as [|j]; [contradiction|]. destruct k as [|k]; [lia|].
      left. now left.
    + right. pose proof (split_nl_nonempty (collapse_newlines t)) as Hne.
      pose proof (split_nl_hd_in t) as Hin.
      destruct (split_nl (collapse_newlines t)) as [|l ls]; [contradiction|].
      simpl in *. destruct Hx as [<-|Hx].
      * rewrite IH1. exact Hin.
      * pose proof (split_nl_nonempty t) as Hne'.
        destruct (split_nl t) as [|l' ls']; [contradiction|].
        right. now apply IH2.
Qed.

Lemma collapse_lines_incl t : incl (split_nl (collapse_newlines t)) (split_nl t).
Proof.
  destruct (collapse_lines t) as [H1 H2].
  pose proof (split_nl_nonempty (collapse_newlines t)) as Hne.
  pose proof (split_nl_nonempty t) as Hne'.
  destruct (split_nl (collapse_newlines t)) as [|l ls]; [contradiction|].
  destruct (split_nl t) as [|l' ls']; [contradiction|].
  simpl in *. subst l'. intros x [<-|Hx]; [now left | right; now apply H2].
Qed.

Lemma strip_leading_lines_incl t : incl (split_nl (strip_leading t)) (split_nl t).
Proof.
  unfold strip_leading. induction t as [|c t IH]; [apply incl_refl|].
  simpl lstrip_by. destruct (chr_eqb nl c) eqn:Ec; [|apply incl_refl].
  apply chr_eqb_eq in Ec. subst c. rewrite split_nl_newline.
  now apply incl_tl.
Qed.

(** ** When the regex steps change nothing *)

Lemma remove_boxes_id t :
  (forall c, In c t -> ~ In c (txt "+|")) -> remove_boxes t = t.
Proof.
  intros H. unfold remove_boxes.
  assert (E : sub box_rule (fun _ : rmatch => []) t = t).
  { apply sub_nowhere; [reflexivity|]. intros c Hc.
    change (rejects1 c box_rule) with (negb (chr_eqb 43%N c) && true).
    rewrite andb_true_r. apply negb_true_iff.
    destruct (chr_eqb 43%N c) eqn:E; [|reflexivity].
    apply chr_eqb_eq in E. subst c. exfalso. apply (H _ Hc). now left. }
  rewrite E. apply sub_nowhere; [reflexivity|]. intros c Hc.
  change (rejects1 c bar) with (negb (chr_eqb 124%N c) && true).
  rewrite andb_true_r. apply negb_true_iff.
  destruct (chr_eqb 124%N c) eqn:E'; [|reflexivity].
  apply chr_eqb_eq in E'. subst c. exfalso. apply (H _ Hc). right. now left.
Qed.





Lemma join_nl_in ls l c : In l ls -> In c l -> In c (join_nl ls).
Proof.
  induction ls as [|x ls IH]; [contradiction|]. intros Hl Hc.
  destruct ls as [|y ls].
  - destruct Hl as [->|[]]. exact Hc.
  - change (join_nl (x :: y :: ls)) with (x ++ nl :: join_nl (y :: ls)).
    apply in_or_app. destruct Hl as [->|Hl]; [now left|].
    right. right. now apply IH.
Qed.

Lemma split_nl_chars t l c : In l (split_nl t) -> In c l -> In c t.
Proof. intros Hl Hc. rewrite <- (join_split t). now apply (join_nl_in _ l). Qed.

Lemma no_nl_spec l : no_nl l = true <-> ~ In nl l.
Proof.
  unfold no_nl. rewrite forallb_forall. split.
  - intros H Hin. specialize (H _ Hin). now rewrite (proj2 (is_nl_true nl) eq_refl) in H.
  - intros H c Hc. apply negb_true_iff. destruct (is_nl c) eqn:E; [|reflexivity].
    apply is_nl_true in E. subst c. contradiction.
Qed.

Lemma clean_line_no_nl l : no_nl l = true -> no_nl (clean_line l) = true.
Proof.
  rewrite !no_nl_spec. intros H Hin.
  apply clean_line_chars in Hin as [Hin|Hin]; [contradiction | discriminate].
Qed.

(** The lines of the text after step 2. *)
Lemma clean_lines_lines t : split_nl (clean_lines t) = map clean_line (split_nl t).
Proof.
  unfold clean_lines. apply split_join.
  - pose proof (split_nl_nonempty t). destruct (split_nl t); [contradiction | discriminate].
  - pose proof (split_nl_lines t) as H. induction H as [|l ls Hl _ IH]; simpl; constructor.
    + now apply clean_line_no_nl.
    + exact IH.
Qed.








End LineFacts.

(* ===================================================================== *)
(** * Idempotence (claim C3) *)
(* ===================================================================== *)


(** The other step that is not idempotent: removing the bars can bring
    the pieces of a border together, which the next pass then removes. *)
Lemma clean_twice_differs_on_boxes :
  Normalizer.clean (Py.txt "+|-+") = Py.txt "+-+"
  /\ Normalizer.clean (Normalizer.clean (Py.txt "+|-+")) = [].
Proof. split; vm_compute; reflexivity. Qed.



(* ===================================================================== *)
(** * Statistics *)
(* ===================================================================== *)

Module StatsFacts.
Import Py Builtins Normalizer Notions.

Lemma insert_by_perm {A} (key : A -> N) (x : A) l :
  Permutation (insert_by key x l) (x :: l).
Proof.
  induction l as [|y l IH]; simpl; [reflexivity|].
  destruct (key x <=? key y)%N; [reflexivity|].
  rewrite IH. apply perm_swap.
Qed.

Lemma sorted_by_perm {A} (key : A -> N) (l : list A) :
  Permutation (sorted_by key l) l.
Proof.
  induction l as [|x l IH]; simpl; [reflexivity|].
  rewrite insert_by_perm. now constructor.
Qed.

Lemma min_of_spec xs : forall x,
  In (min_of x xs) (x :: xs) /\ forall n, In n (x :: xs) -> (min_of x xs <= n)%N.
Proof.
  unfold min_of. induction xs as [|y xs IH]; intros x; simpl.
  - split; [now left|]. intros n [<-|[]]. lia.
  - destruct (IH (N.min x y)) as [Hin Hle]. split.
    + destruct Hin as [E|Hin]; [|right; now right].
      rewrite <- E. destruct (N.min_spec x y) as [[_ ->]|[_ ->]]; [now left | right; now left].
    + intros n [<-|[<-|Hn]].
      * etransitivity; [apply Hle; now left | apply N.le_min_l].
      * etransitivity; [apply Hle; now left | apply N.le_min_r].
      * apply Hle. now right.
Qed.

Lemma max_of_spec xs : forall x,
  In (max_of x xs) (x :: xs) /\ forall n, In n (x :: xs) -> (n <= max_of x xs)%N.
Proof.
  unfold max_of. induction xs as [|y xs IH]; intros x; simpl.
  - split; [now left|]. intros n [<-|[]]. lia.
  - destruct (IH (N.max x y)) as [Hin Hle]. split.
    + destruct Hin as [E|Hin]; [|right; now right].
      rewrite <- E. destruct (N.max_spec x y) as [[_ ->]|[_ ->]]; [right; now left | now left].
    + intros n [<-|[<-|Hn]].
      * etransitivity; [apply N.le_max_l | apply Hle; now left].
      * etransitivity; [apply N.le_max_r | apply Hle; now left].
      * apply Hle. now right.
Qed.

Lemma unique_numbers_in matches n :
  In n (unique_numbers matches) <-> n ∈ int_set matches.
Proof.
  unfold unique_numbers, sorted. rewrite <- elem_of_elements, list_elem_of_In.
  split; apply Permutation_in; [|symmetry]; apply sorted_by_perm.
Qed.

Lemma unique_numbers_nil matches :
  unique_numbers matches = [] <-> int_set matches = ∅.
Proof.
  split.
  - intros E. apply set_eq. intros n. rewrite <- unique_numbers_in, E.
    split; [intros [] | intros H; now apply not_elem_of_empty in H].
  - intros E. destruct (unique_numbers matches) as [|x xs] eqn:Eu; [reflexivity|].
    assert (H : x ∈ int_set matches)
      by (apply unique_numbers_in; rewrite Eu; now left).
    rewrite E in H. now apply not_elem_of_empty in H.
Qed.

(** A formatted integer starts with a digit. *)
Lemma format_int_head n :
  exists c rest, format_int n = c :: rest /\ (48 <= c <= 57)%N.
Proof.
  unfold format_int.
  assert (H : N.to_uint n <> Decimal.Nil).
  { destruct n; simpl; [discriminate | apply DecimalPos.Unsigned.to_uint_nonnil]. }
  destruct (N.to_uint n); [contradiction| | | | | | | | | |];
    simpl; eexists; eexists; (split; [reflexivity | lia]).
Qed.

Lemma range_text_none u : range_text u = txt "none" <-> u = [].
Proof.
  split; [|now intros ->].
  destruct u as [|x xs]; [reflexivity|]. simpl. intros H.
  destruct (format_int_head (min_of x xs)) as (c & rest & E & Hc).
  rewrite E in H. injection H as -> _. lia.
Qed.

(** The range law for one kind of number. *)
Lemma range_text_law matches :
  (range_text (unique_numbers matches) = txt "none" <-> int_set matches = ∅)
  /\ (int_set matches <> ∅ ->
      exists lo hi,
        lo ∈ int_set matches /\ hi ∈ int_set matches
        /\ (forall n, n ∈ int_set matches -> (lo <= n <= hi)%N)
        /\ range_text (unique_numbers matches) =
           format_int lo ++ txt "-" ++ format_int hi).
Proof.
  split.
  - rewrite range_text_none. apply unique_numbers_nil.
  - intros Hne. destruct (unique_numbers matches) as [|x xs] eqn:Eu.
    + now apply unique_numbers_nil in Eu.
    + destruct (min_of_spec xs x) as [Hmin Hlow].
      destruct (max_of_spec xs x) as [Hmax Hhigh].
      exists (min_of x xs), (max_of x xs). rewrite <- Eu in Hmin, Hmax.
      repeat split.
      * now apply unique_numbers_in.
      * now apply unique_numbers_in.
      * apply Hlow. rewrite <- Eu. now apply unique_numbers_in.
      * apply Hhigh. rewrite <- Eu. now apply unique_numbers_in.
Qed.

End StatsFacts.

(* ===================================================================== *)
(** * Conversions that can fail *)
(* ===================================================================== *)

(** The only exception of the two computations is the [ValueError] of a
    number over the digit limit; without it they give the values of
    [statistics] and [extract], and they leave the world alone. *)
Module ConversionFacts.
Import Py Re Builtins.


Lemma for_each_int (l : list str) w :
  Io.for_each Io.int l w =
  if forallb int_ok l then Io.Ok (map int l) w else Io.Raise Io.ValueError w.
Proof.
  induction l as [|x l IH]; [reflexivity|].
  cbn [Io.for_each forallb map]. unfold Io.bind at 1. unfold Io.int at 1.
  destruct (int_ok x); [|reflexivity].
  cbn [andb]. unfold Io.ret at 1. unfold Io.bind at 1. rewrite IH.
  destruct (forallb int_ok l); reflexivity.
Qed.

Lemma unique_of_eq (matches : list str) w :
  Normalizer.unique_of matches w =
  if forallb int_ok matches then Io.Ok (Normalizer.unique_numbers matches) w
  else Io.Raise Io.ValueError w.
Proof.
  unfold Normalizer.unique_of, Io.bind. rewrite for_each_int.
  destruct (forallb int_ok matches); reflexivity.
Qed.

Lemma calculate_statistics_eq (text : str) w :
  Normalizer.calculate_statistics text w =
  if Normalizer.countable text then Io.Ok (Normalizer.statistics text) w
  else Io.Raise Io.ValueError w.
Proof.
  unfold Normalizer.calculate_statistics, Normalizer.countable, Io.bind.
  rewrite unique_of_eq.
  destruct (forallb int_ok (findall Normalizer.article_pattern text)); [|reflexivity].
  rewrite unique_of_eq.
  destruct (forallb int_ok (findall Normalizer.recital_pattern text)); reflexivity.
Qed.


(** The two stages as a whole. *)
Lemma clean_gdpr_text_eq (input_path output_path : str) (w : Io.world) :
  Normalizer.clean_gdpr_text input_path output_path w =
  match Io.files w !! input_path with
  | None => Io.Raise Io.OSError w
  | Some raw =>
      let text := Normalizer.clean (Io.universal_newlines raw) in
      if decide (output_path ∈ Io.readonly w) then Io.Raise Io.OSError w
      else
        let w' := {| Io.files := <[output_path := text]> (Io.files w);
                     Io.readonly := Io.readonly w;
                     Io.stdout := Io.stdout w |} in
        if Normalizer.countable text then Io.Ok (Normalizer.statistics text) w'
        else Io.Raise Io.ValueError w'
  end.
Proof.
  unfold Normalizer.clean_gdpr_text, Io.bind, Io.read_text, Io.write_text.
  destruct (Io.files w !! input_path) as [raw|]; [|reflexivity].
  cbv zeta.
  destruct (decide (output_path ∈ Io.readonly w)); [reflexivity|].
  apply calculate_statistics_eq.
Qed.


End ConversionFacts.

(* ===================================================================== *)
(** * The counts (claim C6) *)
(* ===================================================================== *)

(** The number of segments is one more than the number of newlines. *)
Lemma length_split_nl t :
  length (Py.split_nl t) = S (count_occ N.eq_dec t Py.nl).
Proof.
  induction t as [|c t IH]; [reflexivity|].
  destruct (Notions.is_nl c) eqn:Ec.
  - apply NormalizerFacts.is_nl_true in Ec. subst c.
    rewrite LineFacts.split_nl_newline. simpl length. rewrite IH.
    rewrite count_occ_cons_eq by reflexivity. reflexivity.
  - rewrite LineFacts.split_nl_other by exact Ec. simpl length.
    rewrite count_occ_cons_neq.
    + rewrite <- IH. pose proof (LineFacts.split_nl_nonempty t).
      destruct (Py.split_nl t); [contradiction | reflexivity].
    + intros ->. now rewrite (proj2 (NormalizerFacts.is_nl_true Py.nl) eq_refl) in Ec.
Qed.

(** C6: when [clean_gdpr_text] returns, the output file holds the cleaned
    text, [total_chars] is the length of that text and [total_lines] the
    number of its newline-delimited segments (one more than its
    newlines); and it does return, with the statistics of the text it
    wrote, whenever the input can be read, the output written and no
    article or recital number of the written text is over the digit
    limit of [int]. *)
Theorem counts_match_output (input_path output_path : str) (w : Io.world) :
  (forall stats w',
      Normalizer.clean_gdpr_text input_path output_path w = Io.Ok stats w' ->
      exists written,
        Io.files w' !! output_path = Some written
        /\ Normalizer.total_chars stats = length written
        /\ Normalizer.total_lines stats = length (Py.split_nl written)
        /\ Normalizer.total_lines stats = S (count_occ N.eq_dec written Py.nl))
  /\ (forall raw,
        Io.files w !! input_path = Some raw ->
        output_path ∉ Io.readonly w ->
        Normalizer.countable (Normalizer.clean (Io.universal_newlines raw)) = true ->
        let text := Normalizer.clean (Io.universal_newlines raw) in
        Normalizer.clean_gdpr_text input_path output_path w =
        Io.Ok (Normalizer.statistics text)
              {| Io.files := <[output_path := text]> (Io.files w);
                 Io.readonly := Io.readonly w;
                 Io.stdout := Io.stdout w |}).
Proof.
  rewrite ConversionFacts.clean_gdpr_text_eq.
  split.
  - intros stats w'.
    destruct (Io.files w !! input_path) as [raw|]; [|discriminate].
    cbv zeta.
    destruct (decide (output_path ∈ Io.readonly w)); [discriminate|].
    destruct (Normalizer.countable (Normalizer.clean (Io.universal_newlines raw)));
      [|discriminate].
    intros H. injection H as <- <-.
    exists (Normalizer.clean (Io.universal_newlines raw)). simpl.
    rewrite lookup_insert_eq. repeat split. apply length_split_nl.
  - intros raw -> Hw Hc. cbv zeta.
    destruct (decide (output_path ∈ Io.readonly w)); [contradiction|].
    rewrite Hc. reflexivity.
Qed.

Lemma counts_match_output_witness :
  exists written,
    Io.files sample_after !! Py.txt "out.txt" = Some written
    /\ Normalizer.total_chars (Normalizer.statistics sample_cleaned) = length written
    /\ Normalizer.total_lines (Normalizer.statistics sample_cleaned) =
       length (Py.split_nl written)
    /\ Normalizer.total_lines (Normalizer.statistics sample_cleaned) =
       S (count_occ N.eq_dec written Py.nl).
Proof.
  exact (proj1 (@counts_match_output (Py.txt "in.txt") (Py.txt "out.txt") sample_world)
               (Normalizer.statistics sample_cleaned) sample_after eq_refl).
Defined.

(* ===================================================================== *)
(** * Articles: first heading wins, sorted by number *)
(* ===================================================================== *)

Module ArticleFacts.
Import Py Builtins Extractor Notions.

Lemma has_key_spec {A} k (d : list (N * A)) :
  has_key k d = true <-> In k (map fst d).
Proof.
  unfold has_key. rewrite existsb_exists. split.
  - intros ([k' a] & Hin & E). simpl in E. apply N.eqb_eq in E. subst k'.
    apply in_map_iff. now exists (k, a).
  - intros H. apply in_map_iff in H as ([k' a] & E & Hin). simpl in E. subst k'.
    exists (k, a). split; [exact Hin | apply N.eqb_refl].
Qed.


(** The dict after the loop over [arts], started from [seen]. *)
Lemma remember_fold arts : forall seen,
  List.NoDup (map fst seen) ->
  List.NoDup (map fst (fold_left remember arts seen))
  /\ forall k a,
       In (k, a) (fold_left remember arts seen) <->
       In (k, a) seen \/ (has_key k seen = false /\ first_with k arts = Some a).
Proof.
  induction arts as [|x arts IH]; intros seen Hnd.
  - simpl. split; [exact Hnd|]. intros k a. split; [now left|].
    intros [H|[_ H]]; [exact H | discriminate].
  - change (fold_left remember (x :: arts) seen)
      with (fold_left remember arts (remember seen x)).
    unfold remember at 2 4.
    destruct (has_key (Article.number x) seen) eqn:Ex.
    + destruct (IH seen Hnd) as [H1 H2]. split; [exact H1|].
      intros k a. rewrite (H2 k a). unfold first_with. simpl.
      destruct (N.eqb_spec (Article.number x) k) as [<-|Hne]; [|reflexivity].
      rewrite Ex. split; (intros [H|[H _]]; [now left | discriminate]).
    + assert (Hnd' : List.NoDup (map fst (seen ++ [(Article.number x, x)]))).
      { rewrite map_app. simpl. apply List.NoDup_app.
        - exact Hnd.
        - constructor; [intros [] | constructor].
        - intros k Hk [<-|[]].
          apply has_key_spec in Hk. congruence. }
      destruct (IH _ Hnd') as [H1 H2]. split; [exact H1|].
      intros k a. rewrite (H2 k a). unfold first_with. simpl.
      rewrite in_app_iff. simpl.
      assert (Hk : has_key k (seen ++ [(Article.number x, x)]) =
                   has_key k seen || (Article.number x =? k)%N).
      { unfold has_key. rewrite existsb_app. simpl. now rewrite orb_false_r. }
      rewrite Hk.
      destruct (N.eqb_spec (Article.number x) k) as [<-|Hne].
      * rewrite orb_true_r. rewrite Ex. split.
        -- intros [[H|[H|[]]]|[H _]]; [now left | | discriminate].
           injection H as <-. right. auto.
        -- intros [H|[_ H]]; [left; now left|]. injection H as <-.
           left. right. now left.
      * rewrite orb_false_r. split.
        -- intros [[H|[H|[]]]|H]; [now left | | now right].
           injection H as E _. contradiction.
        -- intros [H|H]; [left; now left | now right].
Qed.

Lemma seen_articles_spec arts :
  List.NoDup (map fst (seen_articles arts))
  /\ forall k a, In (k, a) (seen_articles arts) <-> first_with k arts = Some a.
Proof.
  destruct (remember_fold arts [] (List.NoDup_nil _)) as [H1 H2]. split; [exact H1|].
  intros k a. unfold seen_articles. rewrite H2. simpl. split.
  - intros [[]|[_ H]]. exact H.
  - intros H. right. auto.
Qed.

Lemma first_with_number k arts a : first_with k arts = Some a -> Article.number a = k.
Proof.
  unfold first_with. intros H. apply find_some in H as [_ H]. now apply N.eqb_eq in H.
Qed.

Lemma first_with_in k arts a : first_with k arts = Some a -> In a arts.
Proof. unfold first_with. intros H. now apply find_some in H as [H _]. Qed.


(** The values of the dict: one per number, each the first match. *)
Lemma seen_values arts :
  List.NoDup (map Article.number (map snd (seen_articles arts)))
  /\ forall a, In a (map snd (seen_articles arts)) <->
               first_with (Article.number a) arts = Some a.
Proof.
  destruct (seen_articles_spec arts) as [Hnd Hin].
  assert (Hkeys : map Article.number (map snd (seen_articles arts)) =
                  map fst (seen_articles arts)).
  { rewrite map_map. apply map_ext_in. intros [k a] Hka. simpl.
    apply Hin in Hka. now apply first_with_number in Hka. }
  split; [now rewrite Hkeys|].
  intros a. split.
  - intros H. apply in_map_iff in H as ([k a'] & E & Hka). simpl in E. subst a'.
    apply Hin in Hka as Hf. now rewrite (first_with_number _ _ Hf).
  - intros H. apply in_map_iff. exists (Article.number a, a). split; [reflexivity|].
    now apply Hin.
Qed.





End ArticleFacts.

(* ===================================================================== *)
(** * Deduplication of articles (claim C2) *)
(* ===================================================================== *)


Example two_headings_matches :
  Extractor.article_matches two_headings =
  [ {| Article.number := 1; Article.title := Py.txt "First title" |};
    {| Article.number := 2; Article.title := Py.txt "Other" |};
    {| Article.number := 1; Article.title := Py.txt "Second title" |} ].
Proof. vm_compute. reflexivity. Qed.

Example two_headings_articles :
  Extractor.articles two_headings =
  [ {| Article.number := 1; Article.title := Py.txt "First title" |};
    {| Article.number := 2; Article.title := Py.txt "Other" |} ].
Proof. vm_compute. reflexivity. Qed.

(* ===================================================================== *)
(** * Chapters *)
(* ===================================================================== *)

Module ChapterFacts.
Import Py Re ReFacts NormalizerFacts RecitalFacts Extractor Notions.


Lemma chapter_pattern_items :
  chapter_pattern =
  Bol :: lit (txt "CHAPTER ")
      ++ Open :: Rep roman 1 None true :: Close :: lit (txt "\n\n")
      ++ [Open; Rep dot 1 None false; Close; Ahead [lit (txt "\n\n"); [Eol]]].
Proof. reflexivity. Qed.

Lemma startswith_spec s t : startswith s t = true -> t = s ++ skipn (length s) t.
Proof.
  revert t. induction s as [|a s IH]; intros t H; [reflexivity|].
  destruct t as [|b t]; [discriminate|]. simpl in H.
  apply andb_prop in H as [Hab Hs]. apply chr_eqb_eq in Hab. subst b.
  simpl. f_equal. now apply IH.
Qed.


Lemma roman_not_nl c : roman c = true -> chr_eqb nl c = false.
Proof.
  intros H. destruct (chr_eqb nl c) eqn:E; [|reflexivity].
  apply chr_eqb_eq in E. subst c. discriminate H.
Qed.

Lemma dot_not_nl c : dot c = true -> chr_eqb nl c = false /\ chr_eqb c nl = false.
Proof.
  unfold dot. intros H. apply negb_true_iff in H. split; [|exact H].
  unfold chr_eqb in *. now rewrite N.eqb_sym.
Qed.

(** After the longest run of characters other than the newline, the
    lookahead [(?=\n\n|$)] succeeds: the text ends there or a newline
    follows. *)
Lemma look_after_line st t :
  look_alternatives [lit (txt "\n\n"); [Eol]] st (lstrip_by dot t) = true.
Proof.
  unfold look_alternatives.
  assert (E : match_simple [Eol] st (lstrip_by dot t) = Some (st, lstrip_by dot t)).
  { unfold match_simple. rewrite match_eol, match_nil.
    destruct (lstrip_by dot t) as [|c u] eqn:Eu; [reflexivity|].
    simpl. pose proof (lstrip_by_head _ _ Eu) as Hc. unfold dot in Hc.
    apply negb_false_iff in Hc. now rewrite Hc. }
  apply existsb_exists. exists [Eol]. split; [right; now left|].
  now rewrite E.
Qed.

Lemma chapter_here prev pos t :
  match_here chapter_pattern prev pos t =
  if bol_after prev then option_map (chapter_match pos t) (chapter_split t) else None.
Proof.
  unfold match_here, match_pattern. rewrite chapter_pattern_items.
  rewrite match_bol. unfold at_bol. simpl m_prev. fold (bol_after prev).
  destruct (bol_after prev); [|reflexivity].
  rewrite match_lit. unfold chapter_split.
  destruct (startswith (txt "CHAPTER ") t); [|reflexivity].
  set (t1 := skipn (length (txt "CHAPTER ")) t).
  rewrite match_open.
  rewrite (match_rep_det look_alternatives (fun c alts => forallb (rejects0 c) alts)).
  2:{ intros c b st u Hb. now apply look_rejects. }
  2:{ intros c Hc. simpl. now rewrite roman_not_nl. }
  destruct (1 <=? length (take_while roman t1))%nat; [|reflexivity].
  rewrite match_close, match_lit.
  destruct (startswith (txt "\n\n") (lstrip_by roman t1)); [|reflexivity].
  set (t3 := skipn (length (txt "\n\n")) (lstrip_by roman t1)).
  rewrite match_open.
  rewrite (match_rep_det look_alternatives (fun c alts => forallb (rejects0 c) alts)).
  2:{ intros c b st u Hb. now apply look_rejects. }
  2:{ intros c Hc. destruct (dot_not_nl _ Hc) as [H1 H2]. simpl.
      unfold rejects0. simpl. now rewrite H1, H2. }
  destruct (1 <=? length (take_while dot t3))%nat; [|reflexivity].
  rewrite match_close, match_ahead, look_after_line, match_nil.
  unfold option_map, chapter_match. simpl fst. simpl snd. f_equal.
  repeat (rewrite ?eats_len, ?eats_groups, ?eats_cur;
          simpl m_len; simpl m_groups; simpl m_cur; simpl option_map).
  reflexivity.
Qed.

Lemma chapter_split_shape t num title :
  chapter_split t = Some (num, title) ->
  exists post,
    t = txt "CHAPTER " ++ num ++ txt "\n\n" ++ title ++ post
    /\ num <> [] /\ forallb roman num = true
    /\ title <> [] /\ forallb dot title = true
    /\ (post = [] \/ exists r, post = nl :: r).
Proof.
  unfold chapter_split.
  destruct (startswith (txt "CHAPTER ") t) eqn:E1; [|discriminate].
  apply startswith_spec in E1.
  set (t1 := skipn (length (txt "CHAPTER ")) t) in *.
  destruct (1 <=? length (take_while roman t1))%nat eqn:E2; [|discriminate].
  destruct (startswith (txt "\n\n") (lstrip_by roman t1)) eqn:E3; [|discriminate].
  apply startswith_spec in E3.
  set (t3 := skipn (length (txt "\n\n")) (lstrip_by roman t1)) in *.
  destruct (1 <=? length (take_while dot t3))%nat eqn:E4; [|discriminate].
  intros H. injection H as <- <-.
  exists (lstrip_by dot t3). repeat split.
  - rewrite take_drop, <- E3, take_drop. exact E1.
  - intros E. rewrite E in E2. discriminate.
  - apply take_while_all.
  - intros E. rewrite E in E4. discriminate.
  - apply take_while_all.
  - destruct (lstrip_by dot t3) as [|c r] eqn:Er; [now left|]. right.
    pose proof (lstrip_by_head _ _ Er) as Hc. unfold dot in Hc.
    apply negb_false_iff, chr_eqb_eq in Hc. subst c. now exists r.
Qed.

Lemma bol_after_last pre :
  bol_after (last_or None pre) = true -> pre = [] \/ exists p, pre = p ++ [nl].
Proof.
  destruct pre as [|c pre]; [now left|]. intros H. right.
  destruct (@exists_last _ (c :: pre)) as (p & x & E); [discriminate|].
  rewrite E in *. rewrite last_or_snoc in H. simpl in H.
  apply chr_eqb_eq in H. subst x. now exists p.
Qed.

End ChapterFacts.

(* ===================================================================== *)
(** * Chapter titles (claim C4) *)
(* ===================================================================== *)


(** C4, as stated, fails: the claim has a title that continues onto a
    second physical line before the blank line captured in full.  The
    pattern's [.] does not match a newline and under [re.MULTILINE] the
    lookahead's [$] succeeds at the end of every line, so the capture
    stops at the end of the first line. *)
Lemma chapter_title_stops_at_line_end :
  Extractor.chapters (Py.txt "CHAPTER I\n\nGeneral\nprovisions\n\nArticle 1") =
    [ {| Chapter.number := Py.txt "I"; Chapter.title := Py.txt "General" |} ]
  /\ until_blank_line (Py.txt "General\nprovisions\n\nArticle 1") =
     Py.txt "General\nprovisions".
Proof. split; vm_compute; reflexivity. Qed.

(** C4 (amended): every chapter entry comes from a place in the text
    where, at the start of a line, the word CHAPTER, a space and a
    non-empty run of the letters I, V, X are followed by exactly two
    newlines and a non-empty rest of a line; the numeral is the entry's
    number, and the title is that rest of the line, trimmed: it ends at
    the next newline or at the end of the text, so a title that
    continues onto a second line is cut after its first line. *)
Theorem chapter_entries (text : str) (ch : Chapter.t) :
  In ch (Extractor.chapters text) ->
  exists pre num title post,
    text = pre ++ Py.txt "CHAPTER " ++ num ++ Py.txt "\n\n" ++ title ++ post
    /\ (pre = [] \/ exists p, pre = p ++ [Py.nl])
    /\ num <> [] /\ forallb Notions.roman num = true
    /\ title <> [] /\ forallb Re.dot title = true
    /\ (post = [] \/ exists r, post = Py.nl :: r)
    /\ ch = {| Chapter.number := num; Chapter.title := Py.strip title |}.
Proof.
  unfold Extractor.chapters. intros H.
  apply in_map_iff in H as (m & <- & Hm).
  unfold Re.finditer, Re.pieces in Hm.
  apply ReFacts.scan_hits_inv in Hm as (pre & t' & -> & _ & Hm).
  rewrite ChapterFacts.chapter_here in Hm.
  destruct (Notions.bol_after (Notions.last_or None pre)) eqn:Hb; [|discriminate].
  destruct (Notions.chapter_split t') as [[num title]|] eqn:Es; [|discriminate].
  injection Hm as <-.
  destruct (ChapterFacts.chapter_split_shape _ Es) as (post & -> & H1 & H2 & H3 & H4 & H5).
  exists pre, num, title, post. repeat split; try assumption.
  now apply ChapterFacts.bol_after_last.
Qed.

Lemma chapter_entries_witness :
  exists pre num title post,
    Py.txt "CHAPTER I\n\nGeneral\nprovisions\n\nArticle 1" =
      pre ++ Py.txt "CHAPTER " ++ num ++ Py.txt "\n\n" ++ title ++ post
    /\ (pre = [] \/ exists p, pre = p ++ [Py.nl])
    /\ num <> [] /\ forallb Notions.roman num = true
    /\ title <> [] /\ forallb Re.dot title = true
    /\ (post = [] \/ exists r, post = Py.nl :: r)
    /\ {| Chapter.number := Py.txt "I"; Chapter.title := Py.txt "General" |} =
       {| Chapter.number := num; Chapter.title := Py.strip title |}.
Proof.
  refine (@chapter_entries (Py.txt "CHAPTER I\n\nGeneral\nprovisions\n\nArticle 1")
            {| Chapter.number := Py.txt "I"; Chapter.title := Py.txt "General" |} _).
  vm_compute. left. reflexivity.
Defined.

(* ===================================================================== *)
(** * Definitions *)
(* ===================================================================== *)

Module DefinitionFacts.
Import Py Re ReFacts NormalizerFacts RecitalFacts ChapterFacts Extractor Notions.

(** ** [str.find] *)

Lemma find_from_spec needle t : forall i,
  (find_from needle t i = (-1)%Z /\
   forall k, k <= length t -> startswith needle (skipn k t) = false)
  \/ exists k,
       find_from needle t i = (i + Z.of_nat k)%Z /\ k <= length t
       /\ startswith needle (skipn k t) = true
       /\ forall j, j < k -> startswith needle (skipn j t) = false.
Proof.
  induction t as [|c t IH]; intros i; simpl find_from.
  - destruct (startswith needle []) eqn:E.
    + right. exists 0. rewrite Z.add_0_r. repeat split; auto. intros j Hj. lia.
    + left. split; [reflexivity|]. intros k Hk. simpl in Hk.
      assert (k = 0) as -> by lia. exact E.
  - destruct (startswith needle (c :: t)) eqn:E.
    + right. exists 0. rewrite Z.add_0_r. repeat split; auto; [simpl; lia|].
      intros j Hj. lia.
    + destruct (IH (i + 1)%Z) as [[H1 H2]|(k & H1 & H2 & H3 & H4)].
      * left. split; [exact H1|]. intros [|k] Hk; [exact E|].
        simpl. apply H2. simpl in Hk. lia.
      * right. exists (S k). repeat split.
        -- rewrite H1. lia.
        -- simpl. lia.
        -- exact H3.
        -- intros [|j] Hj; [exact E|]. simpl. apply H4. lia.
Qed.

Lemma find_spec needle t :
  (find needle t = (-1)%Z /\
   forall k, k <= length t -> startswith needle (skipn k t) = false)
  \/ exists k,
       find needle t = Z.of_nat k /\ k <= length t
       /\ startswith needle (skipn k t) = true
       /\ forall j, j < k -> startswith needle (skipn j t) = false.
Proof. exact (find_from_spec needle t 0). Qed.

(** ** Slices with bounds inside the text *)

Lemma slice_nat t (a b : nat) :
  a <= length t -> b <= length t ->
  slice t (Z.of_nat a) (Z.of_nat b) = firstn (b - a) (skipn a t).
Proof.
  intros Ha Hb. unfold slice, clamp.
  destruct (Z.ltb_spec (Z.of_nat a) 0); [lia|].
  destruct (Z.ltb_spec (Z.of_nat b) 0); [lia|].
  rewrite !Z.min_l by lia. rewrite Nat2Z.id. f_equal. lia.
Qed.

(** ** The definition pattern *)


Lemma def_pattern_items :
  def_pattern =
  lit (txt "(") ++ Open :: Rep isdecimal 1 None true :: Close :: lit (txt ")")
    ++ [Rep isspace 0 None true; one quote; Open; Rep unquote 1 None true; Close;
        one quote].
Proof. reflexivity. Qed.


Lemma space_not_quote c : isspace c = true -> quote c = false.
Proof.
  intros H. destruct (quote c) eqn:E; [|reflexivity].
  unfold quote, any_of, quotes in E. simpl in E.
  repeat (apply orb_prop in E as [E|E];
          [apply chr_eqb_eq in E; subst c; vm_compute in H; discriminate|]).
  discriminate.
Qed.

Lemma def_here prev pos t :
  match_here def_pattern prev pos t = option_map (def_match pos t) (def_split t).
Proof.
  unfold match_here, match_pattern. rewrite def_pattern_items.
  rewrite match_lit. unfold def_split.
  destruct (startswith (txt "(") t); [|reflexivity].
  change (length (txt "(")) with 1.
  set (t1 := skipn 1 t).
  rewrite match_open.
  rewrite (match_rep_det look_alternatives (fun c alts => forallb (rejects0 c) alts)).
  2:{ intros c b st u Hb. now apply look_rejects. }
  2:{ intros c Hc. simpl. now rewrite decimal_not_close. }
  destruct (1 <=? length (take_while isdecimal t1))%nat; [|reflexivity].
  rewrite match_close, match_lit.
  destruct (startswith (txt ")") (lstrip_by isdecimal t1)); [|reflexivity].
  change (length (txt ")")) with 1.
  set (t3 := skipn 1 (lstrip_by isdecimal t1)).
  rewrite (match_rep_det look_alternatives (fun c alts => forallb (rejects0 c) alts)).
  2:{ intros c b st u Hb. now apply look_rejects. }
  2:{ intros c Hc. simpl. now rewrite (space_not_quote _ Hc). }
  change (0 <=? length (take_while isspace t3))%nat with true. cbv iota.
  rewrite match_one.
  destruct (lstrip_by isspace t3) as [|q1 t5]; [reflexivity|].
  destruct (quote q1); [|reflexivity].
  rewrite match_open.
  rewrite (match_rep_det look_alternatives (fun c alts => forallb (rejects0 c) alts)).
  2:{ intros c b st u Hb. now apply look_rejects. }
  2:{ intros c Hc. simpl. unfold unquote, none_of in Hc. fold quote in Hc.
      now rewrite Hc. }
  destruct (1 <=? length (take_while unquote t5))%nat; [|reflexivity].
  rewrite match_close, match_one.
  destruct (lstrip_by unquote t5) as [|q2 t7]; [reflexivity|].
  destruct (quote q2); [|reflexivity].
  rewrite match_nil.
  unfold option_map, def_match, occurrence_text. simpl o_digits. simpl o_term.
  simpl o_space. simpl o_open. simpl o_close. f_equal.
  repeat (rewrite ?eats_len, ?eats_groups, ?eats_cur;
          simpl m_len; simpl m_groups; simpl m_cur; simpl option_map).
  f_equal. f_equal. rewrite !length_app. simpl length. rewrite !length_app.
  simpl length. lia.
Qed.


Lemma def_split_shape t o :
  def_split t = Some o -> well_formed o /\ exists post, t = occurrence_text o ++ post.
Proof.
  unfold def_split.
  destruct (startswith (txt "(") t) eqn:E1; [|discriminate].
  apply startswith_spec in E1. change (length (txt "(")) with 1 in E1.
  set (t1 := skipn 1 t) in *.
  destruct (1 <=? length (take_while isdecimal t1))%nat eqn:E2; [|discriminate].
  destruct (startswith (txt ")") (lstrip_by isdecimal t1)) eqn:E3; [|discriminate].
  apply startswith_spec in E3. change (length (txt ")")) with 1 in E3.
  set (t3 := skipn 1 (lstrip_by isdecimal t1)) in *.
  destruct (lstrip_by isspace t3) as [|q1 t5] eqn:E4; [discriminate|].
  destruct (quote q1) eqn:E5; [|discriminate].
  destruct (1 <=? length (take_while unquote t5))%nat eqn:E6; [|discriminate].
  destruct (lstrip_by unquote t5) as [|q2 t7] eqn:E7; [discriminate|].
  destruct (quote q2) eqn:E8; [|discriminate].
  intros H. injection H as <-. unfold well_formed, occurrence_text.
  cbn [o_digits o_space o_open o_term o_close].
  repeat split; try assumption; try apply take_while_all.
  - intros E. rewrite E in E2. discriminate.
  - intros E. rewrite E in E6. discriminate.
  - exists t7.
    pose proof (take_drop isdecimal t1) as D1. rewrite E3 in D1.
    pose proof (take_drop isspace t3) as D3. rewrite E4 in D3.
    pose proof (take_drop unquote t5) as D5. rewrite E7 in D5.
    remember (take_while isdecimal t1) as ds eqn:Eds.
    remember (take_while isspace t3) as ws eqn:Ews.
    remember (take_while unquote t5) as term eqn:Eterm.
    rewrite E1, <- D1, <- D3, <- D5. rewrite <- !app_assoc.
    do 3 f_equal. simpl. do 2 f_equal. now rewrite <- app_assoc.
Qed.

(** Every match of the definition pattern in a text is an occurrence
    somewhere in that text. *)
Lemma finditer_def_inv w m :
  In m (finditer def_pattern w) ->
  exists pre o post,
    w = pre ++ occurrence_text o ++ post /\ well_formed o
    /\ m_caps m = [o_digits o; o_term o].
Proof.
  unfold finditer, pieces. intros H.
  apply scan_hits_inv in H as (pre & t' & -> & _ & Hm).
  rewrite def_here in Hm.
  destruct (def_split t') as [o|] eqn:Es; [|discriminate].
  injection Hm as <-.
  destruct (def_split_shape _ Es) as (Hwf & post & ->).
  now exists pre, o, post.
Qed.

Lemma finditer_def_nil : finditer def_pattern [] = [].
Proof. reflexivity. Qed.


Lemma definitions_inv text d :
  In d (definitions text) ->
  exists pre o post,
    text = pre ++ occurrence_text o ++ post /\ well_formed o
    /\ (art4_start text <= Z.of_nat (length pre))%Z
    /\ (Z.of_nat (length pre + length (occurrence_text o)) <= art5_start text)%Z
    /\ d = entry_of o.
Proof.
  unfold definitions.
  destruct (find_spec (txt "\nArticle 4\n") text) as [[E4 _]|(k4 & E4 & H4 & _)];
    fold (art4_start text) in E4; rewrite E4; [intros []|].
  destruct (find_spec (txt "\nArticle 5\n") text) as [[E5 _]|(k5 & E5 & H5 & _)];
    fold (art5_start text) in E5; rewrite E5.
  { rewrite andb_false_r. intros []. }
  assert (Hc : negb (Z.of_nat k4 =? -1)%Z && negb (Z.of_nat k5 =? -1)%Z = true).
  { destruct (Z.eqb_spec (Z.of_nat k4) (-1)); [lia|].
    destruct (Z.eqb_spec (Z.of_nat k5) (-1)); [lia|]. reflexivity. }
  rewrite Hc. rewrite slice_nat by assumption.
  intros H. apply in_map_iff in H as (m & <- & Hm).
  apply finditer_def_inv in Hm as (pre & o & post & Ew & Hwf & Hcaps).
  exists (firstn k4 text ++ pre), o,
         (post ++ skipn (k5 - k4) (skipn k4 text)).
  assert (Hlen : length (pre ++ occurrence_text o ++ post) <= k5 - k4).
  { rewrite <- Ew. rewrite length_firstn. lia. }
  rewrite !length_app in Hlen. rewrite length_app, length_firstn.
  rewrite Nat.min_l by exact H4.
  assert (Hocc : 1 <= length (occurrence_text o)).
  { unfold occurrence_text. rewrite length_app. simpl. lia. }
  refine (conj _ (conj Hwf (conj _ (conj _ _)))).
  - rewrite <- (firstn_skipn k4 text) at 1. rewrite <- app_assoc. f_equal.
    rewrite <- (firstn_skipn (k5 - k4) (skipn k4 text)) at 1.
    rewrite Ew. now rewrite <- !app_assoc.
  - lia.
  - lia.
  - unfold entry_of, group. rewrite Hcaps. reflexivity.
Qed.

Lemma definitions_absent text :
  art4_start text = (-1)%Z \/ art5_start text = (-1)%Z -> definitions text = [].
Proof.
  unfold definitions. intros [->| ->]; [reflexivity|]. now rewrite andb_false_r.
Qed.


End DefinitionFacts.

(* ===================================================================== *)
(** * The definitions window (claims C1 and C10) *)
(* ===================================================================== *)


(** C1, as stated, fails: the claim scopes the definitions by the first
    line-start occurrences of the two headings.  Here the first line of
    the text is the heading of Article 5, the only occurrence of the
    definition pattern stands after it (at offset 20), and it is in the
    output all the same: [find] looks for the heading between two
    newlines, so it does not see a heading on the first line and takes
    the later one as the end of the window. *)
Lemma heading_on_first_line_not_seen :
  first_heading (Py.txt "Article 5") heading_on_first_line = Some 0
  /\ map Re.m_start (Re.finditer Extractor.def_pattern heading_on_first_line) = [20]
  /\ Extractor.art5_start heading_on_first_line = 27%Z
  /\ Extractor.definitions heading_on_first_line =
     [ {| Definition_.number := 1; Definition_.term := Py.txt "x" |} ].
Proof. repeat split; vm_compute; reflexivity. Qed.

(** C1 (amended): the window runs from the first occurrence of the line
    [Article 4] between two newlines to the first such occurrence of
    [Article 5] (what [find] returns for the two needles; a heading on
    the very first line, or on the last line without a newline after it,
    is not an occurrence).  If either is absent there are no definitions,
    and every entry of the output is read from an occurrence of the
    pattern (parenthesized digits, optional whitespace, a quoted term)
    that lies inside the window: it starts at or after the newline
    before the [Article 4] line and ends at or before the newline before
    the [Article 5] line. *)
Theorem definitions_window (text : str) :
  Notions.first_occurrence (Py.txt "\nArticle 4\n") text
    (Extractor.art4_start text)
  /\ Notions.first_occurrence (Py.txt "\nArticle 5\n") text
       (Extractor.art5_start text)
  /\ (Extractor.art4_start text = (-1)%Z \/ Extractor.art5_start text = (-1)%Z ->
      Extractor.definitions text = [])
  /\ forall d, In d (Extractor.definitions text) ->
       exists pre o post,
         text = pre ++ Notions.occurrence_text o ++ post
         /\ Notions.well_formed o
         /\ (Extractor.art4_start text <= Z.of_nat (length pre))%Z
         /\ (Z.of_nat (length pre + length (Notions.occurrence_text o))
             <= Extractor.art5_start text)%Z
         /\ d = {| Definition_.number := Py.int (Notions.o_digits o);
                   Definition_.term := Py.strip (Notions.o_term o) |}.
Proof.
  split; [apply DefinitionFacts.find_spec|].
  split; [apply DefinitionFacts.find_spec|].
  split; [apply DefinitionFacts.definitions_absent|].
  apply DefinitionFacts.definitions_inv.
Qed.

Example definitions_of_sample :
  Extractor.definitions
    (Py.txt "Preamble (9) 'no'\n\nArticle 4\n\nDefinitions\n\n(1) 'personal data' means any information\n(2)  'processing'  means\n\nArticle 5\n\n(3) 'late'\n")
  = [ {| Definition_.number := 1; Definition_.term := Py.txt "personal data" |};
      {| Definition_.number := 2; Definition_.term := Py.txt "processing" |} ].
Proof. vm_compute. reflexivity. Qed.

Module HeadingOrderFacts.
Import Py Re ReFacts NormalizerFacts RecitalFacts ChapterFacts DefinitionFacts.
Import Extractor Notions.








End HeadingOrderFacts.

(** C10, as stated, fails: both headings are present, the first
    occurrence of the [Article 5] heading is the first line of the
    (cleaned) text and so precedes the first [Article 4] heading, yet
    the definitions list is not empty.  [find] looks for a heading
    between two newlines: it does not see the one on the first line,
    takes the later [Article 5] heading as the end of the window, and
    the window is not empty. *)
Lemma first_line_heading_not_reversed :
  Normalizer.clean first_line_reversed = first_line_reversed
  /\ first_heading (Py.txt "Article 5") first_line_reversed = Some 0
  /\ first_heading (Py.txt "Article 4") first_line_reversed = Some 18
  /\ Extractor.art4_start first_line_reversed = 17%Z
  /\ Extractor.art5_start first_line_reversed = 35%Z
  /\ Extractor.definitions first_line_reversed =
     [ {| Definition_.number := 2; Definition_.term := Py.txt "y" |} ].
Proof. repeat split; vm_compute; reflexivity. Qed.



(* ===================================================================== *)
(** * The command line (claim C8) *)
(* ===================================================================== *)


Module MainFacts.
Import Py Builtins.

(** [main] with its two positional arguments, stage by stage. *)
Lemma main_stages (json_dumps : Extractor.expected -> str)
      (prog input_path output_path : str) (rest : list str) (w : Io.world) :
  Cli.main json_dumps (prog :: input_path :: output_path :: rest) w =
  match Normalizer.clean_gdpr_text input_path output_path
          (Shapes.printed w [Shapes.processing input_path]) with
  | Io.Raise e w1 => Io.Raise e w1
  | Io.Ok stats w1 =>
      let w2 := Shapes.printed w1 (tl (report input_path output_path stats)) in
      match json_requested rest with
      | None => Io.Ok tt w2
      | Some json_path =>
          match Extractor.generate_expected_json json_dumps output_path json_path
                  (Shapes.printed w2 [Shapes.generating]) with
          | Io.Raise e w3 => Io.Raise e w3
          | Io.Ok _ w3 =>
              Io.Ok tt (Shapes.printed w3
                          [txt "Expected output written to " ++ json_path])
          end
      end
  end.
Proof.
  unfold Cli.main.
  change (length (prog :: input_path :: output_path :: rest) <? 3)%nat with false.
  cbv iota.
  unfold Io.bind at 1 2 3 4. unfold Cli.argv_at at 1 2. unfold Io.ret at 1 2.
  cbn [nth_error]. unfold Io.print at 1.
  change {| Io.files := Io.files w; Io.readonly := Io.readonly w;
            Io.stdout := Io.stdout w ++ [txt "Processing " ++ input_path ++ txt "..."] |}
    with (Shapes.printed w [Shapes.processing input_path]).
  destruct (Normalizer.clean_gdpr_text input_path output_path
              (Shapes.printed w [Shapes.processing input_path])) as [stats w1|e w1];
    [|reflexivity].
  assert (Ew : forall k : Io.M unit,
    (Io.bind (Io.print (txt "\nGDPR Text Statistics:")) (fun _ =>
     Io.bind (Io.print (txt "  Total lines: "
                        ++ Cli.fmt_nat (Normalizer.total_lines stats))) (fun _ =>
     Io.bind (Io.print (txt "  Total characters: "
                        ++ Cli.fmt_nat (Normalizer.total_chars stats))) (fun _ =>
     Io.bind (Io.print (txt "  Chapters: " ++ Cli.fmt_nat (Normalizer.chapters stats)
                        ++ txt " ("
                        ++ join (txt ", ") (Normalizer.chapter_list stats)
                        ++ txt ")")) (fun _ =>
     Io.bind (Io.print (txt "  Articles: " ++ Cli.fmt_nat (Normalizer.articles stats)
                        ++ txt " (range: " ++ Normalizer.article_range stats
                        ++ txt ")")) (fun _ =>
     Io.bind (Io.print (txt "  Recitals: " ++ Cli.fmt_nat (Normalizer.recitals stats)
                        ++ txt " (range: " ++ Normalizer.recital_range stats
                        ++ txt ")")) (fun _ =>
     Io.bind (Io.print (txt "\nOutput written to " ++ output_path)) (fun _ => k))))))))
      w1
    = k (Shapes.printed w1 (tl (report input_path output_path stats)))).
  { intros k. unfold Io.bind, Io.print. cbn [Io.files Io.readonly Io.stdout].
    f_equal. unfold Shapes.printed, report. cbn [tl]. f_equal.
    rewrite <- !app_assoc. reflexivity. }
  rewrite Ew. clear Ew. cbv zeta. unfold json_requested.
  destruct rest as [|flag [|json_path rest]];
    [ change (5 <=? length [prog; input_path; output_path])%nat with false
    | change (5 <=? length [prog; input_path; output_path; flag])%nat with false
    | change (5 <=? length (prog :: input_path :: output_path :: flag
                              :: json_path :: rest))%nat with true ];
    cbv iota; try reflexivity.
  unfold Io.bind at 1. unfold Cli.argv_at at 1. cbn [nth_error]. unfold Io.ret at 1.
  destruct (decide (flag = txt "--generate-expected")) as [Hf|Hf]; [|reflexivity].
  unfold Io.bind at 1. unfold Cli.argv_at at 1. cbn [nth_error]. unfold Io.ret at 1.
  unfold Io.bind at 1. unfold Io.print at 1.
  change {| Io.files :=
              Io.files (Shapes.printed w1 (tl (report input_path output_path stats)));
            Io.readonly :=
              Io.readonly (Shapes.printed w1 (tl (report input_path output_path stats)));
            Io.stdout :=
              Io.stdout (Shapes.printed w1 (tl (report input_path output_path stats)))
              ++ [txt "\nGenerating expected output JSON..."] |}
    with (Shapes.printed
            (Shapes.printed w1 (tl (report input_path output_path stats)))
            [Shapes.generating]).
  unfold Io.bind at 1.
  destruct (Extractor.generate_expected_json json_dumps output_path json_path
              (Shapes.printed
                 (Shapes.printed w1 (tl (report input_path output_path stats)))
                 [Shapes.generating])) as [[] w3|e w3]; reflexivity.
Qed.

(** The first stage after the progress line. *)
Lemma first_stage (input_path output_path raw : str) (w : Io.world) :
  Io.files w !! input_path = Some raw ->
  output_path ∉ Io.readonly w ->
  Normalizer.clean_gdpr_text input_path output_path
    (Shapes.printed w [Shapes.processing input_path]) =
  let text := Normalizer.clean (Io.universal_newlines raw) in
  let w1 := Shapes.written w (<[output_path := text]> (Io.files w))
                           [Shapes.processing input_path] in
  if Normalizer.countable text then Io.Ok (Normalizer.statistics text) w1
  else Io.Raise Io.ValueError w1.
Proof.
  intros Hin Hout. rewrite ConversionFacts.clean_gdpr_text_eq.
  cbn [Shapes.printed Io.files Io.readonly Io.stdout]. rewrite Hin. cbv zeta.
  destruct (decide (output_path ∈ Io.readonly w)); [contradiction|reflexivity].
Qed.

End MainFacts.

(** C8, as stated, fails: the input is read and the output written (no
    I/O error), yet the run ends with an uncaught [ValueError]: the
    input has an article heading whose number has 4301 digits, over the
    limit of [int].  The status is 1, the cleaned text is in the output
    file, and of the report only the first line has been printed. *)
Lemma main_fails_on_long_number :
  Io.files long_number_world !! Py.txt "in.txt" = Some long_number
  /\ (Py.txt "out.txt" ∉ Io.readonly long_number_world)
  /\ Cli.main (fun _ => Py.txt "{}")
       [Py.txt "prepare_gdpr.py"; Py.txt "in.txt"; Py.txt "out.txt"]
       long_number_world =
     Io.Raise Io.ValueError
       (Shapes.written long_number_world
          (<[Py.txt "out.txt" := long_number]> (Io.files long_number_world))
          [Shapes.processing (Py.txt "in.txt")])
  /\ Cli.exit_status
       (Cli.main (fun _ => Py.txt "{}")
          [Py.txt "prepare_gdpr.py"; Py.txt "in.txt"; Py.txt "out.txt"]
          long_number_world) = 1%Z.
Proof.
  assert (Ein : Io.files long_number_world !! Py.txt "in.txt" = Some long_number)
    by reflexivity.
  assert (Eout : Py.txt "out.txt" ∉ Io.readonly long_number_world).
  { cbn [Io.readonly long_number_world]. intros H. inversion H. }
  assert (Ec : Normalizer.clean (Io.universal_newlines long_number) = long_number)
    by (vm_compute; reflexivity).
  assert (En : Normalizer.countable long_number = false) by (vm_compute; reflexivity).
  assert (E : Cli.main (fun _ => Py.txt "{}")
                [Py.txt "prepare_gdpr.py"; Py.txt "in.txt"; Py.txt "out.txt"]
                long_number_world =
              Io.Raise Io.ValueError
                (Shapes.written long_number_world
                   (<[Py.txt "out.txt" := long_number]> (Io.files long_number_world))
                   [Shapes.processing (Py.txt "in.txt")])).
  { rewrite MainFacts.main_stages.
    rewrite (@MainFacts.first_stage _ _ _ _ Ein Eout). cbv zeta.
    rewrite Ec, En. reflexivity. }
  split; [exact Ein|]. split; [exact Eout|]. split; [exact E|].
  rewrite E. reflexivity.
Qed.


Example main_with_one_argument (json_dumps : Extractor.expected -> str) :
  Cli.main json_dumps [Py.txt "prepare_gdpr.py"; Py.txt "in.txt"] usage_world =
  Io.Raise (Io.SystemExit 1)
    {| Io.files := Io.files usage_world;
       Io.readonly := ∅;
       Io.stdout := [usage (Py.txt "prepare_gdpr.py")] |}.
Proof. reflexivity. Qed.

Example main_unreadable_input (json_dumps : Extractor.expected -> str) :
  Cli.exit_status
    (Cli.main json_dumps
       [Py.txt "prepare_gdpr.py"; Py.txt "missing.txt"; Py.txt "out.txt"] usage_world)
  = 1%Z.
Proof. reflexivity. Qed.


Example main_generates_json :
  Io.stdout (Cli.world_of cli_run) =
  [ Py.txt "Processing in.txt...";
    Py.txt "\nGDPR Text Statistics:";
    Py.txt "  Total lines: 3";
    Py.txt "  Total characters: 29";
    Py.txt "  Chapters: 1 (I)";
    Py.txt "  Articles: 0 (range: none)";
    Py.txt "  Recitals: 0 (range: none)";
    Py.txt "\nOutput written to out.txt";
    Py.txt "\nGenerating expected output JSON...";
    Py.txt "Expected output written to out.json" ].
Proof. vm_compute. reflexivity. Qed.

(* ===================================================================== *)
(** * Line-anchored patterns, line by line *)
(* ===================================================================== *)

Module LineScan.
Import Py Re ReFacts NormalizerFacts RecitalFacts LineFacts ChapterFacts Notions.


Lemma first_line_split t :
  exists rest, t = hd [] (split_nl t) ++ rest /\ (rest = [] \/ starts_nl rest = true).
Proof.
  induction t as [|c t (rest & E & Hr)].
  - exists []. auto.
  - destruct (is_nl c) eqn:Ec.
    + exists (c :: t). apply is_nl_true in Ec as Ec'. subst c. rewrite split_nl_newline.
      simpl. auto.
    + exists rest. rewrite split_nl_other by exact Ec. simpl. split; [|exact Hr].
      now rewrite <- E.
Qed.

Lemma first_line_no_nl t : no_nl (hd [] (split_nl t)) = true.
Proof.
  pose proof (split_nl_lines t) as H. pose proof (split_nl_nonempty t) as Hne.
  destruct (split_nl t); [contradiction|]. now inversion H.
Qed.

Lemma scan_lines pat :
  line_anchored pat ->
  forall t prev pos skip,
    skip <= length (hd [] (split_nl t)) ->
    map m_caps (hits (scan pat prev pos t skip)) =
    (if (skip =? 0)%nat && bol_after prev
     then captures (on_line pat (hd [] (split_nl t))) else [])
    ++ flat_map (fun line => captures (on_line pat line)) (tl (split_nl t)).
Proof.
  intros [He Hbol Hloc]. induction t as [|c t IH]; intros prev pos skip Hs.
  - simpl in Hs. assert (skip = 0) as -> by lia. simpl scan.
    rewrite match_here_end by exact He. simpl.
    unfold on_line. rewrite match_here_end by exact He.
    destruct (bol_after prev); reflexivity.
  - assert (Hmiss : forall k, k <= length (hd [] (split_nl t)) ->
              (k <> 0 \/ is_nl c = false) ->
              map m_caps (hits (scan pat (Some c) (S pos) t k)) =
              flat_map (fun line => captures (on_line pat line)) (tl (split_nl t))).
    { intros k Hk Hor. rewrite IH by exact Hk.
      destruct Hor as [Hk0|Hc].
      - destruct k; [contradiction | reflexivity].
      - simpl bol_after. rewrite is_nl_sym, Hc, andb_false_r. reflexivity. }
    assert (Hnext : map m_caps (hits (scan pat (Some c) (S pos) t 0)) =
                    flat_map (fun line => captures (on_line pat line))
                             (tl (split_nl (c :: t)))).
    { destruct (is_nl c) eqn:Ec.
      - apply is_nl_true in Ec as Ec'. subst c. rewrite split_nl_newline.
        rewrite IH by lia. simpl bol_after. rewrite chr_eqb_refl. simpl andb.
        cbv iota. simpl tl.
        pose proof (split_nl_nonempty t) as Hne.
        destruct (split_nl t); [contradiction | reflexivity].
      - rewrite split_nl_other by exact Ec. simpl tl. apply Hmiss; [lia | now right]. }
    destruct skip as [|k].
    + cbn [Nat.eqb andb scan].
      destruct (bol_after prev) eqn:Eb.
      * destruct (first_line_split (c :: t)) as (rest & E & Hr).
        pose proof (first_line_no_nl (c :: t)) as Hl.
        destruct (Hloc prev pos _ rest Eb Hl Hr) as [Hcaps Hin].
        rewrite <- E in Hcaps, Hin. rewrite <- Hcaps.
        destruct (match_here pat prev pos (c :: t)) as [m|] eqn:Em.
        -- destruct (Hin m eq_refl) as [Hne Hlen].
           cbn [hits map captures option_map app]. f_equal.
           destruct (is_nl c) eqn:Ec.
           ++ exfalso. apply is_nl_true in Ec. subst c.
              rewrite split_nl_newline in Hlen. simpl in Hlen.
              destruct (m_text m); [contradiction | simpl in Hlen; lia].
           ++ rewrite split_nl_other in Hlen by exact Ec. simpl in Hlen.
              rewrite split_nl_other by exact Ec. simpl tl.
              destruct (length (m_text m)) as [|k] eqn:El.
              ** destruct (m_text m); [contradiction | discriminate].
              ** apply Hmiss; [lia | now right].
        -- cbn [hits map captures option_map app]. exact Hnext.
      * rewrite Hbol by exact Eb. cbn [hits map captures option_map app]. exact Hnext.
    + cbn [Nat.eqb andb app scan].
      destruct (is_nl c) eqn:Ec.
      * exfalso. apply is_nl_true in Ec. subst c. rewrite split_nl_newline in Hs.
        simpl in Hs. lia.
      * rewrite split_nl_other in Hs by exact Ec. simpl in Hs.
        rewrite split_nl_other by exact Ec. simpl tl.
        apply Hmiss; [lia | now right].
Qed.

(** [finditer] over a text is [finditer] over its lines. *)
Lemma finditer_lines pat t :
  line_anchored pat ->
  map m_caps (finditer pat t) =
  flat_map (fun line => captures (on_line pat line)) (split_nl t).
Proof.
  intros H. unfold finditer, pieces. rewrite (scan_lines H) by lia.
  simpl. pose proof (split_nl_nonempty t) as Hne.
  destruct (split_nl t); [contradiction | reflexivity].
Qed.

(** ** The two numbered patterns of the statistics *)

Lemma startswith_line s : forall line rest,
  no_nl s = true -> rest = [] \/ starts_nl rest = true ->
  startswith s (line ++ rest) = startswith s line.
Proof.
  induction s as [|a s IH]; intros line rest Hs Hr; [reflexivity|].
  simpl in Hs. apply andb_prop in Hs as [Ha Hs]. apply negb_true_iff in Ha.
  destruct line as [|b line].
  - simpl app. destruct Hr as [->|Hr]; [reflexivity|].
    destruct rest as [|c rest]; [discriminate|]. simpl in Hr.
    apply is_nl_true in Hr. subst c. simpl.
    assert (E : chr_eqb a nl = false) by (now rewrite is_nl_sym).
    now rewrite E.
  - simpl. now rewrite IH.
Qed.

Lemma startswith_length s t : startswith s t = true -> length s <= length t.
Proof.
  revert t. induction s as [|a s IH]; intros t H; [simpl; lia|].
  destruct t as [|b t]; [discriminate|]. simpl in H.
  apply andb_prop in H as [_ H]. apply IH in H. simpl. lia.
Qed.

Lemma rest_not_decimal rest :
  rest = [] \/ starts_nl rest = true -> starts isdecimal rest = false.
Proof.
  intros [->|H]; [reflexivity|]. destruct rest as [|c rest]; [reflexivity|].
  simpl in *. apply is_nl_true in H. subst c. reflexivity.
Qed.

Lemma at_eol_line x rest :
  no_nl x = true -> rest = [] \/ starts_nl rest = true ->
  at_eol (x ++ rest) = match x with [] => true | _ :: _ => false end.
Proof.
  intros Hx Hr. destruct x as [|d x].
  - simpl. destruct Hr as [->|Hr]; [reflexivity|].
    destruct rest as [|c rest]; [reflexivity|]. simpl in *.
    now rewrite is_nl_sym.
  - simpl in *. apply andb_prop in Hx as [Hd _]. apply negb_true_iff in Hd.
    now rewrite is_nl_sym.
Qed.

Lemma no_nl_app a b : no_nl (a ++ b) = no_nl a && no_nl b.
Proof. unfold no_nl. apply forallb_app. Qed.

Lemma no_nl_skipn n t : no_nl t = true -> no_nl (skipn n t) = true.
Proof.
  intros H. rewrite <- (firstn_skipn n t), no_nl_app in H.
  now apply andb_prop in H as [_ H].
Qed.

Lemma no_nl_lstrip p t : no_nl t = true -> no_nl (lstrip_by p t) = true.
Proof.
  intros H. rewrite <- (take_drop p t), no_nl_app in H.
  now apply andb_prop in H as [_ H].
Qed.

(** *** [^Article (\d+)$] *)


Lemma article_pattern_items :
  Normalizer.article_pattern =
  Bol :: lit (txt "Article ") ++ [Open; Rep isdecimal 1 None true; Close; Eol].
Proof. reflexivity. Qed.

Lemma article_here prev pos t :
  match_here Normalizer.article_pattern prev pos t =
  if bol_after prev
  then option_map (fun ds => {| m_start := pos;
                                m_text := firstn (length (txt "Article ") + length ds) t;
                                m_caps := [ds] |})
                  (article_split t)
  else None.
Proof.
  unfold match_here, match_pattern. rewrite article_pattern_items.
  rewrite match_bol. unfold at_bol. simpl m_prev. fold (bol_after prev).
  destruct (bol_after prev); [|reflexivity].
  rewrite match_lit. unfold article_split.
  destruct (startswith (txt "Article ") t); [|reflexivity].
  set (t1 := skipn (length (txt "Article ")) t).
  rewrite match_open.
  rewrite (match_rep_det look_alternatives (fun c alts => forallb (rejects0 c) alts)).
  2:{ intros c b st u Hb. now apply look_rejects. }
  2:{ intros c Hc. simpl. apply decimal_not_nl in Hc. rewrite <- is_nl_sym in Hc.
      now rewrite Hc. }
  destruct (1 <=? length (take_while isdecimal t1))%nat; [|reflexivity].
  rewrite match_close, match_eol.
  destruct (at_eol (lstrip_by isdecimal t1)); [|reflexivity].
  rewrite match_nil. unfold option_map. f_equal.
  repeat (rewrite ?eats_len, ?eats_groups, ?eats_cur;
          simpl m_len; simpl m_groups; simpl m_cur; simpl option_map).
  reflexivity.
Qed.

Lemma article_split_local line rest :
  no_nl line = true -> rest = [] \/ starts_nl rest = true ->
  article_split (line ++ rest) = article_split line.
Proof.
  intros Hl Hr. unfold article_split.
  rewrite startswith_line by (auto; reflexivity).
  destruct (startswith (txt "Article ") line) eqn:E; [|reflexivity].
  apply startswith_length in E.
  rewrite skipn_app.
  replace (length (txt "Article ") - length line) with 0 by lia.
  rewrite (skipn_O rest).
  set (t1 := skipn (length (txt "Article ")) line).
  rewrite (take_while_app_starts isdecimal t1 rest (rest_not_decimal Hr)).
  rewrite (lstrip_by_app isdecimal t1 rest (rest_not_decimal Hr)).
  rewrite at_eol_line; [|apply no_nl_lstrip, no_nl_skipn, Hl|exact Hr].
  destruct (1 <=? length (take_while isdecimal t1))%nat; [|reflexivity].
  destruct (lstrip_by isdecimal t1) as [|d x] eqn:Ex; [reflexivity|].
  simpl. assert (Hn : no_nl (d :: x) = true).
  { rewrite <- Ex. apply no_nl_lstrip, no_nl_skipn, Hl. }
  simpl in Hn. apply andb_prop in Hn as [Hd _]. apply negb_true_iff in Hd.
  now rewrite is_nl_sym, Hd.
Qed.

Lemma article_split_length t ds :
  article_split t = Some ds ->
  length (txt "Article ") + length ds <= length t /\ 1 <= length ds.
Proof.
  unfold article_split.
  destruct (startswith (txt "Article ") t) eqn:E; [|discriminate].
  apply startswith_spec in E.
  set (t1 := skipn (length (txt "Article ")) t) in *.
  destruct (1 <=? length (take_while isdecimal t1))%nat eqn:E1; [|discriminate].
  destruct (at_eol (lstrip_by isdecimal t1)); [|discriminate].
  intros H. injection H as <-. apply Nat.leb_le in E1. split; [|exact E1].
  apply (f_equal (@length N)) in E. rewrite length_app in E.
  pose proof (f_equal (@length N) (take_drop isdecimal t1)) as E2.
  rewrite length_app in E2. lia.
Qed.

Lemma article_anchored : line_anchored Normalizer.article_pattern.
Proof.
  constructor.
  - reflexivity.
  - intros prev pos t Hb. now rewrite article_here, Hb.
  - intros prev pos line rest Hb Hl Hr. unfold on_line. rewrite !article_here, Hb.
    simpl bol_after. cbv iota. rewrite article_split_local by assumption.
    split.
    + destruct (article_split line); reflexivity.
    + intros m Hm. destruct (article_split line) as [ds|] eqn:Es; [|discriminate].
      injection Hm as <-. simpl m_text.
      destruct (article_split_length _ Es) as [H1 H2].
      assert (Hlen : length (firstn (length (txt "Article ") + length ds) (line ++ rest))
                     = length (txt "Article ") + length ds).
      { rewrite length_firstn, length_app. apply Nat.min_l. lia. }
      change (length (txt "Article ")) with 8 in *. simpl Nat.add in *.
      split; [|lia].
      intros E. rewrite E in Hlen. simpl in Hlen. lia.
Qed.


Lemma take_while_forallb p t : forallb p t = true -> take_while p t = t /\ lstrip_by p t = [].
Proof.
  intros H. destruct (take_while_app_stop p t [] H I) as [E1 E2].
  now rewrite app_nil_r in E1, E2.
Qed.

Lemma lstrip_nil_forallb p t : lstrip_by p t = [] -> forallb p t = true.
Proof.
  intros H. pose proof (take_drop p t) as E. rewrite H, app_nil_r in E.
  rewrite <- E. apply take_while_all.
Qed.

Lemma article_split_line line :
  no_nl line = true -> article_split line = article_line line.
Proof.
  intros Hl. unfold article_split, article_line.
  destruct (startswith (txt "Article ") line); [|reflexivity].
  set (t1 := skipn (length (txt "Article ")) line). rewrite andb_true_l.
  destruct (forallb isdecimal t1) eqn:Ea.
  - destruct (take_while_forallb _ _ Ea) as [-> ->].
    destruct (1 <=? length t1)%nat; reflexivity.
  - rewrite andb_false_r.
    destruct (1 <=? length (take_while isdecimal t1))%nat; [|reflexivity].
    destruct (lstrip_by isdecimal t1) as [|d x] eqn:Ex.
    + apply lstrip_nil_forallb in Ex. congruence.
    + simpl. assert (Hn : no_nl (d :: x) = true).
      { rewrite <- Ex. apply no_nl_lstrip. unfold t1. now apply no_nl_skipn. }
      simpl in Hn. apply andb_prop in Hn as [Hd _]. apply negb_true_iff in Hd.
      now rewrite is_nl_sym, Hd.
Qed.


(** The matches of the article pattern are the article lines, in
    order. *)
Lemma findall_article_lines text :
  findall Normalizer.article_pattern text =
  flat_map (fun line => opt_list (article_line line)) (split_nl text).
Proof.
  unfold findall, group. simpl Nat.pred.
  rewrite <- (map_map m_caps (fun c => nth 0 c [])).
  rewrite (finditer_lines text article_anchored).
  pose proof (split_nl_lines text) as H.
  induction H as [|line ls Hl _ IH]; [reflexivity|].
  simpl flat_map. rewrite map_app, IH. f_equal.
  unfold on_line. rewrite article_here. simpl bol_after. cbv iota.
  rewrite (article_split_line _ Hl).
  destruct (article_line line); reflexivity.
Qed.

(** *** [^\((\d+)\) ] *)


Lemma recital_pattern_items :
  Normalizer.recital_pattern =
  Bol :: lit (txt "(") ++ Open :: Rep isdecimal 1 None true :: Close
      :: lit (txt ") ") ++ [].
Proof. reflexivity. Qed.

Lemma recital_line_here prev pos t :
  match_here Normalizer.recital_pattern prev pos t =
  if bol_after prev
  then option_map (fun ds => {| m_start := pos;
                                m_text := firstn (length (txt "(") + length ds
                                                  + length (txt ") ")) t;
                                m_caps := [ds] |})
                  (recital_line t)
  else None.
Proof.
  unfold match_here, match_pattern. rewrite recital_pattern_items.
  rewrite match_bol. unfold at_bol. simpl m_prev. fold (bol_after prev).
  destruct (bol_after prev); [|reflexivity].
  rewrite match_lit. unfold recital_line.
  destruct (startswith (txt "(") t); [|reflexivity].
  set (t1 := skipn (length (txt "(")) t).
  rewrite match_open.
  rewrite (match_rep_det look_alternatives (fun c alts => forallb (rejects0 c) alts)).
  2:{ intros c b st u Hb. now apply look_rejects. }
  2:{ intros c Hc. simpl. now rewrite decimal_not_close. }
  destruct (1 <=? length (take_while isdecimal t1))%nat; [|reflexivity].
  rewrite match_close, match_lit.
  destruct (startswith (txt ") ") (lstrip_by isdecimal t1)); [|reflexivity].
  rewrite match_nil. unfold option_map. f_equal.
  repeat (rewrite ?eats_len, ?eats_groups, ?eats_cur;
          simpl m_len; simpl m_groups; simpl m_cur; simpl option_map).
  reflexivity.
Qed.

Lemma recital_line_local line rest :
  no_nl line = true -> rest = [] \/ starts_nl rest = true ->
  recital_line (line ++ rest) = recital_line line.
Proof.
  intros Hl Hr. unfold recital_line.
  rewrite startswith_line by (auto; reflexivity).
  destruct (startswith (txt "(") line) eqn:E; [|reflexivity].
  apply startswith_length in E.
  rewrite skipn_app.
  replace (length (txt "(") - length line) with 0 by lia.
  rewrite (skipn_O rest).
  set (t1 := skipn (length (txt "(")) line).
  rewrite (take_while_app_starts isdecimal t1 rest (rest_not_decimal Hr)).
  rewrite (lstrip_by_app isdecimal t1 rest (rest_not_decimal Hr)).
  rewrite startswith_line by (auto; reflexivity).
  reflexivity.
Qed.

Lemma recital_line_shape t ds :
  recital_line t = Some ds ->
  ds <> [] /\ forallb isdecimal ds = true
  /\ exists rest, t = txt "(" ++ ds ++ txt ") " ++ rest.
Proof.
  unfold recital_line.
  destruct (startswith (txt "(") t) eqn:E; [|discriminate].
  apply startswith_spec in E.
  set (t1 := skipn (length (txt "(")) t) in *.
  destruct (1 <=? length (take_while isdecimal t1))%nat eqn:E1; [|discriminate].
  destruct (startswith (txt ") ") (lstrip_by isdecimal t1)) eqn:E2; [|discriminate].
  apply startswith_spec in E2.
  intros H. injection H as <-. repeat split.
  - intros E0. rewrite E0 in E1. discriminate.
  - apply take_while_all.
  - exists (skipn (length (txt ") ")) (lstrip_by isdecimal t1)).
    rewrite <- E2, take_drop. exact E.
Qed.

Lemma recital_anchored : line_anchored Normalizer.recital_pattern.
Proof.
  constructor.
  - reflexivity.
  - intros prev pos t Hb. now rewrite recital_line_here, Hb.
  - intros prev pos line rest Hb Hl Hr. unfold on_line.
    rewrite !recital_line_here, Hb.
    simpl bol_after. cbv iota. rewrite recital_line_local by assumption.
    split.
    + destruct (recital_line line); reflexivity.
    + intros m Hm. destruct (recital_line line) as [ds|] eqn:Es; [|discriminate].
      injection Hm as <-. simpl m_text.
      destruct (recital_line_shape _ Es) as (_ & _ & tail & E).
      assert (H1 : 1 + length ds + 2 <= length line).
      { rewrite E. rewrite !length_app. simpl. lia. }
      assert (Hlen : length (firstn (1 + length ds + 2) (line ++ rest))
                     = 1 + length ds + 2).
      { rewrite length_firstn, length_app. apply Nat.min_l. lia. }
      change (length (txt "(")) with 1. change (length (txt ") ")) with 2.
      simpl Nat.add in *.
      split; [|lia].
      intros E0. rewrite E0 in Hlen. simpl in Hlen. lia.
Qed.

(** The matches of the recital pattern are the recital lines, in
    order. *)
Lemma findall_recital_lines text :
  findall Normalizer.recital_pattern text =
  flat_map (fun line => opt_list (recital_line line)) (split_nl text).
Proof.
  unfold findall, group. simpl Nat.pred.
  rewrite <- (map_map m_caps (fun c => nth 0 c [])).
  rewrite (finditer_lines text recital_anchored).
  induction (split_nl text) as [|line ls IH]; [reflexivity|].
  simpl flat_map. rewrite map_app, IH. f_equal.
  unfold on_line. rewrite recital_line_here. simpl bol_after. cbv iota.
  destruct (recital_line line); reflexivity.
Qed.

End LineScan.

(* ===================================================================== *)
(** * The range law (claim C5) *)
(* ===================================================================== *)


(** C5: [article_range] is the text [none] exactly when the text has no
    article line; otherwise it is the least and the greatest article
    number, formatted and joined by a hyphen, whatever numbers are
    missing in between.  [recital_range] obeys the same law over the
    recital numbers.  The sets are the ones the function builds from
    [re.findall]. *)
Theorem range_law (text : str) :
  let articles := article_numbers text in
  let recitals := recital_numbers text in
  let stats := Normalizer.statistics text in
  articles = Normalizer.int_set (Re.findall Normalizer.article_pattern text)
  /\ recitals = Normalizer.int_set (Re.findall Normalizer.recital_pattern text)
  /\ (Normalizer.article_range stats = Py.txt "none" <-> articles = ∅)
  /\ (articles <> ∅ ->
      exists lo hi,
        lo ∈ articles /\ hi ∈ articles
        /\ (forall n, n ∈ articles -> (lo <= n <= hi)%N)
        /\ Normalizer.article_range stats =
           Py.format_int lo ++ Py.txt "-" ++ Py.format_int hi)
  /\ (Normalizer.recital_range stats = Py.txt "none" <-> recitals = ∅)
  /\ (recitals <> ∅ ->
      exists lo hi,
        lo ∈ recitals /\ hi ∈ recitals
        /\ (forall n, n ∈ recitals -> (lo <= n <= hi)%N)
        /\ Normalizer.recital_range stats =
           Py.format_int lo ++ Py.txt "-" ++ Py.format_int hi).
Proof.
  cbv zeta. unfold article_numbers, recital_numbers.
  rewrite <- LineScan.findall_article_lines, <- LineScan.findall_recital_lines.
  fold (Normalizer.int_set (Re.findall Normalizer.article_pattern text)).
  fold (Normalizer.int_set (Re.findall Normalizer.recital_pattern text)).
  unfold Normalizer.statistics. simpl.
  destruct (StatsFacts.range_text_law (Re.findall Normalizer.article_pattern text)) as [A1 A2].
  destruct (StatsFacts.range_text_law (Re.findall Normalizer.recital_pattern text)) as [R1 R2].
  auto 10.
Qed.

Example ranges_of_sample :
  let stats :=
    Normalizer.statistics
      (Py.txt "(3) recital\n(12) recital\nArticle 7\nTitle\nArticle 2\n\nArticle 7\nArticle 40 bis\nx Article 9") in
  Normalizer.article_range stats = Py.txt "2-7"
  /\ Normalizer.articles stats = 2
  /\ Normalizer.recital_range stats = Py.txt "3-12".
Proof. vm_compute. repeat split. Qed.

(* ===================================================================== *)
(** * Failure and partial effects of the three functions *)
(* ===================================================================== *)




(** X3: when the two positional arguments are there but the input cannot
    be read or the output cannot be written, [main] has printed its
    first progress line and nothing else, has changed no file, and ends
    with an uncaught [OSError], so with status 1. *)
Theorem main_io_error (json_dumps : Extractor.expected -> str)
        (prog input_path output_path : str) (rest : list str) (w : Io.world) :
  Io.files w !! input_path = None \/ output_path ∈ Io.readonly w ->
  Cli.main json_dumps (prog :: input_path :: output_path :: rest) w =
    Io.Raise Io.OSError (Shapes.printed w [Shapes.processing input_path])
  /\ Cli.exit_status
       (Cli.main json_dumps (prog :: input_path :: output_path :: rest) w) = 1%Z.
Proof.
  intros H.
  assert (E : Cli.main json_dumps (prog :: input_path :: output_path :: rest) w =
              Io.Raise Io.OSError (Shapes.printed w [Shapes.processing input_path])).
  { rewrite MainFacts.main_stages, ConversionFacts.clean_gdpr_text_eq.
    cbn [Shapes.printed Io.files Io.readonly Io.stdout].
    destruct (Io.files w !! input_path) as [raw|] eqn:Ein; [|reflexivity].
    destruct H as [H|H]; [discriminate|]. cbv zeta.
    destruct (decide (output_path ∈ Io.readonly w)); [reflexivity|contradiction]. }
  rewrite E. split; reflexivity.
Qed.

Lemma main_io_error_witness :
  Cli.main (fun _ => Py.txt "{}")
    [Py.txt "prepare_gdpr.py"; Py.txt "missing.txt"; Py.txt "out.txt"] usage_world =
    Io.Raise Io.OSError
      (Shapes.printed usage_world [Shapes.processing (Py.txt "missing.txt")])
  /\ Cli.exit_status
       (Cli.main (fun _ => Py.txt "{}")
          [Py.txt "prepare_gdpr.py"; Py.txt "missing.txt"; Py.txt "out.txt"]
          usage_world) = 1%Z.
Proof.
  refine (@main_io_error (fun _ => Py.txt "{}") (Py.txt "prepare_gdpr.py")
            (Py.txt "missing.txt") (Py.txt "out.txt") [] usage_world _).
  left. vm_compute. reflexivity.
Defined.

(* ===================================================================== *)
(** * Where the characters of the cleaned text come from *)
(* ===================================================================== *)

Module CharFacts.
Import Py Re ReFacts Normalizer NormalizerFacts RecitalFacts LineFacts Notions.

(** What [re.sub] writes is a character of the text or of a
    replacement. *)
Lemma render_scan_chars pat repl c : forall t prev pos skip,
  In c (render repl (scan pat prev pos t skip)) ->
  In c t \/ exists m, In m (hits (scan pat prev pos t skip)) /\ In c (repl m).
Proof.
  induction t as [|d t IH]; intros prev pos skip H.
  - simpl in *. destruct skip; [|contradiction].
    destruct (match_here pat prev pos []) as [m|]; [|contradiction].
    simpl in H. rewrite app_nil_r in H. right. exists m. split; [now left|exact H].
  - simpl in *. destruct skip as [|k].
    + destruct (match_here pat prev pos (d :: t)) as [m|].
      * simpl in H. apply in_app_or in H as [H|H].
        { right. exists m. split; [now left|exact H]. }
        destruct (length (m_text m)).
        -- simpl in H. destruct H as [->|H]; [left; now left|].
           destruct (IH _ _ _ H) as [H'|(m' & H1 & H2)]; [left; now right|].
           right. exists m'. split; [right; exact H1|exact H2].
        -- destruct (IH _ _ _ H) as [H'|(m' & H1 & H2)]; [left; now right|].
           right. exists m'. split; [right; exact H1|exact H2].
      * simpl in H. destruct H as [->|H]; [left; now left|].
        destruct (IH _ _ _ H) as [H'|(m' & H1 & H2)]; [left; now right|].
        right. exists m'. split; [exact H1|exact H2].
    + destruct (IH _ _ _ H) as [H'|(m' & H1 & H2)]; [left; now right|].
      right. exists m'. split; [exact H1|exact H2].
Qed.

Lemma sub_chars pat repl c t :
  In c (sub pat repl t) ->
  In c t \/ exists m, In m (finditer pat t) /\ In c (repl m).
Proof. apply render_scan_chars. Qed.

(** Step 1 only deletes. *)
Lemma remove_boxes_chars t c : In c (remove_boxes t) -> In c t.
Proof.
  unfold remove_boxes. intros H.
  apply sub_chars in H as [H|(m & _ & [])].
  apply sub_chars in H as [H|(m & _ & [])]. exact H.
Qed.

Lemma clean_lines_chars t c : In c (clean_lines t) -> In c t \/ c = space.
Proof.
  intros H. destruct (no_nl t) eqn:Et.
  - unfold clean_lines in H. rewrite (split_nl_line _ Et) in H. simpl in H.
    now apply clean_line_chars.
  - assert (Hnl : In nl t).
    { destruct (in_dec N.eq_dec nl t) as [Hi|Hn]; [exact Hi|].
      apply no_nl_spec in Hn. congruence. }
    unfold clean_lines in H. apply join_nl_chars in H as [->|(l & Hl & Hc)].
    + now left.
    + apply in_map_iff in Hl as (l0 & <- & Hl0).
      apply clean_line_chars in Hc as [Hc|Hc]; [left|now right].
      eapply split_nl_chars; eassumption.
Qed.

Lemma recital_split_shape t ds ws rest :
  recital_split t = Some (ds, ws, rest) -> t = 40%N :: ds ++ 41%N :: ws ++ rest.
Proof.
  unfold recital_split. destruct t as [|c t1]; [discriminate|].
  destruct (chr_eqb 40%N c) eqn:Ec; [|discriminate].
  apply chr_eqb_eq in Ec. subst c.
  destruct (1 <=? length (take_while isdecimal t1))%nat; [|discriminate].
  destruct (lstrip_by isdecimal t1) as [|d t3] eqn:E3; [discriminate|].
  destruct (chr_eqb 41%N d) eqn:Ed; [|discriminate].
  apply chr_eqb_eq in Ed. subst d.
  intros H. injection H as <- <- <-.
  rewrite take_drop, <- E3, take_drop. reflexivity.
Qed.

Lemma fix_recitals_chars t c : In c (fix_recitals t) -> In c t \/ c = space.
Proof.
  unfold fix_recitals. intros H.
  apply sub_chars in H as [H|(m & Hm & Hc)]; [now left|].
  unfold finditer, pieces in Hm.
  apply scan_hits_inv in Hm as (pre & t' & -> & _ & Hm).
  rewrite recital_here in Hm.
  destruct (bol_after (last_or None pre)); [|discriminate].
  destruct (recital_split t') as [[[ds ws] rest]|] eqn:Es; [|discriminate].
  injection Hm as <-. apply recital_split_shape in Es. subst t'.
  unfold group in Hc. simpl in Hc.
  destruct Hc as [<-|Hc].
  { left. apply in_or_app. right. now left. }
  apply in_app_or in Hc as [Hc|Hc].
  - left. apply in_or_app. right. right. apply in_or_app. now left.
  - destruct Hc as [<-|[<-|[]]]; [|now right].
    left. apply in_or_app. right. right. apply in_or_app. right. now left.
Qed.


(** The second substitution of step 1 removes every bar and nothing
    else. *)
Lemma bar_here prev pos c t :
  match_here bar prev pos (c :: t) =
  if chr_eqb 124%N c
  then Some {| m_start := pos; m_text := [c]; m_caps := [] |}
  else None.
Proof.
  unfold match_here, match_pattern.
  change bar with (one (L := alternatives) (chr_eqb 124%N) :: []).
  rewrite match_one. destruct (chr_eqb 124%N c); reflexivity.
Qed.

Lemma deleted_placeless : placeless (fun _ : rmatch => @nil N).
Proof. intros p q t caps. reflexivity. Qed.

Lemma sub_bar_filter t : forall prev,
  sub_at bar (fun _ => []) prev t = List.filter (fun c => negb (chr_eqb 124%N c)) t.
Proof.
  induction t as [|c t IH]; intros prev.
  - apply sub_at_nil. reflexivity.
  - pose proof (bar_here prev 0 c t) as E. simpl List.filter.
    destruct (chr_eqb 124%N c).
    + rewrite (@sub_at_hit _ _ _ _ _ deleted_placeless E) by discriminate.
      simpl. apply IH.
    + rewrite (@sub_at_miss _ _ _ _ _ deleted_placeless E). simpl. now rewrite IH.
Qed.

Lemma remove_boxes_no_bar t : ~ In 124%N (remove_boxes t).
Proof.
  unfold remove_boxes. rewrite sub_is_sub_at, sub_bar_filter.
  intros H. apply filter_In in H as [_ H]. discriminate H.
Qed.

Lemma tidy_blank t c : tidy t = true -> In c t -> blank c = true -> c = space.
Proof.
  induction t as [|d t IH]; intros Ht Hc Hb; [contradiction|].
  simpl in Ht. apply andb_prop in Ht as [Hd Ht].
  destruct Hc as [->|Hc]; [|now apply IH].
  rewrite Hb in Hd. apply andb_prop in Hd as [Hd _]. now apply chr_eqb_eq in Hd.
Qed.

Lemma clean_line_no_tab l : ~ In tab (clean_line l).
Proof.
  rewrite clean_line_squeeze. intros H. apply strip_by_chars in H.
  pose proof (@tidy_blank _ _ (squeeze_tidy l) H eq_refl) as E. discriminate E.
Qed.

Lemma clean_lines_no_tab t : ~ In tab (clean_lines t).
Proof.
  unfold clean_lines. intros H.
  apply join_nl_chars in H as [H|(l & Hl & Hc)]; [discriminate H|].
  apply in_map_iff in Hl as (l0 & <- & _). now apply clean_line_no_tab in Hc.
Qed.

(** The last three steps bring in nothing but spaces. *)
Lemma late_steps_chars t c :
  In c (strip_leading (collapse_newlines (fix_recitals t))) -> In c t \/ c = space.
Proof.
  intros H. apply strip_leading_chars, collapse_chars in H.
  now apply fix_recitals_chars.
Qed.




End CharFacts.

(** X5: the normalizer invents no text: every character of the cleaned
    text is a character of the raw text or a space (the one that step 3
    puts after a recital marker, or that step 2 puts for a run of
    blanks). *)
Theorem clean_adds_only_spaces (raw : str) (c : char) :
  In c (Normalizer.clean raw) -> In c raw \/ c = Py.space.
Proof.
  unfold Normalizer.clean. intros H.
  apply CharFacts.late_steps_chars in H as [H|H]; [|now right].
  apply CharFacts.clean_lines_chars in H as [H|H]; [|now right].
  left. now apply CharFacts.remove_boxes_chars.
Qed.

Lemma clean_adds_only_spaces_witness :
  In 32%N (Py.txt "(1)x") \/ 32%N = Py.space.
Proof.
  refine (@clean_adds_only_spaces (Py.txt "(1)x") 32%N _).
  vm_compute. right. right. right. left. reflexivity.
Defined.

(** X6: the cleaned text holds no vertical bar and no tab, whatever the
    raw text is. *)
Theorem clean_leaves_no_bar_no_tab (raw : str) :
  ~ In 124%N (Normalizer.clean raw) /\ ~ In Py.tab (Normalizer.clean raw).
Proof.
  unfold Normalizer.clean. split; intros H.
  - apply CharFacts.late_steps_chars in H as [H|H]; [|discriminate H].
    apply CharFacts.clean_lines_chars in H as [H|H]; [|discriminate H].
    now apply CharFacts.remove_boxes_no_bar in H.
  - apply CharFacts.late_steps_chars in H as [H|H]; [|discriminate H].
    now apply CharFacts.clean_lines_no_tab in H.
Qed.





(* ===================================================================== *)
(** * Step 2 line by line, and the blank document *)
(* ===================================================================== *)

Module StepFacts.
Import Py Re ReFacts Normalizer NormalizerFacts RecitalFacts LineFacts Notions.

Lemma tidy_no_double a b : tidy (a ++ space :: space :: b) = true -> False.
Proof.
  intros H. apply tidy_app in H as [_ H]. vm_compute in H. discriminate H.
Qed.

Lemma clean_line_tidy l : tidy (clean_line l) = true.
Proof.
  rewrite clean_line_squeeze.
  destruct (strip_by_parts isspace (squeeze l)) as (a & b & E & _).
  pose proof (squeeze_tidy l) as H. rewrite E in H.
  apply tidy_app in H as [_ H]. now apply tidy_app in H as [H _].
Qed.

Lemma clean_line_stripped l : strip (clean_line l) = clean_line l.
Proof. unfold clean_line, strip. apply strip_by_idem. Qed.

(** A line of whitespace only is cleaned to the empty line. *)
Lemma strip_all_space l : forallb isspace l = true -> strip l = [].
Proof.
  intros H. unfold strip, strip_by.
  rewrite <- (app_nil_r l), (lstrip_all isspace l [] H). reflexivity.
Qed.

Lemma clean_line_blank l : forallb isspace l = true -> clean_line l = [].
Proof.
  intros H. rewrite clean_line_squeeze. apply strip_all_space.
  apply forallb_forall. intros c Hc.
  apply squeeze_chars in Hc as [Hc| ->]; [|reflexivity].
  rewrite forallb_forall in H. now apply H.
Qed.

Lemma join_nl_empty k : join_nl (repeat [] (S k)) = repeat nl k.
Proof.
  induction k as [|k IH]; [reflexivity|].
  change (repeat [] (S (S k))) with (@nil N :: repeat [] (S k)).
  rewrite join_nl_cons by discriminate. now rewrite IH.
Qed.

Lemma map_const_repeat {A B} (f : A -> B) (b : B) l :
  (forall x, In x l -> f x = b) -> map f l = repeat b (length l).
Proof.
  induction l as [|x l IH]; intros H; [reflexivity|].
  simpl. rewrite (H x) by now left. f_equal. apply IH. intros y Hy. apply H. now right.
Qed.

Lemma clean_lines_blank t :
  forallb isspace t = true -> exists k, clean_lines t = repeat nl k.
Proof.
  intros H. unfold clean_lines.
  rewrite (@map_const_repeat _ _ clean_line [] (split_nl t)).
  - pose proof (split_nl_nonempty t) as Hne.
    destruct (split_nl t) as [|l ls]; [contradiction|].
    exists (length ls). apply join_nl_empty.
  - intros l Hl. apply clean_line_blank. apply forallb_forall. intros c Hc.
    rewrite forallb_forall in H. apply H. eapply split_nl_chars; eassumption.
Qed.

Lemma fix_recitals_no_open t : ~ In 40%N t -> fix_recitals t = t.
Proof.
  intros H. unfold fix_recitals. apply sub_nowhere; [reflexivity|].
  intros c Hc.
  change (rejects1 c recital_marker) with (negb (chr_eqb 40%N c) && true).
  rewrite andb_true_r. apply negb_true_iff.
  destruct (chr_eqb 40%N c) eqn:E; [|reflexivity].
  apply chr_eqb_eq in E. subst c. contradiction.
Qed.

Lemma strip_leading_newlines k : strip_leading (repeat nl k) = [].
Proof. induction k as [|k IH]; [reflexivity|exact IH]. Qed.

Lemma clean_blank t : forallb isspace t = true -> clean t = [].
Proof.
  intros H. unfold clean.
  rewrite remove_boxes_id.
  2:{ intros c Hc Hin. rewrite forallb_forall in H. specialize (H _ Hc).
      destruct Hin as [<-|[<-|[]]]; discriminate H. }
  destruct (clean_lines_blank t H) as (k & ->).
  rewrite fix_recitals_no_open.
  2:{ intros Hi. apply repeat_spec in Hi. discriminate Hi. }
  rewrite <- (app_nil_r (repeat nl k)), collapse_run by reflexivity.
  destruct (collapsed_short k) as (j & _ & ->).
  rewrite collapse_nil, app_nil_r. apply strip_leading_newlines.
Qed.

End StepFacts.

(** X8: step 2 keeps the number of lines, and leaves every line with no
    whitespace at either end, no tab and no two spaces in a row. *)
Theorem clean_lines_line_by_line (text : str) :
  length (Py.split_nl (Normalizer.clean_lines text)) = length (Py.split_nl text)
  /\ forall line, In line (Py.split_nl (Normalizer.clean_lines text)) ->
       Py.strip line = line
       /\ ~ In Py.tab line
       /\ forall a b, line <> a ++ Py.txt "  " ++ b.
Proof.
  rewrite LineFacts.clean_lines_lines. split; [apply length_map|].
  intros line Hl. apply in_map_iff in Hl as (l & <- & _). split; [|split].
  - apply StepFacts.clean_line_stripped.
  - apply CharFacts.clean_line_no_tab.
  - intros a b E. apply (@StepFacts.tidy_no_double a b).
    change (a ++ Py.space :: Py.space :: b) with (a ++ Py.txt "  " ++ b).
    rewrite <- E. apply StepFacts.clean_line_tidy.
Qed.

(** X9: a document of whitespace only (spaces, tabs, blank lines, or
    nothing at all) is cleaned to the empty text, whose statistics count
    one line, no character, no chapter, no article and no recital. *)
Theorem blank_document (raw : str) :
  forallb Py.isspace raw = true ->
  Normalizer.clean raw = []
  /\ Normalizer.statistics (Normalizer.clean raw) =
     {| Normalizer.total_lines := 1;
        Normalizer.total_chars := 0;
        Normalizer.chapters := 0;
        Normalizer.chapter_list := [];
        Normalizer.articles := 0;
        Normalizer.article_range := Py.txt "none";
        Normalizer.recitals := 0;
        Normalizer.recital_range := Py.txt "none" |}.
Proof.
  intros H. rewrite (StepFacts.clean_blank raw H). split; reflexivity.
Qed.

Lemma blank_document_witness :
  Normalizer.clean (Py.txt " \t\n\n \n") = []
  /\ Normalizer.statistics (Normalizer.clean (Py.txt " \t\n\n \n")) =
     {| Normalizer.total_lines := 1;
        Normalizer.total_chars := 0;
        Normalizer.chapters := 0;
        Normalizer.chapter_list := [];
        Normalizer.articles := 0;
        Normalizer.article_range := Py.txt "none";
        Normalizer.recitals := 0;
        Normalizer.recital_range := Py.txt "none" |}.
Proof. exact (@blank_document (Py.txt " \t\n\n \n") eq_refl). Defined.

(* ===================================================================== *)
(** * Heading lines *)
(* ===================================================================== *)

Module HeadingFacts.
Import Py Re ReFacts NormalizerFacts RecitalFacts LineFacts ChapterFacts LineScan.
Import Notions Shapes.

Section Headings.
Variable word : str.
Variable cls : char -> bool.
Hypothesis word_no_nl : no_nl word = true.
Hypothesis cls_not_nl : forall c, cls c = true -> is_nl c = false.

Lemma heading_pattern_items :
  heading_pattern word cls =
  Bol :: lit word ++ [Open; Rep cls 1 None true; Close; Eol].
Proof. reflexivity. Qed.

Lemma heading_here prev pos t :
  match_here (heading_pattern word cls) prev pos t =
  if bol_after prev
  then option_map (fun ds => {| m_start := pos;
                                m_text := firstn (length word + length ds) t;
                                m_caps := [ds] |})
                  (heading_split word cls t)
  else None.
Proof.
  unfold match_here, match_pattern. rewrite heading_pattern_items.
  rewrite match_bol. unfold at_bol. simpl m_prev. fold (bol_after prev).
  destruct (bol_after prev); [|reflexivity].
  rewrite match_lit. unfold heading_split.
  destruct (startswith word t); [|reflexivity].
  set (t1 := skipn (length word) t).
  rewrite match_open.
  rewrite (match_rep_det look_alternatives (fun c alts => forallb (rejects0 c) alts)).
  2:{ intros c b st u Hb. now apply look_rejects. }
  2:{ intros c Hc. simpl. apply cls_not_nl in Hc. rewrite <- is_nl_sym in Hc.
      now rewrite Hc. }
  destruct (1 <=? length (take_while cls t1))%nat; [|reflexivity].
  rewrite match_close, match_eol.
  destruct (at_eol (lstrip_by cls t1)); [|reflexivity].
  rewrite match_nil. unfold option_map. f_equal.
  repeat (rewrite ?eats_len, ?eats_groups, ?eats_cur;
          simpl m_len; simpl m_groups; simpl m_cur; simpl option_map).
  reflexivity.
Qed.

Lemma rest_not_cls rest :
  rest = [] \/ starts_nl rest = true -> starts cls rest = false.
Proof.
  intros [->|H]; [reflexivity|]. destruct rest as [|c rest]; [reflexivity|].
  simpl in *. destruct (cls c) eqn:E; [|reflexivity].
  apply cls_not_nl in E. congruence.
Qed.

Lemma heading_split_local line rest :
  no_nl line = true -> rest = [] \/ starts_nl rest = true ->
  heading_split word cls (line ++ rest) = heading_split word cls line.
Proof.
  intros Hl Hr. unfold heading_split.
  rewrite startswith_line by assumption.
  destruct (startswith word line) eqn:E; [|reflexivity].
  apply startswith_length in E.
  rewrite skipn_app.
  replace (length word - length line) with 0 by lia.
  rewrite (skipn_O rest).
  set (t1 := skipn (length word) line).
  rewrite (take_while_app_starts cls t1 rest (rest_not_cls Hr)).
  rewrite (lstrip_by_app cls t1 rest (rest_not_cls Hr)).
  rewrite at_eol_line; [|apply no_nl_lstrip, no_nl_skipn, Hl|exact Hr].
  destruct (1 <=? length (take_while cls t1))%nat; [|reflexivity].
  destruct (lstrip_by cls t1) as [|d x] eqn:Ex; [reflexivity|].
  simpl. assert (Hn : no_nl (d :: x) = true).
  { rewrite <- Ex. apply no_nl_lstrip, no_nl_skipn, Hl. }
  simpl in Hn. apply andb_prop in Hn as [Hd _]. apply negb_true_iff in Hd.
  now rewrite is_nl_sym, Hd.
Qed.

Lemma heading_split_length t ds :
  heading_split word cls t = Some ds ->
  length word + length ds <= length t /\ 1 <= length ds.
Proof.
  unfold heading_split.
  destruct (startswith word t) eqn:E; [|discriminate].
  apply startswith_spec in E.
  set (t1 := skipn (length word) t) in *.
  destruct (1 <=? length (take_while cls t1))%nat eqn:E1; [|discriminate].
  destruct (at_eol (lstrip_by cls t1)); [|discriminate].
  intros H. injection H as <-. apply Nat.leb_le in E1. split; [|exact E1].
  apply (f_equal (@length N)) in E. rewrite length_app in E.
  pose proof (f_equal (@length N) (take_drop cls t1)) as E2.
  rewrite length_app in E2. lia.
Qed.

Lemma heading_anchored : line_anchored (heading_pattern word cls).
Proof.
  constructor.
  - unfold heading_pattern. clear. destruct word; reflexivity.
  - intros prev pos t Hb. now rewrite heading_here, Hb.
  - intros prev pos line rest Hb Hl Hr. unfold on_line. rewrite !heading_here, Hb.
    simpl bol_after. cbv iota. rewrite heading_split_local by assumption.
    split.
    + destruct (heading_split word cls line); reflexivity.
    + intros m Hm. destruct (heading_split word cls line) as [ds|] eqn:Es; [|discriminate].
      injection Hm as <-. simpl m_text.
      destruct (heading_split_length _ Es) as [H1 H2].
      assert (Hlen : length (firstn (length word + length ds) (line ++ rest))
                     = length word + length ds).
      { rewrite length_firstn, length_app. apply Nat.min_l. lia. }
      split; [|lia].
      intros E. rewrite E in Hlen. simpl in Hlen. lia.
Qed.

Lemma heading_split_line line :
  no_nl line = true -> heading_split word cls line = heading_line word cls line.
Proof.
  intros Hl. unfold heading_split, heading_line.
  destruct (startswith word line); [|reflexivity].
  set (t1 := skipn (length word) line). rewrite andb_true_l.
  destruct (forallb cls t1) eqn:Ea.
  - destruct (take_while_forallb _ _ Ea) as [-> ->].
    destruct (1 <=? length t1)%nat; reflexivity.
  - rewrite andb_false_r.
    destruct (1 <=? length (take_while cls t1))%nat; [|reflexivity].
    destruct (lstrip_by cls t1) as [|d x] eqn:Ex.
    + apply lstrip_nil_forallb in Ex. congruence.
    + simpl. assert (Hn : no_nl (d :: x) = true).
      { rewrite <- Ex. apply no_nl_lstrip. unfold t1. now apply no_nl_skipn. }
      simpl in Hn. apply andb_prop in Hn as [Hd _]. apply negb_true_iff in Hd.
      now rewrite is_nl_sym, Hd.
Qed.

(** The matches of a heading pattern are the heading lines, in order. *)
Lemma findall_heading_lines text :
  findall (heading_pattern word cls) text =
  flat_map (fun line => opt_list (heading_line word cls line)) (split_nl text).
Proof.
  unfold findall, group. simpl Nat.pred.
  rewrite <- (map_map m_caps (fun c => nth 0 c [])).
  rewrite (finditer_lines text heading_anchored).
  pose proof (split_nl_lines text) as H.
  induction H as [|line ls Hl _ IH]; [reflexivity|].
  simpl flat_map. rewrite map_app, IH. f_equal.
  unfold on_line. rewrite heading_here. simpl bol_after. cbv iota.
  rewrite (heading_split_line _ Hl).
  destruct (heading_line word cls line); reflexivity.
Qed.

End Headings.

(** What a heading line is, spelled out. *)
Lemma heading_line_spec word cls line ds :
  heading_line word cls line = Some ds <->
  line = word ++ ds /\ ds <> [] /\ forallb cls ds = true.
Proof.
  unfold heading_line. split.
  - destruct (startswith word line) eqn:E; [|discriminate].
    destruct (1 <=? length (skipn (length word) line))%nat eqn:E1; [|discriminate].
    destruct (forallb cls (skipn (length word) line)) eqn:E2; [|discriminate].
    simpl. intros H. injection H as <-.
    split; [now apply startswith_spec|]. split; [|exact E2].
    intros E0. rewrite E0 in E1. discriminate.
  - intros (-> & Hne & Hall).
    assert (Es : startswith word (word ++ ds) = true).
    { clear. induction word as [|a w IH]; [reflexivity|].
      simpl. now rewrite chr_eqb_refl, IH. }
    rewrite Es, skipn_app, skipn_all, Nat.sub_diag. simpl.
    change (drop 0 ds) with ds. rewrite Hall. destruct ds; [contradiction|reflexivity].
Qed.

Lemma roman_no_nl c : any_of (txt "IVX") c = true -> is_nl c = false.
Proof.
  intros H. destruct (is_nl c) eqn:E; [|reflexivity].
  apply is_nl_true in E. subst c. discriminate H.
Qed.

Lemma findall_chapter_lines text :
  findall Normalizer.chapter_pattern text =
  flat_map (fun line => opt_list (chapter_line line)) (split_nl text).
Proof.
  exact (@findall_heading_lines (txt "CHAPTER ") (any_of (txt "IVX"))
           eq_refl roman_no_nl text).
Qed.

End HeadingFacts.

(** X10: the chapter list of the statistics is read line by line: it
    holds, in the order of the text and with repetitions kept, the
    numeral of every line that is [CHAPTER], a space and one or more of
    the letters I, V, X, and of no other line; [chapters] is its
    length. *)
Theorem chapter_list_by_line (text : str) :
  Normalizer.chapter_list (Normalizer.statistics text) =
    flat_map (fun line => Notions.opt_list (Shapes.chapter_line line))
             (Py.split_nl text)
  /\ Normalizer.chapters (Normalizer.statistics text) =
     length (flat_map (fun line => Notions.opt_list (Shapes.chapter_line line))
                      (Py.split_nl text))
  /\ forall line num,
       Shapes.chapter_line line = Some num <->
       line = Py.txt "CHAPTER " ++ num /\ num <> []
       /\ forallb (Re.any_of (Py.txt "IVX")) num = true.
Proof.
  unfold Normalizer.statistics. simpl.
  rewrite HeadingFacts.findall_chapter_lines.
  split; [reflexivity|]. split; [reflexivity|].
  intros line num. apply HeadingFacts.heading_line_spec.
Qed.

Example chapter_list_of_sample :
  Normalizer.chapter_list
    (Normalizer.statistics
       (Py.txt "CHAPTER I\nTitle\nCHAPTER IIII\n CHAPTER V\nCHAPTER I\nCHAPTER 2\nCHAPTER X."))
  = [Py.txt "I"; Py.txt "IIII"; Py.txt "I"].
Proof. vm_compute. reflexivity. Qed.

(* ===================================================================== *)
(** * Counting distinct numbers *)
(* ===================================================================== *)

Module CountFacts.
Import Py Re Builtins Normalizer Notions.

Lemma unique_numbers_length matches :
  length (unique_numbers matches) = size (int_set matches).
Proof.
  unfold unique_numbers, sorted.
  rewrite (Permutation_length (StatsFacts.sorted_by_perm (fun n => n) _)).
  reflexivity.
Qed.

Lemma int_set_size matches : size (int_set matches) <= length matches.
Proof.
  unfold int_set. rewrite <- (length_map int matches).
  change (size (list_to_set (C := gset N) (map int matches)))
    with (length (elements (list_to_set (C := gset N) (map int matches)))).
  apply submseteq_length, NoDup_submseteq; [apply NoDup_elements|].
  intros n Hn. apply elem_of_elements, elem_of_list_to_set in Hn. exact Hn.
Qed.

Lemma list_to_set_map_flat_map (f : str -> option str) lines n :
  n ∈ (list_to_set (map int (flat_map (fun line => opt_list (f line)) lines)) : gset N)
  <-> exists line ds, In line lines /\ f line = Some ds /\ n = int ds.
Proof.
  rewrite elem_of_list_to_set, list_elem_of_In, in_map_iff. split.
  - intros (ds & <- & Hds). apply in_flat_map in Hds as (line & Hl & Hd).
    exists line, ds. destruct (f line) as [d|]; [|contradiction].
    destruct Hd as [->|[]]. auto.
  - intros (line & ds & Hl & Hf & ->). exists ds. split; [reflexivity|].
    apply in_flat_map. exists line. split; [exact Hl|]. rewrite Hf. now left.
Qed.

End CountFacts.

(** X11: [articles] and [recitals] count distinct numbers: each is the
    size of the set of numbers read from the heading lines (a line that
    is [Article], a space and digits; a line that starts with
    parenthesized digits and a space), so never more than the number of
    such lines, and two lines with the same number count once. *)
Theorem distinct_counts (text : str) :
  let stats := Normalizer.statistics text in
  let article_lines :=
    flat_map (fun line => Notions.opt_list (Notions.article_line line))
             (Py.split_nl text) in
  let recital_lines :=
    flat_map (fun line => Notions.opt_list (Notions.recital_line line))
             (Py.split_nl text) in
  Normalizer.articles stats = size (article_numbers text)
  /\ Normalizer.recitals stats = size (recital_numbers text)
  /\ Normalizer.articles stats <= length article_lines
  /\ Normalizer.recitals stats <= length recital_lines
  /\ (forall n, n ∈ article_numbers text <->
                exists line ds,
                  In line (Py.split_nl text) /\ line = Py.txt "Article " ++ ds
                  /\ ds <> [] /\ forallb Py.isdecimal ds = true /\ n = Py.int ds).
Proof.
  cbv zeta. unfold Normalizer.statistics. simpl.
  rewrite !CountFacts.unique_numbers_length.
  unfold article_numbers, recital_numbers.
  rewrite <- LineScan.findall_article_lines, <- LineScan.findall_recital_lines.
  split; [reflexivity|]. split; [reflexivity|].
  split; [apply CountFacts.int_set_size|]. split; [apply CountFacts.int_set_size|].
  intros n. rewrite LineScan.findall_article_lines.
  rewrite CountFacts.list_to_set_map_flat_map. split.
  - intros (line & ds & Hl & Hf & ->).
    apply (HeadingFacts.heading_line_spec (Py.txt "Article ") Py.isdecimal) in Hf
      as (E & Hne & Hall).
    exists line, ds. auto.
  - intros (line & ds & Hl & E & Hne & Hall & ->). exists line, ds.
    split; [exact Hl|]. split; [|reflexivity].
    apply (HeadingFacts.heading_line_spec (Py.txt "Article ") Py.isdecimal). auto.
Qed.

Example distinct_counts_of_sample :
  let stats :=
    Normalizer.statistics (Py.txt "Article 7\nArticle 07\nArticle 7\nArticle 12") in
  Normalizer.articles stats = 2 /\ Normalizer.article_range stats = Py.txt "7-12".
Proof. vm_compute. split; reflexivity. Qed.

(* ===================================================================== *)
(** * The articles of the extractor *)
(* ===================================================================== *)

Module TitledFacts.
Import Py Re ReFacts NormalizerFacts RecitalFacts LineFacts ChapterFacts LineScan.
Import Extractor Notions Shapes.

Section Greedy.
Context {L : Type} (look : L -> mstate -> str -> bool).

(** A greedy class followed by items that cannot fail takes all it can. *)
Lemma match_rep_total cls lo (its : list (item L)) :
  (forall st t, match_items look its st t <> None) ->
  forall t st lo',
    lo' = lo ->
    match_items look (Rep cls lo None true :: its) st t =
    if (lo <=? length (take_while cls t))%nat
    then match_items look its (eats (take_while cls t) st) (lstrip_by cls t)
    else None.
Proof.
  intros Hits t. revert lo. induction t as [|c t IH]; intros lo st lo' _.
  - simpl. destruct lo; [|reflexivity]. simpl.
    destruct (match_items look its st []); reflexivity.
  - simpl match_items in *. simpl runs. destruct (cls c) eqn:Ec.
    + rewrite rev_app_distr, first_some_app.
      specialize (IH (Nat.pred lo) (eat c st) _ eq_refl).
      simpl take_while. rewrite ?Ec.
      change (eats (c :: take_while cls t) st)
        with (eats (take_while cls t) (eat c st)).
      simpl lstrip_by. rewrite ?Ec.
      rewrite IH. destruct lo as [|lo]; simpl Nat.pred; simpl length.
      * simpl Nat.leb.
        destruct (match_items look its (eats (take_while cls t) (eat c st))
                              (lstrip_by cls t)) eqn:E; [reflexivity|].
        now apply Hits in E.
      * change (S lo <=? S (length (take_while cls t)))%nat
          with (lo <=? length (take_while cls t))%nat.
        destruct (lo <=? length (take_while cls t))%nat; [|reflexivity].
        destruct (match_items look its (eats (take_while cls t) (eat c st))
                              (lstrip_by cls t)) eqn:E; [reflexivity|].
        now apply Hits in E.
    + simpl take_while. rewrite ?Ec. simpl lstrip_by. rewrite ?Ec.
      destruct lo; [|reflexivity]. simpl.
      destruct (match_items look its st (c :: t)); reflexivity.
Qed.

End Greedy.

Lemma titled_pattern_items :
  article_pattern =
  Bol :: lit (txt "Article ")
      ++ [Open; Rep isdecimal 1 None true; Close; Rep is_nl 1 None true;
          Open; Rep (none_of (txt "\n")) 1 None true; Close].
Proof. reflexivity. Qed.

Lemma titled_here prev pos t :
  match_here article_pattern prev pos t =
  if bol_after prev then option_map (titled_match pos t) (titled_split t) else None.
Proof.
  unfold match_here, match_pattern. rewrite titled_pattern_items.
  rewrite match_bol. unfold at_bol. simpl m_prev. fold (bol_after prev).
  destruct (bol_after prev); [|reflexivity].
  rewrite match_lit. unfold titled_split.
  destruct (startswith (txt "Article ") t); [|reflexivity].
  set (t1 := skipn (length (txt "Article ")) t).
  rewrite match_open.
  rewrite (match_rep_det look_alternatives (fun c alts => forallb (rejects0 c) alts)).
  2:{ intros c b st u Hb. now apply look_rejects. }
  2:{ intros c Hc. simpl. apply decimal_not_nl in Hc. now rewrite Hc. }
  destruct (1 <=? length (take_while isdecimal t1))%nat; [|reflexivity].
  rewrite match_close.
  set (t2 := lstrip_by isdecimal t1).
  rewrite (match_rep_det look_alternatives (fun c alts => forallb (rejects0 c) alts)).
  2:{ intros c b st u Hb. now apply look_rejects. }
  2:{ intros c Hc. apply is_nl_true in Hc. subst c. reflexivity. }
  destruct (1 <=? length (take_while is_nl t2))%nat; [|reflexivity].
  rewrite match_open.
  set (t3 := lstrip_by is_nl t2).
  rewrite (@match_rep_total _ look_alternatives (none_of (txt "\n")) 1 [Close])
    with (lo' := 1); [|intros st u; rewrite match_close, match_nil; discriminate
                      |reflexivity].
  destruct (1 <=? length (take_while (none_of (txt "\n")) t3))%nat; [|reflexivity].
  rewrite match_close, match_nil.
  unfold option_map, titled_match. simpl fst. simpl snd. f_equal.
  repeat (rewrite ?eats_len, ?eats_groups, ?eats_cur;
          simpl m_len; simpl m_groups; simpl m_cur; simpl option_map).
  reflexivity.
Qed.

Lemma titled_split_shape t num nls title :
  titled_split t = Some (num, nls, title) ->
  exists post,
    t = txt "Article " ++ num ++ nls ++ title ++ post
    /\ num <> [] /\ forallb isdecimal num = true
    /\ nls <> [] /\ forallb is_nl nls = true
    /\ title <> [] /\ forallb (none_of (txt "\n")) title = true
    /\ (post = [] \/ exists r, post = nl :: r).
Proof.
  unfold titled_split.
  destruct (startswith (txt "Article ") t) eqn:E1; [|discriminate].
  apply startswith_spec in E1.
  set (t1 := skipn (length (txt "Article ")) t) in *.
  destruct (1 <=? length (take_while isdecimal t1))%nat eqn:E2; [|discriminate].
  set (t2 := lstrip_by isdecimal t1) in *.
  destruct (1 <=? length (take_while is_nl t2))%nat eqn:E3; [|discriminate].
  set (t3 := lstrip_by is_nl t2) in *.
  destruct (1 <=? length (take_while (none_of (txt "\n")) t3))%nat eqn:E4;
    [|discriminate].
  intros H. injection H as <- <- <-.
  exists (lstrip_by (none_of (txt "\n")) t3).
  split; [|split; [|split; [|split; [|split; [|split; [|split]]]]]].
  - rewrite take_drop. unfold t3. rewrite take_drop. unfold t2.
    rewrite take_drop. exact E1.
  - intros E. rewrite E in E2. discriminate.
  - apply take_while_all.
  - intros E. rewrite E in E3. discriminate.
  - apply take_while_all.
  - intros E. change (txt "\n") with [nl] in E4. rewrite E in E4. discriminate.
  - apply take_while_all.
  - destruct (lstrip_by (none_of (txt "\n")) t3) as [|c r] eqn:Er; [now left|]. right.
    pose proof (lstrip_by_head _ _ Er) as Hc. unfold none_of, any_of in Hc.
    simpl in Hc. rewrite orb_false_r in Hc.
    apply negb_false_iff, chr_eqb_eq in Hc. subst c. now exists r.
Qed.

(** Every match of the article pattern, where it stands in the text. *)
Lemma article_matches_inv text a :
  In a (article_matches text) ->
  exists pre num nls title post,
    text = pre ++ txt "Article " ++ num ++ nls ++ title ++ post
    /\ (pre = [] \/ exists p, pre = p ++ [nl])
    /\ num <> [] /\ forallb isdecimal num = true
    /\ nls <> [] /\ forallb is_nl nls = true
    /\ title <> [] /\ forallb (none_of (txt "\n")) title = true
    /\ (post = [] \/ exists r, post = nl :: r)
    /\ a = {| Article.number := int num; Article.title := strip title |}.
Proof.
  unfold article_matches. intros H.
  apply in_map_iff in H as (m & <- & Hm).
  unfold finditer, pieces in Hm.
  apply scan_hits_inv in Hm as (pre & t' & -> & _ & Hm).
  rewrite titled_here in Hm.
  destruct (bol_after (last_or None pre)) eqn:Hb; [|discriminate].
  destruct (titled_split t') as [[[num nls] title]|] eqn:Es; [|discriminate].
  injection Hm as <-.
  destruct (titled_split_shape _ Es)
    as (post & -> & H1 & H2 & H3 & H4 & H5 & H6 & H7).
  exists pre, num, nls, title, post.
  split; [reflexivity|]. split; [now apply bol_after_last|].
  repeat (split; [assumption|]). reflexivity.
Qed.

(** The final list holds matches only. *)
Lemma articles_are_matches text a :
  In a (articles text) -> In a (article_matches text).
Proof.
  unfold articles. intros H.
  apply (Permutation_in _ (StatsFacts.sorted_by_perm Article.number _)) in H.
  apply (proj2 (ArticleFacts.seen_values (article_matches text))) in H.
  now apply ArticleFacts.first_with_in in H.
Qed.

Lemma articles_numbers_nodup text :
  List.NoDup (map Article.number (articles text)).
Proof.
  unfold articles.
  eapply Permutation_NoDup;
    [|exact (proj1 (ArticleFacts.seen_values (article_matches text)))].
  symmetry. apply Permutation_map, StatsFacts.sorted_by_perm.
Qed.

End TitledFacts.

(** X12: every entry of the articles list is read at the start of a line
    from [Article], a space, one or more digits, one or more newlines
    and the line after them: the number is that of the digits, and the
    title is that line, which is not empty, trimmed.  Blank lines
    between the heading and the title are passed over, and the title
    ends with its line. *)
Theorem article_entries (text : str) (a : Article.t) :
  In a (Extractor.articles text) ->
  exists pre num nls title post,
    text = pre ++ Py.txt "Article " ++ num ++ nls ++ title ++ post
    /\ (pre = [] \/ exists p, pre = p ++ [Py.nl])
    /\ num <> [] /\ forallb Py.isdecimal num = true
    /\ nls <> [] /\ forallb (Py.chr_eqb Py.nl) nls = true
    /\ title <> [] /\ forallb (Re.none_of (Py.txt "\n")) title = true
    /\ (post = [] \/ exists r, post = Py.nl :: r)
    /\ a = {| Article.number := Py.int num; Article.title := Py.strip title |}.
Proof.
  intros H. apply TitledFacts.articles_are_matches in H.
  now apply TitledFacts.article_matches_inv.
Qed.

Lemma article_entries_witness :
  exists pre num nls title post,
    Py.txt "Intro\nArticle 12\n\n\n  Right of access \nby the data subject\n" =
      pre ++ Py.txt "Article " ++ num ++ nls ++ title ++ post
    /\ (pre = [] \/ exists p, pre = p ++ [Py.nl])
    /\ num <> [] /\ forallb Py.isdecimal num = true
    /\ nls <> [] /\ forallb (Py.chr_eqb Py.nl) nls = true
    /\ title <> [] /\ forallb (Re.none_of (Py.txt "\n")) title = true
    /\ (post = [] \/ exists r, post = Py.nl :: r)
    /\ {| Article.number := 12; Article.title := Py.txt "Right of access" |} =
       {| Article.number := Py.int num; Article.title := Py.strip title |}.
Proof.
  refine (@article_entries
            (Py.txt "Intro\nArticle 12\n\n\n  Right of access \nby the data subject\n")
            {| Article.number := 12; Article.title := Py.txt "Right of access" |} _).
  vm_compute. left. reflexivity.
Defined.

(* ===================================================================== *)
(** * The extractor against the statistics *)
(* ===================================================================== *)

Module ConsistencyFacts.
Import Py Re ReFacts NormalizerFacts RecitalFacts LineFacts ChapterFacts LineScan.
Import Notions Shapes.

(** A stretch of the text between two line boundaries that holds no
    newline is one of its lines. *)
Lemma line_between pre line post :
  (pre = [] \/ exists p, pre = p ++ [nl]) ->
  no_nl line = true ->
  (post = [] \/ exists r, post = nl :: r) ->
  In line (split_nl (pre ++ line ++ post)).
Proof.
  intros Hpre Hl Hpost.
  assert (H : In line (split_nl (line ++ post))).
  { destruct Hpost as [->|(r & ->)].
    - rewrite app_nil_r, (split_nl_line _ Hl). now left.
    - rewrite split_nl_app, (split_nl_line _ Hl). now left. }
  destruct Hpre as [->|(p & ->)]; [exact H|].
  rewrite <- app_assoc. simpl app. rewrite split_nl_app.
  apply in_or_app. now right.
Qed.

Lemma no_nl_word_digits word cls ds :
  no_nl word = true -> (forall c, cls c = true -> is_nl c = false) ->
  forallb cls ds = true -> no_nl (word ++ ds) = true.
Proof.
  intros Hw Hc Hds. rewrite no_nl_app, Hw. simpl.
  unfold no_nl. apply forallb_forall. intros c Hin.
  rewrite forallb_forall in Hds. now rewrite (Hc _ (Hds _ Hin)).
Qed.

Lemma all_nl_cons nls : nls <> [] -> forallb is_nl nls = true -> exists r, nls = nl :: r.
Proof.
  destruct nls as [|c r]; [contradiction|]. intros _ H. simpl in H.
  apply andb_prop in H as [H _]. apply is_nl_true in H. subst c. now exists r.
Qed.

(** The heading of an article of the extractor is an article line of
    the statistics. *)
Lemma article_heading_line text a :
  In a (Extractor.articles text) ->
  exists num,
    In (txt "Article " ++ num) (split_nl text)
    /\ article_line (txt "Article " ++ num) = Some num
    /\ Article.number a = int num.
Proof.
  intros H. apply TitledFacts.articles_are_matches, TitledFacts.article_matches_inv in H.
  destruct H as (pre & num & nls & title & post & -> & Hpre & H1 & H2 & H3 & H4 & _ & _ & _ & ->).
  destruct (all_nl_cons H3 H4) as (r & ->).
  exists num. split; [|split; [|reflexivity]].
  - replace (pre ++ txt "Article " ++ num ++ (nl :: r) ++ title ++ post)
      with (pre ++ (txt "Article " ++ num) ++ nl :: (r ++ title ++ post))
      by (now rewrite <- !app_assoc).
    apply line_between; [exact Hpre| |right; eauto].
    apply (@no_nl_word_digits _ isdecimal); [reflexivity|apply decimal_not_nl|exact H2].
  - apply (HeadingFacts.heading_line_spec (txt "Article ") isdecimal). auto.
Qed.

(** Every chapter of the extractor, where it stands in the text. *)
Lemma chapters_inv text ch :
  In ch (Extractor.chapters text) ->
  exists pre num title post,
    text = pre ++ txt "CHAPTER " ++ num ++ txt "\n\n" ++ title ++ post
    /\ (pre = [] \/ exists p, pre = p ++ [nl])
    /\ num <> [] /\ forallb roman num = true
    /\ Chapter.number ch = num.
Proof.
  unfold Extractor.chapters. intros H.
  apply in_map_iff in H as (m & <- & Hm).
  unfold finditer, pieces in Hm.
  apply scan_hits_inv in Hm as (pre & t' & -> & _ & Hm).
  rewrite chapter_here in Hm.
  destruct (bol_after (last_or None pre)) eqn:Hb; [|discriminate].
  destruct (chapter_split t') as [[num title]|] eqn:Es; [|discriminate].
  injection Hm as <-.
  destruct (chapter_split_shape _ Es) as (post & -> & H1 & H2 & _).
  exists pre, num, title, post. split; [reflexivity|].
  split; [now apply bol_after_last|]. auto.
Qed.

Lemma chapter_heading_line text ch :
  In ch (Extractor.chapters text) ->
  In (txt "CHAPTER " ++ Chapter.number ch) (split_nl text)
  /\ chapter_line (txt "CHAPTER " ++ Chapter.number ch) = Some (Chapter.number ch).
Proof.
  intros H. apply chapters_inv in H.
  destruct H as (pre & num & title & post & -> & Hpre & H1 & H2 & ->).
  split.
  - replace (pre ++ txt "CHAPTER " ++ num ++ txt "\n\n" ++ title ++ post)
      with (pre ++ (txt "CHAPTER " ++ num) ++ nl :: (nl :: title ++ post))
      by (now rewrite <- !app_assoc).
    apply line_between; [exact Hpre| |right; eauto].
    apply (@no_nl_word_digits _ roman); [reflexivity| |exact H2].
    apply HeadingFacts.roman_no_nl.
  - apply (HeadingFacts.heading_line_spec (txt "CHAPTER ") (any_of (txt "IVX"))). auto.
Qed.

End ConsistencyFacts.

(** X13: the extractor finds nothing that the statistics do not count.
    The numeral of every chapter of the extractor is in the chapter list
    of the statistics, the number of every article of the extractor is
    one of the article numbers of the statistics, and the articles list
    is no longer than the article count.  (The converse fails: a heading
    with no title line after it is counted and not extracted.) *)
Theorem extractor_within_statistics (text : str) :
  (forall ch, In ch (Extractor.chapters text) ->
              In (Chapter.number ch)
                 (Normalizer.chapter_list (Normalizer.statistics text)))
  /\ (forall a, In a (Extractor.articles text) ->
                Article.number a ∈ article_numbers text)
  /\ length (Extractor.articles text)
     <= Normalizer.articles (Normalizer.statistics text).
Proof.
  assert (Hart : forall a, In a (Extractor.articles text) ->
                           Article.number a ∈ article_numbers text).
  { intros a Ha.
    destruct (ConsistencyFacts.article_heading_line _ _ Ha) as (num & Hl & Hs & ->).
    unfold article_numbers. apply CountFacts.list_to_set_map_flat_map.
    exists (Py.txt "Article " ++ num), num. auto. }
  split; [|split; [exact Hart|]].
  - intros ch Hch.
    destruct (ConsistencyFacts.chapter_heading_line _ _ Hch) as [Hl Hs].
    unfold Normalizer.statistics. simpl.
    rewrite HeadingFacts.findall_chapter_lines.
    apply in_flat_map. eexists. split; [exact Hl|]. rewrite Hs. now left.
  - unfold Normalizer.statistics. simpl.
    rewrite CountFacts.unique_numbers_length.
    rewrite <- (length_map Article.number).
    change (size (Normalizer.int_set (Re.findall Normalizer.article_pattern text)))
      with (length (elements
              (Normalizer.int_set (Re.findall Normalizer.article_pattern text)))).
    apply NoDup_incl_length; [apply TitledFacts.articles_numbers_nodup|].
    intros n Hn. apply in_map_iff in Hn as (a & <- & Ha).
    apply list_elem_of_In, elem_of_elements.
    specialize (Hart a Ha). unfold article_numbers in Hart.
    rewrite <- LineScan.findall_article_lines in Hart. exact Hart.
Qed.

Example counted_not_extracted :
  Normalizer.articles (Normalizer.statistics (Py.txt "Article 1\nTitle\nArticle 2")) = 2
  /\ map Article.number (Extractor.articles (Py.txt "Article 1\nTitle\nArticle 2")) = [1%N].
Proof. vm_compute. split; reflexivity. Qed.

(* ===================================================================== *)
(** * Patterns that stay within a line *)
(* ===================================================================== *)

Module LocalFacts.
Import Py Re ReFacts Normalizer NormalizerFacts RecitalFacts LineFacts Notions Shapes.

Lemma runs_line cls rest :
  cls nl = false ->
  forall s lo hi st,
    runs cls lo hi st (s ++ nl :: rest) = map (extend rest) (runs cls lo hi st s).
Proof.
  intros Hnl. induction s as [|c s IH]; intros lo hi st.
  - simpl. rewrite Hnl. destruct lo; destruct hi as [[|h]|]; reflexivity.
  - simpl. destruct (cls c).
    + rewrite IH. destruct lo; destruct hi as [[|h]|]; reflexivity.
    + destruct lo; destruct hi as [[|h]|]; reflexivity.
Qed.

Lemma first_some_map {A A' B B'} (f : A -> option B) (f' : A' -> option B')
      (g : A' -> A) (h : B' -> B) l :
  (forall x, f (g x) = option_map h (f' x)) ->
  first_some f (map g l) = option_map h (first_some f' l).
Proof.
  intros H. induction l as [|x l IH]; [reflexivity|].
  simpl. rewrite H. destruct (f' x); [reflexivity|exact IH].
Qed.

Lemma first_some_in {A B} (f : A -> option B) l y :
  first_some f l = Some y -> exists x, In x l /\ f x = Some y.
Proof.
  induction l as [|x l IH]; [discriminate|]. simpl.
  destruct (f x) as [z|] eqn:E.
  - intros H. injection H as <-. exists x. split; [now left|exact E].
  - intros H. destruct (IH H) as (x' & Hx & Hf). exists x'. split; [now right|exact Hf].
Qed.

Lemma runs_len cls : forall t lo hi st p,
  In p (runs cls lo hi st t) ->
  m_len (fst p) + length (snd p) = m_len st + length t.
Proof.
  induction t as [|c t IH]; intros lo hi st p H.
  - simpl in H. apply in_app_or in H as [H|H].
    + destruct lo; [|contradiction]. destruct H as [<-|[]]. reflexivity.
    + destruct hi as [[|h]|]; contradiction.
  - simpl in H. apply in_app_or in H as [H|H].
    + destruct lo; [|contradiction]. destruct H as [<-|[]]. reflexivity.
    + assert (Hin : In p (if cls c
                          then runs cls (Nat.pred lo) (option_map Nat.pred hi) (eat c st) t
                          else [])).
      { destruct hi as [[|h]|]; [contradiction|exact H|exact H]. }
      destruct (cls c); [|contradiction].
      apply IH in Hin. simpl in Hin. simpl. lia.
Qed.

Section Local.
Context {L : Type} (look : L -> mstate -> str -> bool).

(** Before a newline, such a pattern matches as if the text ended
    there. *)
Lemma match_items_line (its : list (item L)) :
  line_bound its = true ->
  forall s st rest,
    match_items look its st (s ++ nl :: rest) =
    option_map (extend rest) (match_items look its st s).
Proof.
  induction its as [|it its IH]; intros Hb s st rest; [reflexivity|].
  simpl in Hb. apply andb_prop in Hb as [Hit Hb].
  destruct it as [cls lo hi g| | | | |b]; try discriminate Hit.
  - apply negb_true_iff in Hit. simpl match_items.
    rewrite (@runs_line cls rest Hit).
    destruct g.
    + rewrite <- map_rev. apply first_some_map. intros p. now apply IH.
    + apply first_some_map. intros p. now apply IH.
  - simpl. destruct (at_bol st); [now apply IH|reflexivity].
  - simpl. now apply IH.
  - simpl. now apply IH.
Qed.

(** What a match attempt has consumed and what it has left make up the
    text. *)
Lemma match_items_len (its : list (item L)) : forall st t st' u,
  match_items look its st t = Some (st', u) ->
  m_len st' + length u = m_len st + length t.
Proof.
  induction its as [|it its IH]; intros st t st' u H.
  - simpl in H. injection H as <- <-. reflexivity.
  - destruct it as [cls lo hi g| | | | |b]; simpl in H.
    + apply first_some_in in H as (p & Hp & Hm).
      assert (Hin : In p (runs cls lo hi st t)).
      { destruct g; [now apply in_rev|exact Hp]. }
      apply runs_len in Hin. apply IH in Hm. lia.
    + destruct (at_bol st); [|discriminate]. now apply IH in H.
    + destruct (at_eol t); [|discriminate]. now apply IH in H.
    + apply IH in H. exact H.
    + apply IH in H. exact H.
    + destruct (look b st t); [|discriminate]. now apply IH in H.
Qed.

End Local.

Lemma match_here_line (pat : pattern) prev pos s rest :
  line_bound pat = true ->
  match_here pat prev pos (s ++ nl :: rest) = match_here pat prev pos s.
Proof.
  intros Hb. unfold match_here, match_pattern.
  rewrite (match_items_line look_alternatives pat Hb).
  destruct (match_items look_alternatives pat _ s) as [[st' u]|] eqn:E; [|reflexivity].
  apply match_items_len in E. simpl in E. simpl.
  f_equal. f_equal. rewrite firstn_app.
  replace (m_len st' - length s) with 0 by lia.
  simpl. apply app_nil_r.
Qed.

(** So a substitution with such a pattern works line by line. *)
Lemma sub_at_line pat repl prev a b :
  placeless repl -> rejects_end pat = true -> line_bound pat = true ->
  sub_at pat repl prev (a ++ nl :: b) =
  sub_at pat repl prev a ++ nl :: sub_at pat repl (Some nl) b.
Proof.
  intros Hp He Hb. rewrite sub_at_app; [|exact Hp|exact He|].
  - f_equal. rewrite (@sub_at_miss pat repl _ nl b Hp); [reflexivity|].
    rewrite (@match_here_line pat _ 0 [] b Hb). now apply match_here_end.
  - intros s1 s2 p pos _ _. now apply match_here_line.
Qed.

Lemma sub_at_prev pat repl prev prev' t :
  (forall p p' pos u, match_here pat p pos u = match_here pat p' pos u) ->
  sub_at pat repl prev t = sub_at pat repl prev' t.
Proof. intros H. unfold sub_at. now rewrite (@scan_prev pat H t prev prev'). Qed.

(** The two patterns of step 1. *)
Lemma box_rule_items :
  box_rule = [one (chr_eqb 43%N); Rep dashplus 1 None true; one (chr_eqb 43%N)].
Proof. reflexivity. Qed.

Lemma box_prev p p' pos u :
  match_here box_rule p pos u = match_here box_rule p' pos u.
Proof.
  unfold match_here, match_pattern. rewrite box_rule_items, !match_one.
  destruct u as [|c u]; [reflexivity|]. destruct (chr_eqb 43%N c); reflexivity.
Qed.

Lemma strip_boxes_line a b :
  sub box_rule (fun _ => []) (a ++ nl :: b) =
  sub box_rule (fun _ => []) a ++ nl :: sub box_rule (fun _ => []) b.
Proof.
  rewrite !sub_is_sub_at.
  rewrite (@sub_at_line box_rule _ None a b CharFacts.deleted_placeless eq_refl eq_refl).
  f_equal. f_equal. apply sub_at_prev, box_prev.
Qed.

Lemma remove_boxes_filter t :
  remove_boxes t = List.filter not_bar (sub box_rule (fun _ => []) t).
Proof. unfold remove_boxes. now rewrite sub_is_sub_at, CharFacts.sub_bar_filter. Qed.

Lemma remove_boxes_line a b :
  remove_boxes (a ++ nl :: b) = remove_boxes a ++ nl :: remove_boxes b.
Proof.
  rewrite !remove_boxes_filter, strip_boxes_line, List.filter_app. reflexivity.
Qed.

Lemma remove_boxes_join ls :
  ls <> [] -> remove_boxes (join_nl ls) = join_nl (map remove_boxes ls).
Proof.
  induction ls as [|l ls IH]; [contradiction|]. intros _.
  destruct ls as [|l' ls]; [reflexivity|].
  rewrite join_nl_cons by discriminate.
  rewrite remove_boxes_line, IH by discriminate.
  change (map remove_boxes (l :: l' :: ls))
    with (remove_boxes l :: map remove_boxes (l' :: ls)).
  rewrite join_nl_cons by discriminate. reflexivity.
Qed.

Lemma remove_boxes_no_nl l : no_nl l = true -> no_nl (remove_boxes l) = true.
Proof.
  intros H. apply no_nl_spec. intros Hin.
  apply CharFacts.remove_boxes_chars in Hin. now apply no_nl_spec in H.
Qed.

Lemma remove_boxes_lines t :
  split_nl (remove_boxes t) = map remove_boxes (split_nl t).
Proof.
  rewrite <- (join_split t) at 1.
  rewrite remove_boxes_join by apply split_nl_nonempty.
  apply split_join.
  - pose proof (split_nl_nonempty t). destruct (split_nl t); [contradiction|discriminate].
  - pose proof (split_nl_lines t) as H. induction H as [|l ls Hl _ IH]; constructor.
    + now apply remove_boxes_no_nl.
    + exact IH.
Qed.

End LocalFacts.

(** X14: step 1 works within lines.  The lines of its output are the
    lines of its input with step 1 applied to each: a border or a bar is
    removed from the line it stands on, and no line is joined to
    another or split. *)
Theorem remove_boxes_line_by_line (text : str) :
  Py.split_nl (Normalizer.remove_boxes text) =
    map Normalizer.remove_boxes (Py.split_nl text)
  /\ length (Py.split_nl (Normalizer.remove_boxes text)) = length (Py.split_nl text).
Proof.
  rewrite LocalFacts.remove_boxes_lines. split; [reflexivity|apply length_map].
Qed.

(* ===================================================================== *)
(** * Table borders and table rows *)
(* ===================================================================== *)

Module BorderFacts.
Import Py Re ReFacts Normalizer NormalizerFacts RecitalFacts LineFacts Notions Shapes.
Import LocalFacts.

Lemma runs_stop cls st rest :
  starts cls rest = false -> runs cls 0 None st rest = [(st, rest)].
Proof.
  intros H. destruct rest as [|c rest]; [reflexivity|].
  simpl in *. now rewrite H.
Qed.

Section Back.
Context {L : Type} (look : L -> mstate -> str -> bool).

(** A greedy class gives back its last character when what follows the
    class in the pattern needs it. *)
Lemma greedy_back cls (its : list (item L)) x rest y : forall m lo st,
  forallb cls m = true -> cls x = true -> starts cls rest = false ->
  lo <= length m ->
  match_items look its (eats (m ++ [x]) st) rest = None ->
  match_items look its (eats m st) (x :: rest) = Some y ->
  match_items look (Rep cls lo None true :: its) st (m ++ x :: rest) = Some y.
Proof.
  induction m as [|c m IH]; intros lo st Hm Hx Hr Hlo Hfail Hok.
  - simpl in Hlo. assert (lo = 0) as -> by lia.
    simpl app. simpl match_items. simpl runs. rewrite Hx.
    rewrite (@runs_stop cls (eat x st) rest Hr). simpl rev. simpl first_some.
    simpl in Hfail. rewrite Hfail. simpl in Hok. now rewrite Hok.
  - simpl in Hm. apply andb_prop in Hm as [Hc Hm].
    simpl app. simpl match_items. simpl runs. rewrite Hc.
    rewrite rev_app_distr, first_some_app.
    specialize (IH (Nat.pred lo) (eat c st) Hm Hx Hr).
    simpl match_items in IH. rewrite IH; [reflexivity| | |].
    + simpl in Hlo. lia.
    + exact Hfail.
    + exact Hok.
Qed.

End Back.

(** At a border that is followed by neither a dash nor a plus, the
    pattern takes the whole border. *)
Lemma box_here_border prev pos m rest :
  m <> [] -> forallb dashplus m = true -> starts dashplus rest = false ->
  match_here box_rule prev pos (43%N :: m ++ 43%N :: rest) =
  Some {| m_start := pos; m_text := 43%N :: m ++ [43%N]; m_caps := [] |}.
Proof.
  intros Hne Hm Hr. unfold match_here, match_pattern.
  rewrite box_rule_items, match_one. rewrite chr_eqb_refl.
  set (st1 := eat 43%N {| m_prev := prev; m_len := 0; m_cur := None; m_groups := [] |}).
  rewrite (@greedy_back _ look_alternatives dashplus [one (chr_eqb 43%N)] 43%N rest
             (eat 43%N (eats m st1), rest) m 1 st1 Hm eq_refl Hr).
  - simpl fst. simpl snd. f_equal.
    change (eat 43%N (eats m st1)) with (eats [43%N] (eats m st1)).
    rewrite <- eats_app, eats_len, eats_groups. simpl m_len. simpl m_groups.
    f_equal. rewrite length_app. simpl length.
    replace (43%N :: m ++ 43%N :: rest) with ((43%N :: m ++ [43%N]) ++ rest)
      by (simpl; now rewrite <- app_assoc).
    apply firstn_exact. simpl. rewrite length_app. simpl. lia.
  - destruct m; [contradiction|simpl; lia].
  - rewrite match_one. destruct rest as [|c rest]; [reflexivity|].
    simpl in Hr. destruct (chr_eqb 43%N c) eqn:E; [|reflexivity].
    apply chr_eqb_eq in E. subst c. discriminate Hr.
  - rewrite match_one, chr_eqb_refl. reflexivity.
Qed.

Lemma strip_border prev m rest :
  m <> [] -> forallb dashplus m = true -> starts dashplus rest = false ->
  sub_at box_rule (fun _ => []) prev (43%N :: m ++ 43%N :: rest) =
  sub_at box_rule (fun _ => []) None rest.
Proof.
  intros Hne Hm Hr.
  rewrite (@sub_at_hit _ _ _ _ _ CharFacts.deleted_placeless
             (@box_here_border prev 0 m rest Hne Hm Hr)) by discriminate.
  cbn [m_text].
  assert (E : skipn (length (43%N :: m ++ [43%N])) (43%N :: m ++ 43%N :: rest) = rest).
  { replace (43%N :: m ++ 43%N :: rest) with ((43%N :: m ++ [43%N]) ++ rest)
      by (simpl; now rewrite <- app_assoc).
    now rewrite skipn_app, skipn_all, Nat.sub_diag. }
  rewrite E. apply (@sub_at_prev box_rule (fun _ => [])), box_prev.
Qed.

Lemma sub_box_border pre m rest :
  (pre = [] \/ exists p, pre = p ++ [nl]) ->
  m <> [] -> forallb dashplus m = true -> starts dashplus rest = false ->
  sub box_rule (fun _ => []) (pre ++ 43%N :: m ++ 43%N :: rest) =
  sub box_rule (fun _ => []) pre ++ sub box_rule (fun _ => []) rest.
Proof.
  intros [->|(p & ->)] Hne Hm Hr.
  - simpl app. rewrite (sub_is_sub_at _ _ (43%N :: m ++ 43%N :: rest)).
    rewrite (@strip_border None m rest Hne Hm Hr).
    now rewrite (sub_is_sub_at _ _ rest).
  - rewrite <- !app_assoc. simpl app. rewrite !strip_boxes_line.
    rewrite (sub_is_sub_at _ _ (43%N :: m ++ 43%N :: rest)).
    rewrite (@strip_border None m rest Hne Hm Hr).
    rewrite (sub_is_sub_at _ _ rest).
    now rewrite <- ?app_assoc.
Qed.

End BorderFacts.

(** X15: a table border is deleted, not blanked.  A stretch that starts
    a line, is a plus, one or more dashes or pluses and a plus, and is
    followed by neither a dash nor a plus, leaves nothing in the output
    of step 1: the text before it and the text after it are processed
    as if they stood next to each other. *)
Theorem border_removed (pre m rest : str) :
  (pre = [] \/ exists p, pre = p ++ [Py.nl]) ->
  m <> [] ->
  forallb (Re.any_of (Py.txt "-+")) m = true ->
  Notions.starts (Re.any_of (Py.txt "-+")) rest = false ->
  Normalizer.remove_boxes (pre ++ Py.txt "+" ++ m ++ Py.txt "+" ++ rest) =
  Normalizer.remove_boxes pre ++ Normalizer.remove_boxes rest.
Proof.
  intros Hpre Hne Hm Hr.
  change (pre ++ Py.txt "+" ++ m ++ Py.txt "+" ++ rest)
    with (pre ++ 43%N :: m ++ 43%N :: rest).
  rewrite !LocalFacts.remove_boxes_filter.
  rewrite BorderFacts.sub_box_border by assumption.
  apply List.filter_app.
Qed.

Lemma border_removed_witness :
  Normalizer.remove_boxes
    (Py.txt "Table 1\n" ++ Py.txt "+" ++ Py.txt "----+----" ++ Py.txt "+"
     ++ Py.txt "\n| A | B |") =
  Normalizer.remove_boxes (Py.txt "Table 1\n")
  ++ Normalizer.remove_boxes (Py.txt "\n| A | B |").
Proof.
  refine (@border_removed (Py.txt "Table 1\n") (Py.txt "----+----")
            (Py.txt "\n| A | B |") _ _ eq_refl eq_refl).
  - right. exists (Py.txt "Table 1"). reflexivity.
  - discriminate.
Defined.

(** X16: in a text with no plus sign, step 1 removes the vertical bars
    and nothing else, leaving every other character where it was. *)
Theorem bars_removed (text : str) :
  ~ In 43%N text ->
  Normalizer.remove_boxes text =
  List.filter (fun c => negb (Py.chr_eqb 124%N c)) text.
Proof.
  intros H. rewrite LocalFacts.remove_boxes_filter.
  change (fun c => negb (Py.chr_eqb 124%N c)) with Shapes.not_bar. f_equal.
  apply ReFacts.sub_nowhere; [reflexivity|]. intros c Hc.
  change (Notions.rejects1 c Normalizer.box_rule) with (negb (Py.chr_eqb 43%N c) && true).
  rewrite andb_true_r. apply negb_true_iff.
  destruct (Py.chr_eqb 43%N c) eqn:E; [|reflexivity].
  apply RecitalFacts.chr_eqb_eq in E. subst c. contradiction.
Qed.

Lemma bars_removed_witness :
  Normalizer.remove_boxes (Py.txt "| A | B |") =
  List.filter (fun c => negb (Py.chr_eqb 124%N c)) (Py.txt "| A | B |").
Proof.
  refine (@bars_removed (Py.txt "| A | B |") _).
  vm_compute. intros H.
  repeat (destruct H as [H|H]; [discriminate H|]). exact H.
Defined.

Example table_cleaned :
  Normalizer.clean (Py.txt "+----+----+\n| A  | B  |\n+----+----+\nText") =
  Py.txt "A B\n\nText".
Proof. vm_compute. reflexivity. Qed.

(* ===================================================================== *)
(** * The lines that step 3 leaves *)
(* ===================================================================== *)

Module MarkerFacts.
Import Py Re ReFacts Normalizer NormalizerFacts RecitalFacts LineFacts Notions Shapes.

Lemma recital_split_props t ds ws rest :
  recital_split t = Some (ds, ws, rest) ->
  t = 40%N :: ds ++ 41%N :: ws ++ rest
  /\ ds <> [] /\ forallb isdecimal ds = true
  /\ forallb isspace ws = true /\ starts isspace rest = false.
Proof.
  intros H. split; [now apply CharFacts.recital_split_shape|].
  unfold recital_split in H. destruct t as [|c t1]; [discriminate|].
  destruct (chr_eqb 40%N c); [|discriminate].
  destruct (1 <=? length (take_while isdecimal t1))%nat eqn:E1; [|discriminate].
  destruct (lstrip_by isdecimal t1) as [|d t3]; [discriminate|].
  destruct (chr_eqb 41%N d); [|discriminate].
  injection H as <- <- <-.
  split; [intros E; rewrite E in E1; discriminate|].
  split; [apply take_while_all|]. split; [apply take_while_all|].
  apply lstrip_by_starts.
Qed.

Lemma fix_at_hit prev t ds ws rest :
  bol_after prev = true -> recital_split t = Some (ds, ws, rest) ->
  fix_at prev t = txt "(" ++ ds ++ txt ") " ++ fix_at (last_or (Some 41%N) ws) rest.
Proof.
  intros Hb Hs. destruct (@recital_split_props t ds ws rest Hs) as (-> & H1 & H2 & H3 & H4).
  now apply fix_at_marker.
Qed.

Lemma fix_at_miss prev c t :
  bol_after prev = false \/ recital_split (c :: t) = None ->
  fix_at prev (c :: t) = c :: fix_at (Some c) t.
Proof.
  intros H. unfold fix_at. apply (@sub_at_miss _ _ _ _ _ respaced_placeless).
  rewrite recital_here. destruct (bol_after prev); [|reflexivity].
  destruct H as [H|H]; [discriminate|]. now rewrite H.
Qed.

Lemma fix_at_nil prev : fix_at prev [] = [].
Proof. unfold fix_at. now apply sub_at_nil. Qed.

(** A marker is found wherever a line start is followed by one. *)
Lemma recital_split_some ds x :
  ds <> [] -> forallb isdecimal ds = true ->
  recital_split (40%N :: ds ++ 41%N :: x) <> None.
Proof.
  intros Hne Hds.
  rewrite <- (take_drop isspace x).
  rewrite (@recital_split_marker ds (take_while isspace x) (lstrip_by isspace x));
    [discriminate|exact Hne|exact Hds|apply take_while_all|apply lstrip_by_starts].
Qed.

Lemma split_nl_prefix m u :
  no_nl m = true ->
  split_nl (m ++ u) = (m ++ hd [] (split_nl u)) :: tl (split_nl u).
Proof.
  induction m as [|c m IH]; intros H.
  - simpl. pose proof (split_nl_nonempty u). destruct (split_nl u); [contradiction|reflexivity].
  - simpl in H. apply andb_prop in H as [Hc H]. apply negb_true_iff in Hc.
    simpl app. rewrite split_nl_other by exact Hc. now rewrite IH.
Qed.

Lemma marker_text_no_nl ds :
  forallb isdecimal ds = true -> no_nl (txt "(" ++ ds ++ txt ") ") = true.
Proof. apply marker_no_nl. Qed.

(** Away from a line start, the rest of the line is kept as it is. *)
Lemma fix_at_first_line t : forall prev,
  bol_after prev = false ->
  hd [] (split_nl (fix_at prev t)) = hd [] (split_nl t).
Proof.
  induction t as [|c t IH]; intros prev Hb.
  - now rewrite fix_at_nil.
  - rewrite fix_at_miss by now left.
    destruct (is_nl c) eqn:Ec.
    + apply is_nl_true in Ec. subst c. now rewrite !split_nl_newline.
    + rewrite !split_nl_other by exact Ec. simpl. f_equal. apply IH.
      simpl. now rewrite is_nl_sym.
Qed.

Lemma Forall_tl {A} (P : A -> Prop) l : Forall P l -> Forall P (tl l).
Proof. intros H. destruct H; [constructor|assumption]. Qed.

Lemma fresh_lines_tl (P : str -> Prop) prev t :
  Forall P (fresh_lines prev t) -> Forall P (tl (split_nl t)).
Proof. unfold fresh_lines. destruct (bol_after prev); [apply Forall_tl|auto]. Qed.

(** The first line of what step 3 writes after a marker starts with no
    whitespace. *)
Lemma after_marker_first_line prev rest :
  starts isspace rest = false ->
  starts isspace (hd [] (split_nl (fix_at prev rest))) = false.
Proof.
  intros Hr. destruct rest as [|c r]; [now rewrite fix_at_nil|].
  destruct (fix_at_head prev c r) as (tail & ->). simpl in Hr.
  destruct (is_nl c) eqn:Ec.
  - apply is_nl_true in Ec. subst c. discriminate Hr.
  - rewrite split_nl_other by exact Ec. exact Hr.
Qed.

Lemma digits_unique ds ds' x x' :
  forallb isdecimal ds = true -> forallb isdecimal ds' = true ->
  ds ++ 41%N :: x = ds' ++ 41%N :: x' -> ds = ds' /\ x = x'.
Proof.
  revert ds'. induction ds as [|d ds IH]; intros ds' H H' E.
  - destruct ds' as [|d' ds']; [injection E as <-; auto|].
    simpl in E, H'. injection E as <- _.
    apply andb_prop in H' as [H' _]. discriminate H'.
  - destruct ds' as [|d' ds'].
    + simpl in E, H. injection E as -> _.
      apply andb_prop in H as [H _]. discriminate H.
    + simpl in *. injection E as <- E.
      apply andb_prop in H as [_ H]. apply andb_prop in H' as [_ H'].
      destruct (IH ds' H H' E) as [-> ->]. auto.
Qed.

(** After step 3 every marker at a line start is spaced. *)
Lemma fix_at_markers : forall n t prev,
  length t <= n -> Forall marker_spaced (fresh_lines prev (fix_at prev t)).
Proof.
  assert (Hnil : marker_spaced []).
  { intros ds tail _ _ E. discriminate E. }
  induction n as [|n IH]; intros t prev Hn.
  { destruct t; [|simpl in Hn; lia]. rewrite fix_at_nil. unfold fresh_lines.
    destruct (bol_after prev); repeat constructor. exact Hnil. }
  destruct t as [|c t].
  { rewrite fix_at_nil. unfold fresh_lines.
    destruct (bol_after prev); repeat constructor. exact Hnil. }
  simpl in Hn.
  destruct (bol_after prev) eqn:Hb.
  - destruct (recital_split (c :: t)) as [[[ds ws] rest]|] eqn:Es.
    + rewrite (@fix_at_hit prev (c :: t) ds ws rest Hb Es).
      destruct (@recital_split_props (c :: t) ds ws rest Es) as (Et & H1 & H2 & H3 & H4).
      assert (Hlen : length rest <= n).
      { apply (f_equal (@length N)) in Et. simpl in Et.
        rewrite !length_app in Et. simpl in Et. rewrite length_app in Et. lia. }
      unfold fresh_lines at 1. rewrite Hb.
      replace (txt "(" ++ ds ++ txt ") " ++ fix_at (last_or (Some 41%N) ws) rest)
        with ((txt "(" ++ ds ++ txt ") ") ++ fix_at (last_or (Some 41%N) ws) rest)
        by (now rewrite <- !app_assoc).
      rewrite split_nl_prefix by now apply marker_text_no_nl.
      constructor.
      * intros ds' tail Hne' Hds' E.
        rewrite <- !app_assoc in E. simpl in E. injection E as E.
        destruct (@digits_unique ds ds' _ _ H2 Hds' E) as [<- <-].
        eexists. split; [reflexivity|]. now apply after_marker_first_line.
      * eapply fresh_lines_tl. apply IH. exact Hlen.
    + rewrite fix_at_miss by now right.
      unfold fresh_lines at 1. rewrite Hb.
      destruct (is_nl c) eqn:Ec.
      * apply is_nl_true in Ec. subst c. rewrite split_nl_newline.
        constructor; [exact Hnil|].
        specialize (IH t (Some nl)). unfold fresh_lines in IH. simpl bol_after in IH.
        rewrite chr_eqb_refl in IH. apply IH. lia.
      * rewrite split_nl_other by exact Ec. constructor.
        -- rewrite fix_at_first_line by (simpl; now rewrite is_nl_sym).
           intros ds tail Hne Hds E.
           destruct (LineScan.first_line_split (c :: t)) as (rest0 & Et & _).
           rewrite split_nl_other in Et by exact Ec. simpl hd in Et.
           rewrite E in Et. exfalso.
           apply (@recital_split_some ds (tail ++ rest0) Hne Hds).
           rewrite <- Es, Et. simpl. now rewrite <- app_assoc.
        -- apply (@fresh_lines_tl _ (Some c)). apply IH. lia.
  - rewrite fix_at_miss by now left.
    unfold fresh_lines at 1. rewrite Hb.
    destruct (is_nl c) eqn:Ec.
    + apply is_nl_true in Ec. subst c. rewrite split_nl_newline. simpl tl.
      specialize (IH t (Some nl)). unfold fresh_lines in IH. simpl bol_after in IH.
      rewrite chr_eqb_refl in IH. apply IH. lia.
    + rewrite split_nl_other by exact Ec. simpl tl.
      apply (@fresh_lines_tl _ (Some c)). apply IH. lia.
Qed.

Lemma Forall_tl_suffix (P : str -> Prop) p rest :
  Forall P (tl (split_nl (p ++ rest))) -> Forall P (tl (split_nl rest)).
Proof.
  induction p as [|c p IH]; intros H; [exact H|].
  simpl app in H. destruct (is_nl c) eqn:Ec.
  - apply is_nl_true in Ec. subst c. rewrite split_nl_newline in H. simpl in H.
    apply IH. now apply Forall_tl.
  - rewrite split_nl_other in H by exact Ec. simpl in H. now apply IH.
Qed.

Lemma first_line_unled rest :
  starts isspace rest = false -> starts isspace (hd [] (split_nl rest)) = false.
Proof.
  intros H. destruct rest as [|c r]; [reflexivity|]. simpl in H.
  destruct (is_nl c) eqn:Ec.
  - apply is_nl_true in Ec. subst c. discriminate H.
  - rewrite split_nl_other by exact Ec. exact H.
Qed.

Lemma split_nl_hd_tl t : split_nl t = hd [] (split_nl t) :: tl (split_nl t).
Proof.
  pose proof (split_nl_nonempty t). destruct (split_nl t); [contradiction|reflexivity].
Qed.

(** Step 3 keeps line starts free of whitespace. *)
Lemma fix_at_unled : forall n t prev,
  length t <= n ->
  Forall (fun l => starts isspace l = false) (fresh_lines prev t) ->
  Forall (fun l => starts isspace l = false) (fresh_lines prev (fix_at prev t)).
Proof.
  induction n as [|n IH]; intros t prev Hn Hq.
  { destruct t; [|simpl in Hn; lia]. rewrite fix_at_nil. unfold fresh_lines.
    destruct (bol_after prev); repeat constructor. }
  destruct t as [|c t].
  { rewrite fix_at_nil. unfold fresh_lines.
    destruct (bol_after prev); repeat constructor. }
  simpl in Hn.
  destruct (bol_after prev) eqn:Hb.
  - destruct (recital_split (c :: t)) as [[[ds ws] rest]|] eqn:Es.
    + rewrite (@fix_at_hit prev (c :: t) ds ws rest Hb Es).
      destruct (@recital_split_props (c :: t) ds ws rest Es) as (Et & H1 & H2 & H3 & H4).
      assert (Hlen : length rest <= n).
      { apply (f_equal (@length N)) in Et. simpl in Et.
        rewrite !length_app in Et. simpl in Et. rewrite length_app in Et. lia. }
      assert (Hq' : Forall (fun l => starts isspace l = false)
                           (fresh_lines (last_or (Some 41%N) ws) rest)).
      { apply fresh_lines_tl in Hq. rewrite Et in Hq.
        replace (40%N :: ds ++ 41%N :: ws ++ rest)
          with ((40%N :: ds ++ 41%N :: ws) ++ rest) in Hq
          by (simpl; rewrite <- app_assoc; reflexivity).
        apply Forall_tl_suffix in Hq. unfold fresh_lines.
        destruct (bol_after (last_or (Some 41%N) ws)); [|exact Hq].
        rewrite split_nl_hd_tl. constructor; [now apply first_line_unled|exact Hq]. }
      unfold fresh_lines at 1. rewrite Hb.
      replace (txt "(" ++ ds ++ txt ") " ++ fix_at (last_or (Some 41%N) ws) rest)
        with ((txt "(" ++ ds ++ txt ") ") ++ fix_at (last_or (Some 41%N) ws) rest)
        by (now rewrite <- !app_assoc).
      rewrite split_nl_prefix by now apply marker_text_no_nl.
      constructor; [reflexivity|].
      eapply fresh_lines_tl. apply IH; [exact Hlen|exact Hq'].
    + rewrite fix_at_miss by now right.
      unfold fresh_lines in Hq. rewrite Hb in Hq.
      unfold fresh_lines at 1. rewrite Hb.
      destruct (is_nl c) eqn:Ec.
      * apply is_nl_true in Ec. subst c. rewrite split_nl_newline in *.
        constructor; [reflexivity|].
        specialize (IH t (Some nl)). unfold fresh_lines in IH. simpl bol_after in IH.
        rewrite chr_eqb_refl in IH. apply IH; [lia|]. now inversion Hq.
      * rewrite split_nl_other in * by exact Ec. inversion Hq as [|? ? Hh Ht]. subst.
        constructor; [exact Hh|].
        apply (@fresh_lines_tl _ (Some c)). apply IH; [lia|].
        unfold fresh_lines. simpl bol_after. rewrite is_nl_sym, Ec. exact Ht.
  - rewrite fix_at_miss by now left.
    unfold fresh_lines in Hq. rewrite Hb in Hq.
    unfold fresh_lines at 1. rewrite Hb.
    destruct (is_nl c) eqn:Ec.
    + apply is_nl_true in Ec. subst c. rewrite split_nl_newline in *. simpl tl in *.
      specialize (IH t (Some nl)). unfold fresh_lines in IH. simpl bol_after in IH.
      rewrite chr_eqb_refl in IH. apply IH; [lia|exact Hq].
    + rewrite split_nl_other in * by exact Ec. simpl tl in *.
      apply (@fresh_lines_tl _ (Some c)). apply IH; [lia|].
      unfold fresh_lines. simpl bol_after. rewrite is_nl_sym, Ec. exact Hq.
Qed.

(** The lines of the cleaned text are lines of the output of step 3. *)
Lemma clean_lines_of_fixed raw line :
  In line (split_nl (clean raw)) ->
  In line (split_nl (fix_recitals (clean_lines (remove_boxes raw)))).
Proof.
  unfold clean. intros H.
  now apply strip_leading_lines_incl, collapse_lines_incl in H.
Qed.

Lemma clean_markers raw line :
  In line (split_nl (clean raw)) -> marker_spaced line.
Proof.
  intros H. apply clean_lines_of_fixed in H. rewrite fix_recitals_at in H.
  pose proof (@fix_at_markers _ (clean_lines (remove_boxes raw)) None (le_n _)) as Hall.
  unfold fresh_lines in Hall. simpl bol_after in Hall.
  rewrite List.Forall_forall in Hall. now apply Hall.
Qed.

Lemma clean_unled raw line :
  In line (split_nl (clean raw)) -> starts isspace line = false.
Proof.
  intros H. apply clean_lines_of_fixed in H. rewrite fix_recitals_at in H.
  assert (Hq : Forall (fun l => starts isspace l = false)
                      (fresh_lines None (clean_lines (remove_boxes raw)))).
  { unfold fresh_lines. simpl bol_after. rewrite clean_lines_lines.
    apply List.Forall_forall. intros l Hl. apply in_map_iff in Hl as (l0 & <- & _).
    unfold clean_line, strip. apply strip_by_starts. }
  pose proof (@fix_at_unled _ (clean_lines (remove_boxes raw)) None (le_n _) Hq) as Hall.
  unfold fresh_lines in Hall. simpl bol_after in Hall.
  rewrite List.Forall_forall in Hall. now apply Hall.
Qed.

Lemma recital_line_marker ds x :
  ds <> [] -> forallb isdecimal ds = true ->
  recital_line (40%N :: ds ++ 41%N :: space :: x) = Some ds.
Proof.
  intros Hne Hds. unfold recital_line.
  change (startswith (txt "(") (40%N :: ds ++ 41%N :: space :: x)) with true.
  change (skipn (length (txt "(")) (40%N :: ds ++ 41%N :: space :: x))
    with (ds ++ 41%N :: space :: x).
  destruct (@take_while_app_stop isdecimal ds (41%N :: space :: x) Hds eq_refl)
    as [-> ->].
  destruct ds; [contradiction|reflexivity].
Qed.

End MarkerFacts.

(** X17: in the cleaned text every line that begins with a
    parenthesized number goes on with exactly one space and then with
    no whitespace (a character that is no whitespace, or the end of the
    line), so the statistics count it as a recital. *)
Theorem cleaned_markers_counted (raw line ds tail : str) :
  In line (Py.split_nl (Normalizer.clean raw)) ->
  ds <> [] ->
  forallb Py.isdecimal ds = true ->
  line = Py.txt "(" ++ ds ++ Py.txt ")" ++ tail ->
  (exists tail', tail = Py.txt " " ++ tail'
                 /\ forall c r, tail' = c :: r -> Py.isspace c = false)
  /\ Notions.recital_line line = Some ds
  /\ Py.int ds ∈ recital_numbers (Normalizer.clean raw).
Proof.
  intros Hl Hne Hds E.
  destruct (@MarkerFacts.clean_markers raw line Hl ds tail Hne Hds E) as (tail' & -> & Ht).
  assert (Hr : Notions.recital_line line = Some ds).
  { rewrite E. now apply MarkerFacts.recital_line_marker. }
  split; [|split; [exact Hr|]].
  - exists tail'. split; [reflexivity|]. intros c r ->. exact Ht.
  - unfold recital_numbers. apply CountFacts.list_to_set_map_flat_map.
    exists line, ds. auto.
Qed.

Lemma cleaned_markers_counted_witness :
  (exists tail', Py.txt " recital text" = Py.txt " " ++ tail'
                 /\ forall c r, tail' = c :: r -> Py.isspace c = false)
  /\ Notions.recital_line (Py.txt "(12) recital text") = Some (Py.txt "12")
  /\ Py.int (Py.txt "12")
     ∈ recital_numbers (Normalizer.clean (Py.txt "Whereas:\n (12)\t\n\n recital text")).
Proof.
  refine (@cleaned_markers_counted (Py.txt "Whereas:\n (12)\t\n\n recital text")
            (Py.txt "(12) recital text") (Py.txt "12") (Py.txt " recital text")
            _ _ eq_refl eq_refl).
  - vm_compute. right. left. reflexivity.
  - discriminate.
Defined.

(** X18: no line of the cleaned text starts with whitespace. *)
Theorem cleaned_lines_unindented (raw line : str) (c : char) (rest : str) :
  In line (Py.split_nl (Normalizer.clean raw)) ->
  line = c :: rest ->
  Py.isspace c = false.
Proof.
  intros Hl ->. exact (@MarkerFacts.clean_unled raw (c :: rest) Hl).
Qed.

Lemma cleaned_lines_unindented_witness : Py.isspace 65%N = false.
Proof.
  refine (@cleaned_lines_unindented (Py.txt "  x\n\t y \n   Article 1  ")
            (Py.txt "Article 1") 65%N (Py.txt "rticle 1") _ eq_refl).
  vm_compute. right. right. left. reflexivity.
Defined.

(* ===================================================================== *)
(** * Headings and matches of the article pattern (claim C2) *)
(* ===================================================================== *)

Module FirstHeadingFacts.
Import Py Re ReFacts NormalizerFacts RecitalFacts LineFacts ChapterFacts LineScan.
Import Extractor Notions Shapes TitledFacts.










End FirstHeadingFacts.

(** C2, as stated, fails: the (cleaned) text has two headings of
    Article 4 with different title lines, and the entry for number 4
    has the title of the second.  The first heading of Article 4 stands
    on the title line of the heading of Article 3: the match for
    Article 3 takes that line as its title, the scan goes on after it,
    and the first heading of Article 4 is never matched. *)
Lemma swallowed_heading_loses :
  Normalizer.clean Shapes.swallowed_heading = Shapes.swallowed_heading
  /\ Shapes.headings Shapes.swallowed_heading =
     [ {| Article.number := 3; Article.title := Py.txt "Article 4" |};
       {| Article.number := 4; Article.title := Py.txt "Old title" |};
       {| Article.number := 4; Article.title := Py.txt "Definitions" |} ]
  /\ List.find (fun a => (Article.number a =? 4)%N)
               (Shapes.headings Shapes.swallowed_heading)
     = Some {| Article.number := 4; Article.title := Py.txt "Old title" |}
  /\ Extractor.articles Shapes.swallowed_heading =
     [ {| Article.number := 3; Article.title := Py.txt "Article 4" |};
       {| Article.number := 4; Article.title := Py.txt "Definitions" |} ].
Proof. repeat split; vm_compute; reflexivity. Qed.



(* ===================================================================== *)
(** * Runs of blank lines, end to end (claim C7) *)
(* ===================================================================== *)

Module BlankRunFacts.
Import Py Re ReFacts Normalizer NormalizerFacts RecitalFacts LineFacts Notions Shapes.
Import LineScan StepFacts LocalFacts MarkerFacts.


(** ** Step 3 around a run of newlines *)
















(** ** Steps 1 and 2 by lines *)





















(** ** The whole normalization around a run of blank lines *)




End BlankRunFacts.

(** The second place where C7 fails: blank lines after a line that is a
    bare recital marker.  Step 3 takes them, with the line break, as the
    whitespace after the marker, and puts one space. *)
Example blank_lines_after_marker_vanish :
  Normalizer.clean (Py.txt "x\n(1)\n\n\n\nfoo") = Py.txt "x\n(1) foo"
  /\ blank_lines (Normalizer.clean (Py.txt "x\n(1)\n\n\n\nfoo")) = 0.
Proof. split; vm_compute; reflexivity. Qed.


